(** * Hexapawn-AI: the rules engine (hexapawn.py), the mistake memory (bot.py)
      and the learning policy of the two shells (cli.py, gui.py).

    The Python code is embedded shallowly.  Python integers are [Z]; a list
    subscript is [getitem]/[setitem] with Python's treatment of negative
    indices; an exception is a value of [error]; a function that may raise
    returns [exc A]; the [Knowledge] object, which is mutated in place, is
    threaded explicitly.  The dict returned by [actions] is an association
    list in insertion order, which is the order Python iterates it in. *)

From Stdlib Require Import String.
From Stdlib Require Import ZArith List Bool Lia.
Import ListNotations.
Local Open Scope Z_scope.

Set Implicit Arguments.

(* ================================================================== *)
(** ** Exceptions *)

Inductive error : Type :=
| AssertionError (msg : option string)
| IndexError
| ValueError.

Definition exc (A : Type) : Type := (error + A)%type.

Definition ret {A} (a : A) : exc A := inr a.
Definition raise {A} (e : error) : exc A := inl e.

Definition bind {A B} (c : exc A) (k : A -> exc B) : exc B :=
  match c with
  | inl e => inl e
  | inr a => k a
  end.

Notation "x <- c ;; k" := (bind c (fun x => k))
  (at level 61, c at next level, right associativity).

(** A [for] loop whose body may raise: the state is threaded through the
    iterations and the first exception ends the loop. *)
Fixpoint for_each {A S} (body : A -> S -> exc S) (l : list A) (s : S) : exc S :=
  match l with
  | [] => ret s
  | x :: l' => s' <- body x s ;; for_each body l' s'
  end.

(* ================================================================== *)
(** ** Python lists *)

Definition len {A} (l : list A) : Z := Z.of_nat (length l).

(** [l[i]]: a negative [i] counts from the end. *)
Definition getitem {A} (l : list A) (i : Z) : exc A :=
  let k := if i <? 0 then i + len l else i in
  if (k <? 0) || (len l <=? k) then raise IndexError
  else match nth_error l (Z.to_nat k) with
       | Some x => ret x
       | None => raise IndexError
       end.

Fixpoint replace_nth {A} (l : list A) (k : nat) (v : A) : list A :=
  match l, k with
  | [], _ => []
  | _ :: l', O => v :: l'
  | x :: l', S k' => x :: replace_nth l' k' v
  end.

(** [l[i] = v] *)
Definition setitem {A} (l : list A) (i : Z) (v : A) : exc (list A) :=
  let k := if i <? 0 then i + len l else i in
  if (k <? 0) || (len l <=? k) then raise IndexError
  else ret (replace_nth l (Z.to_nat k) v).

Fixpoint enumerate_from {A} (start : Z) (l : list A) : list (Z * A) :=
  match l with
  | [] => []
  | x :: l' => (start, x) :: enumerate_from (start + 1) l'
  end.

Definition enumerate {A} (l : list A) : list (Z * A) := enumerate_from 0 l.

(** [range(n)] *)
Definition range (n : Z) : list Z := map Z.of_nat (seq 0 (Z.to_nat n)).

(* ================================================================== *)
(** ** hexapawn.py: the board *)

(** The three cell values [WHITE], [BLACK], [EMPTY].  A [turn] is one of
    the same strings; [EMPTY] as a turn is the invalid turn. *)
Inductive piece : Type := WHITE | BLACK | EMPTY.

Definition piece_eqb (a b : piece) : bool :=
  match a, b with
  | WHITE, WHITE | BLACK, BLACK | EMPTY, EMPTY => true
  | _, _ => false
  end.

Definition Board : Type := list (list piece).
Definition pos : Type := (Z * Z)%type.

Definition pos_eqb (p q : pos) : bool :=
  (fst p =? fst q) && (snd p =? snd q).

Fixpoint list_eqb {A} (eqb : A -> A -> bool) (l1 l2 : list A) : bool :=
  match l1, l2 with
  | [], [] => true
  | x :: t1, y :: t2 => eqb x y && list_eqb eqb t1 t2
  | _, _ => false
  end.

(** [board1 == board2] on nested lists of strings. *)
Definition board_eqb (b1 b2 : Board) : bool := list_eqb (list_eqb piece_eqb) b1 b2.

(** [board[r][c]] *)
Definition getitem2 (board : Board) (p : pos) : exc piece :=
  row <- getitem board (fst p) ;; getitem row (snd p).

(** [board[r][c] = v], on a board whose rows are distinct objects. *)
Definition setitem2 (board : Board) (p : pos) (v : piece) : exc Board :=
  row <- getitem board (fst p) ;;
  row' <- setitem row (snd p) v ;;
  setitem board (fst p) row'.

Definition initial_state (m n : Z) : exc Board :=
  let board := repeat (repeat EMPTY (Z.to_nat n)) (Z.to_nat m) in
  for_each
    (fun j board =>
       board <- setitem2 board (0, j) BLACK ;;
       setitem2 board (m - 1, j) WHITE)
    (range n) board.

Definition next_player (turn : piece) : exc piece :=
  match turn with
  | WHITE => ret BLACK
  | BLACK => ret WHITE
  | EMPTY => raise (AssertionError (Some "Invalid player turn."%string))
  end.

(* ------------------------------------------------------------------ *)
(** *** actions *)

(** The [defaultdict(list)] of [actions], in insertion order. *)
Definition moves_dict : Type := list (pos * list pos).

(** [possible_moves[k].append(v)] *)
Fixpoint dd_append (d : moves_dict) (k v : pos) : moves_dict :=
  match d with
  | [] => [(k, [v])]
  | (k', vs) :: d' =>
      if pos_eqb k' k then (k', vs ++ [v]) :: d'
      else (k', vs) :: dd_append d' k v
  end.

(** [d.get(k)] *)
Fixpoint dict_get (d : moves_dict) (k : pos) : option (list pos) :=
  match d with
  | [] => None
  | (k', vs) :: d' => if pos_eqb k' k then Some vs else dict_get d' k
  end.

Definition in_range (lo x hi : Z) : bool := (lo <=? x) && (x <? hi).

(** The body of the inner loop of [actions] for the cell [(i, j)]. *)
Definition visit (board : Board) (m n : Z) (turn : piece)
    (direction : Z) (opponent : piece) (i j : Z) (pc : piece)
    (possible_moves : moves_dict) : exc moves_dict :=
  if negb (piece_eqb pc turn) then ret possible_moves
  else
    let forward := (i + direction, j) in
    let diag_left := (i + direction, j - 1) in
    let diag_right := (i + direction, j + 1) in
    pm1 <- (if in_range 0 (fst forward) m
            then c <- getitem2 board forward ;;
                 ret (if piece_eqb c EMPTY
                      then dd_append possible_moves (i, j) forward
                      else possible_moves)
            else ret possible_moves) ;;
    pm2 <- (if in_range 0 (fst diag_left) m && in_range 0 (snd diag_left) n
            then c <- getitem2 board diag_left ;;
                 ret (if piece_eqb c opponent
                      then dd_append pm1 (i, j) diag_left
                      else pm1)
            else ret pm1) ;;
    (if in_range 0 (fst diag_right) m && in_range 0 (snd diag_right) n
     then c <- getitem2 board diag_right ;;
          ret (if piece_eqb c opponent
               then dd_append pm2 (i, j) diag_right
               else pm2)
     else ret pm2).

Definition actions (board : Board) (turn : piece) : exc moves_dict :=
  row0 <- getitem board 0 ;;
  let m := len board in
  let n := len row0 in
  dir_opp <- match turn with
             | WHITE => ret (-1, BLACK)
             | BLACK => ret (1, WHITE)
             | EMPTY => raise (AssertionError (Some "Invalid player turn."%string))
             end ;;
  let direction := fst dir_opp in
  let opponent := snd dir_opp in
  for_each
    (fun i_row possible_moves =>
       for_each
         (fun j_piece possible_moves =>
            visit board m n turn direction opponent
                  (fst i_row) (fst j_piece) (snd j_piece) possible_moves)
         (enumerate (snd i_row)) possible_moves)
    (enumerate board) [].

(* ------------------------------------------------------------------ *)
(** *** result, terminal, utility *)

Definition result (board : Board) (depart dest : pos) : exc Board :=
  row0 <- getitem board 0 ;;
  let m := len board in
  let n := len row0 in
  let i := fst depart in
  let j := snd depart in
  let di := fst dest in
  let dj := snd dest in
  if negb (in_range 0 di m && in_range 0 dj n)
  then raise (AssertionError (Some "Move out of board bounds."%string))
  else
    let new_board := board in
    v <- getitem2 new_board (i, j) ;;
    new_board <- setitem2 new_board (di, dj) v ;;
    setitem2 new_board (i, j) EMPTY.

Definition is_empty_dict (d : moves_dict) : bool :=
  match d with [] => true | _ => false end.

Definition terminal (board : Board) (turn : piece) : exc bool :=
  top <- getitem board 0 ;;
  let white_reached_top := existsb (fun pc => piece_eqb pc WHITE) top in
  bottom <- getitem board (-1) ;;
  let black_reached_bottom := existsb (fun pc => piece_eqb pc BLACK) bottom in
  white_trapped <- (if piece_eqb turn WHITE
                    then d <- actions board WHITE ;; ret (is_empty_dict d)
                    else ret false) ;;
  black_trapped <- (if piece_eqb turn BLACK
                    then d <- actions board BLACK ;; ret (is_empty_dict d)
                    else ret false) ;;
  ret (white_reached_top || black_reached_bottom || white_trapped || black_trapped).

Definition utility (board : Board) (turn : piece) : exc piece :=
  top <- getitem board 0 ;;
  if existsb (fun pc => piece_eqb pc WHITE) top then ret WHITE
  else
    bottom <- getitem board (-1) ;;
    if existsb (fun pc => piece_eqb pc BLACK) bottom then ret BLACK
    else
      black_trapped <- (if piece_eqb turn BLACK
                        then d <- actions board BLACK ;; ret (is_empty_dict d)
                        else ret false) ;;
      if black_trapped then ret WHITE
      else
        white_trapped <- (if piece_eqb turn WHITE
                          then d <- actions board WHITE ;; ret (is_empty_dict d)
                          else ret false) ;;
        if white_trapped then ret BLACK
        else raise (AssertionError (Some "Utility calculation failed."%string)).

(* ================================================================== *)
(** ** bot.py: the move history and the mistake memory *)

(** An action is the two-element list [[depart, dest]]. *)
Definition Action : Type := (pos * pos)%type.

Definition action_eqb (a b : Action) : bool :=
  pos_eqb (fst a) (fst b) && pos_eqb (snd a) (snd b).

(** [Node(state, parent, action)]; a node is never mutated after creation. *)
#[warnings="-register-all"]
Inductive Node : Type :=
| mkNode (state : Board) (parent : option Node) (action : Action).

Definition state (nd : Node) : Board := match nd with mkNode s _ _ => s end.
Definition parent (nd : Node) : option Node := match nd with mkNode _ p _ => p end.
Definition action (nd : Node) : Action := match nd with mkNode _ _ a => a end.

Record Mistake : Type := mkMistake {
  configuration : Board;
  fault_action : Action
}.

(** [Mistake.__eq__] *)
Definition mistake_eqb (x y : Mistake) : bool :=
  board_eqb (configuration x) (configuration y) &&
  action_eqb (fault_action x) (fault_action y).

(** The attribute [Knowledge.mistakes]; the object itself is mutated in
    place by [notify], so the functions below take and return it. *)
Definition Knowledge : Type := list Mistake.

Definition Knowledge_init : Knowledge := [].

Definition notify (knowledge : Knowledge) (mistake : Mistake) : Knowledge :=
  knowledge ++ [mistake].

Definition is_mistake (knowledge : Knowledge) (config : Board) (act : Action) : bool :=
  existsb (mistake_eqb (mkMistake config act)) knowledge.

Definition sum_Z (l : list Z) : Z := fold_left Z.add l 0.

Definition catch22 (knowledge : Knowledge) (config : Board) : exc bool :=
  possible_moves <- actions config BLACK ;;
  let total_moves := sum_Z (map (fun kv => len (snd kv)) possible_moves) in
  let fault_tally :=
    sum_Z (map (fun _ => 1)
               (filter (fun mistake => board_eqb (configuration mistake) config)
                       knowledge)) in
  ret (total_moves - 1 =? fault_tally).

(* ================================================================== *)
(** ** cli.py and gui.py: the learning policy *)

(** The [while] loop of [review_reflect], entered with [history] not
    [None]: the outcome is the value of [history] when the loop ends (or
    the exception of [catch22]) together with the memory as mutated so
    far. *)
Fixpoint climb (knowledge : Knowledge) (history : Node)
  : exc (option Node) * Knowledge :=
  match catch22 knowledge (state history) with
  | inl e => (inl e, knowledge)
  | inr false => (inr (Some history), knowledge)
  | inr true =>
      let knowledge := notify knowledge (mkMistake (state history) (action history)) in
      match parent history with
      | None => (inr None, knowledge)
      | Some p => climb knowledge p
      end
  end.

(** [review_reflect(knowledge, history)], the same in cli.py and gui.py
    up to the text printed. *)
Definition review_reflect (knowledge : Knowledge) (history : option Node)
  : exc unit * Knowledge :=
  let after_loop :=
    match history with
    | None => (inr None, knowledge)
    | Some nd => climb knowledge nd
    end in
  match after_loop with
  | (inl e, knowledge) => (inl e, knowledge)
  | (inr None, knowledge) => (inr tt, knowledge)
  | (inr (Some nd), knowledge) =>
      (inr tt, notify knowledge (mkMistake (state nd) (action nd)))
  end.

(** The inner [for move in moves] loop of the automated side's turn:
    [Some] is the [break], [None] the loop's [else]. *)
Fixpoint first_untried (knowledge : Knowledge) (game_board : Board)
    (pawn : pos) (moves : list pos) : option Action :=
  match moves with
  | [] => None
  | move :: moves' =>
      if negb (is_mistake knowledge game_board (pawn, move))
      then Some (pawn, move)
      else first_untried knowledge game_board pawn moves'
  end.

(** The outer [for pawn, moves in ...items()] loop. *)
Fixpoint scan_moves (knowledge : Knowledge) (game_board : Board)
    (items : moves_dict) : option Action :=
  match items with
  | [] => None
  | (pawn, moves) :: items' =>
      match first_untried knowledge game_board pawn moves with
      | Some a => Some a
      | None => scan_moves knowledge game_board items'
      end
  end.

(** cli.py, [play], the branch of the automated side up to the call of
    [result]: the chosen [(depart, dest)]. *)
Definition cli_choose (knowledge : Knowledge) (game_board : Board) : exc Action :=
  possible_moves <- actions game_board BLACK ;;
  match scan_moves knowledge game_board possible_moves with
  | Some a => ret a
  | None =>
      (* depart, (dest, *_) = list(possible_moves)[0]; assert False *)
      first <- getitem possible_moves 0 ;;
      match snd first with
      | [] => raise ValueError
      | _ :: _ => raise (AssertionError None)
      end
  end.

(** cli.py, [play]: one turn of the automated side. *)
Definition cli_black_turn (knowledge : Knowledge) (game_board : Board)
    (history : option Node) : exc (Board * option Node) :=
  a <- cli_choose knowledge game_board ;;
  let history := Some (mkNode game_board history a) in
  game_board <- result game_board (fst a) (snd a) ;;
  ret (game_board, history).

(* ================================================================== *)
(** ** Vocabulary of the specification *)

(** [piece_at]: the value of a cell, [None] outside the lists. *)
Definition cell (board : Board) (p : pos) : option piece :=
  if (0 <=? fst p) && (0 <=? snd p)
  then match nth_error board (Z.to_nat (fst p)) with
       | Some row => nth_error row (Z.to_nat (snd p))
       | None => None
       end
  else None.

Definition holds (board : Board) (p : pos) (pc : piece) : bool :=
  match cell board p with
  | Some x => piece_eqb x pc
  | None => false
  end.

Definition rows (board : Board) : Z := len board.
Definition cols (board : Board) : Z := len (hd [] board).

(** A Board of the data model: an m x n grid with at least one row. *)
Definition is_grid (board : Board) : bool :=
  match board with
  | [] => false
  | row0 :: _ => forallb (fun row => (length row =? length row0)%nat) board
  end.

Definition forward_dir (side : piece) : Z :=
  match side with WHITE => -1 | _ => 1 end.

Definition opposing (side : piece) : piece :=
  match side with WHITE => BLACK | _ => WHITE end.

(** The legal destinations of the piece at [src], in the order straight,
    diagonal-left, diagonal-right. *)
Definition spec_dests (board : Board) (side : piece) (src : pos) : list pos :=
  let d := forward_dir side in
  let straight := (fst src + d, snd src) in
  let left := (fst src + d, snd src - 1) in
  let right := (fst src + d, snd src + 1) in
  (if holds board straight EMPTY then [straight] else []) ++
  (if holds board left (opposing side) then [left] else []) ++
  (if holds board right (opposing side) then [right] else []).

Definition spec_entry (board : Board) (side : piece) (src : pos) : moves_dict :=
  if holds board src side
  then match spec_dests board side src with
       | [] => []
       | ds => [(src, ds)]
       end
  else [].

(** All positions of the grid in row-major order. *)
Definition positions (board : Board) : list pos :=
  flat_map (fun i => map (fun j => (i, j)) (range (cols board))) (range (rows board)).

(** [legal_moves] as the specification words it. *)
Definition spec_legal_moves (board : Board) (side : piece) : moves_dict :=
  flat_map (spec_entry board side) (positions board).

(** The moves of a table, source by source, each with its destinations
    in order. *)
Definition flatten_moves (d : moves_dict) : list Action :=
  flat_map (fun kv => map (fun q => (fst kv, q)) (snd kv)) d.

Definition piece_count (board : Board) : Z :=
  sum_Z (map (fun row => len (filter (fun pc => negb (piece_eqb pc EMPTY)) row)) board).

(** The chain of a history, most recent node first. *)
Fixpoint walk_from (nd : Node) : list Node :=
  match nd with
  | mkNode _ None _ => [nd]
  | mkNode _ (Some p) _ => nd :: walk_from p
  end.

Definition walk (history : option Node) : list Node :=
  match history with
  | None => []
  | Some nd => walk_from nd
  end.

Definition mistake_of (nd : Node) : Mistake := mkMistake (state nd) (action nd).

(* ================================================================== *)
(** ** Definitions used in the statements and proofs below *)

Fixpoint zseq (start : Z) (k : nat) : list Z :=
  match k with
  | O => []
  | S k' => start :: zseq (start + 1) k'
  end.

(** What one visit of the inner loop adds to the dict. *)
Definition visit_entry (board : Board) (turn : piece) (src : pos) (pc : piece)
  : moves_dict :=
  if piece_eqb pc turn
  then match spec_dests board turn src with
       | [] => []
       | ds => [(src, ds)]
       end
  else [].

(** The legality rule of the specification for one destination [q] of
    the piece at [src]. *)
Definition legal_dest (board : Board) (side : piece) (src q : pos) : Prop :=
  let d := forward_dir side in
  (q = (fst src + d, snd src) /\ cell board q = Some EMPTY) \/
  (q = (fst src + d, snd src - 1) /\ cell board q = Some (opposing side)) \/
  (q = (fst src + d, snd src + 1) /\ cell board q = Some (opposing side)).

(** The index a subscript [i] of a list of length [n] denotes. *)
Definition wrap (i n : Z) : Z := if i <? 0 then i + n else i.

(** The board with the cell [p] (row and column from the start) set to [v]. *)
Definition put (board : Board) (p : pos) (v : piece) : Board :=
  match nth_error board (Z.to_nat (fst p)) with
  | Some row =>
      replace_nth board (Z.to_nat (fst p)) (replace_nth row (Z.to_nat (snd p)) v)
  | None => board
  end.

(** 1 for a piece, 0 for an empty cell. *)
Definition occ (pc : piece) : Z := if piece_eqb pc EMPTY then 0 else 1.

Definition row_count (row : list piece) : Z :=
  len (filter (fun pc => negb (piece_eqb pc EMPTY)) row).

Definition in_bounds (board : Board) (p : pos) : Prop :=
  0 <= fst p < rows board /\ 0 <= snd p < cols board.

(** A departure Python accepts: each index may also count from the end. *)
Definition subscriptable (board : Board) (p : pos) : Prop :=
  - rows board <= fst p < rows board /\ - cols board <= snd p < cols board.

Definition wrap_pos (board : Board) (p : pos) : pos :=
  (wrap (fst p) (rows board), wrap (snd p) (cols board)).

(** [initial_state(3, 3)]. *)
Definition board_start : Board :=
  [[BLACK; BLACK; BLACK]; [EMPTY; EMPTY; EMPTY]; [WHITE; WHITE; WHITE]].

(** [board_start] after white's opening move (2,0) -> (1,0). *)
Definition board_capture : Board :=
  [[BLACK; BLACK; BLACK]; [WHITE; EMPTY; EMPTY]; [EMPTY; WHITE; WHITE]].

Definition white_reached_top (board : Board) : Prop :=
  exists j, cell board (0, j) = Some WHITE.

Definition black_reached_bottom (board : Board) : Prop :=
  exists j, cell board (rows board - 1, j) = Some BLACK.

Definition no_legal_move (board : Board) (side : piece) : Prop :=
  forall src q, cell board src = Some side -> ~ legal_dest board side src q.

(** A position in which black, to move, is blocked: white wins. *)
Definition board_black_trapped : Board :=
  [[BLACK; EMPTY; EMPTY]; [WHITE; EMPTY; EMPTY]; [EMPTY; EMPTY; EMPTY]].

(** A position of the 3x3 game in which black has the single legal move
    (0,2) -> (1,2). *)
Definition board_one_move : Board :=
  [[BLACK; EMPTY; BLACK]; [WHITE; EMPTY; EMPTY]; [EMPTY; EMPTY; WHITE]].

(** Induction along the chain of parents. *)
Fixpoint Node_chain_ind (P : Node -> Prop)
    (Hroot : forall s a, P (mkNode s None a))
    (Hstep : forall s p a, P p -> P (mkNode s (Some p) a))
    (nd : Node) : P nd :=
  match nd with
  | mkNode s None a => Hroot s a
  | mkNode s (Some p) a => Hstep s p a (Node_chain_ind P Hroot Hstep p)
  end.

(** The memory once the nodes [blamed] have been recorded, in order. *)
Definition recorded (knowledge : Knowledge) (blamed : list Node) : Knowledge :=
  knowledge ++ map mistake_of blamed.

(** How the loop of [review_reflect] ends, from the node [nd] on. *)
Definition climb_outcome (k : Knowledge) (nd : Node) (blamed rest : list Node) : Prop :=
  match rest with
  | [] => climb k nd = (inr None, recorded k blamed)
  | x :: _ =>
      match catch22 (recorded k blamed) (state x) with
      | inr true => False
      | inr false => climb k nd = (inr (Some x), recorded k blamed)
      | inl e => climb k nd = (inl e, recorded k blamed)
      end
  end.

(** The records of the memory made at [board]. *)
Definition records_at (knowledge : Knowledge) (board : Board) : list Mistake :=
  filter (fun mistake => board_eqb (configuration mistake) board) knowledge.

(** The legal moves of black at [board] that are known mistakes. *)
Definition known_mistakes (knowledge : Knowledge) (board : Board) : list Action :=
  filter (is_mistake knowledge board) (flatten_moves (spec_legal_moves board BLACK)).

(** [is_forced_loss] as the specification words it: among the legal moves
    of black, those recorded as mistakes for this board number the total
    minus one. *)
Definition spec_is_forced_loss (knowledge : Knowledge) (board : Board) : bool :=
  len (known_mistakes knowledge board) =?
  len (flatten_moves (spec_legal_moves board BLACK)) - 1.

(** A position of the 3x3 game in which black has exactly the two legal
    moves (0,2) -> (1,2) and (0,2) -> (1,1). *)
Definition board_two_moves : Board :=
  [[EMPTY; BLACK; BLACK]; [EMPTY; WHITE; EMPTY]; [EMPTY; EMPTY; WHITE]].

(** The piece [initial_state m n] leaves on row [r]: the write of the
    white row comes second, so it wins when the two rows coincide. *)
Definition initial_cell (m r : Z) : piece :=
  if r =? m - 1 then WHITE else if r =? 0 then BLACK else EMPTY.

(** The body of the loop of [initial_state]. *)
Definition fill_column (m : Z) (j : Z) (board : Board) : exc Board :=
  board <- setitem2 board (0, j) BLACK ;;
  setitem2 board (m - 1, j) WHITE.

(** The board after the columns below [t] have been filled. *)
Definition filled_upto (m n t : Z) (board : Board) : Prop :=
  is_grid board = true /\ rows board = m /\ cols board = n /\
  forall r c, 0 <= r < m -> 0 <= c < n ->
              cell board (r, c) = Some (if c <? t then initial_cell m r else EMPTY).

(* ================================================================== *)
(** ** gui.py: the test for a white pawn *)

Definition ROWS : Z := 3.

(** [d.get(k, default)] *)
Definition dict_get_default (d : moves_dict) (k : pos) (default : list pos) : list pos :=
  match dict_get d k with
  | Some vs => vs
  | None => default
  end.

(** gui.py, [is_white_pawn(board, index)]. *)
Definition is_white_pawn (board : Board) (index : pos) : exc bool :=
  let i := fst index in
  let j := snd index in
  if in_range 0 i ROWS && in_range 0 j ROWS
  then c <- getitem2 board (i, j) ;; ret (piece_eqb c WHITE)
  else ret false.

(* ================================================================== *)
(** ** cli.py: one pass through the loop of play *)

Definition M : Z := 3.
Definition N : Z := 3.

(** The local variables of [play] that live across iterations; the
    [Knowledge] object is among them. *)
Record cli_state : Type := mkCli {
  cli_board : Board;
  cli_chance : list piece;
  cli_history : option Node;
  cli_knowledge : Knowledge
}.

(** How an iteration ends: [continue] (or the end of the body) with the
    new state, or [break]. *)
Inductive cli_next : Type :=
| Continue (st : cli_state)
| Break (st : cli_state).

(** cli.py, [play]: the choice of the automated side as the code writes
    it, with [chance[0]] as the turn handed to [actions]. *)
Definition cli_choose_turn (knowledge : Knowledge) (game_board : Board)
    (turn : piece) : exc Action :=
  possible_moves <- actions game_board turn ;;
  match scan_moves knowledge game_board possible_moves with
  | Some a => ret a
  | None =>
      first <- getitem possible_moves 0 ;;
      match snd first with
      | [] => raise ValueError
      | _ :: _ => raise (AssertionError None)
      end
  end.

(** One iteration of [while True] in cli.py's [play].  [human] is the
    outcome of the call [white_chance()] if it is made: the pair it
    returns, or the exception it raises on a line it cannot parse (a
    ValueError when the line is not two tokens or a character is not a
    digit, an IndexError when a token has one character).  [again] is the
    value [retry()] returns if it is called; what is printed is left
    out. *)
Definition cli_iteration (st : cli_state) (human : exc Action) (again : bool)
  : exc cli_next :=
  let game_board := cli_board st in
  let chance := cli_chance st in
  let history := cli_history st in
  let knowledge := cli_knowledge st in
  turn <- getitem chance 0 ;;
  is_terminal <- terminal game_board turn ;;
  if is_terminal then
    winner <- utility game_board turn ;;
    reviewed <- (if piece_eqb winner WHITE
                 then match review_reflect knowledge history with
                      | (inl e, _) => raise e
                      | (inr _, knowledge) => ret knowledge
                      end
                 else ret knowledge) ;;
    if again then
      game_board <- initial_state M N ;;
      ret (Continue (mkCli game_board [WHITE; BLACK] None reviewed))
    else ret (Break (mkCli game_board chance history reviewed))
  else
    turn <- getitem chance 0 ;;
    chosen <- (if piece_eqb turn WHITE
               then typed <- human ;; ret (typed, history)
               else a <- cli_choose_turn knowledge game_board turn ;;
                    ret (a, Some (mkNode game_board history a))) ;;
    let depart := fst (fst chosen) in
    let dest := snd (fst chosen) in
    let history := snd chosen in
    game_board <- result game_board depart dest ;;
    ret (Continue (mkCli game_board (rev chance) history knowledge)).

(* ================================================================== *)
(** ** Measures on boards *)

(** How many rows the piece [pc] standing on row [r] still has to go on a
    board of [m] rows: white walks to row 0, black to row m-1. *)
Definition steps_left (m r : Z) (pc : piece) : Z :=
  match pc with
  | WHITE => r
  | BLACK => m - 1 - r
  | EMPTY => 0
  end.

Fixpoint steps_from (m r : Z) (board : Board) : Z :=
  match board with
  | [] => 0
  | row :: board' => sum_Z (map (steps_left m r) row) + steps_from m (r + 1) board'
  end.

(** The total number of rows the pieces of a board still have to go. *)
Definition remaining (board : Board) : Z := steps_from (rows board) 0 board.

(** The boards of a history are grids. *)
Definition grid_history (history : option Node) : Prop :=
  Forall (fun nd => is_grid (state nd) = true) (walk history).

(** One legal move of [side]: a move of the table of [actions], applied
    by [result]. *)
Definition legal_step (board : Board) (side : piece) (a : Action)
    (new_board : Board) : Prop :=
  exists d ds,
    actions board side = inr d /\ dict_get d (fst a) = Some ds /\
    In (snd a) ds /\ result board (fst a) (snd a) = inr new_board.

(** [legal_run b n b']: [n] legal moves, by either side in any order,
    lead from [b] to [b']. *)
Inductive legal_run : Board -> nat -> Board -> Prop :=
| run_nil (b : Board) : legal_run b O b
| run_step (b b1 b2 : Board) (side : piece) (a : Action) (n : nat) :
    legal_step b side a b1 -> legal_run b1 n b2 -> legal_run b (S n) b2.

(** White, to move, can step from (1,1) onto row 0. *)
Definition board_white_wins_next : Board :=
  [[EMPTY; EMPTY; BLACK]; [BLACK; WHITE; EMPTY]; [EMPTY; EMPTY; WHITE]].

(** Black, to move, can step from (1,0) onto the last row. *)
Definition board_black_wins_next : Board :=
  [[EMPTY; EMPTY; EMPTY]; [BLACK; EMPTY; WHITE]; [EMPTY; EMPTY; EMPTY]].

(** The state an iteration ends in. *)
Definition next_state (nxt : cli_next) : cli_state :=
  match nxt with
  | Continue st => st
  | Break st => st
  end.

(** The states [play] runs through: an M x N grid, [chance] one of its
    two orders, a history whose boards are grids. *)
Definition cli_wf (st : cli_state) : Prop :=
  is_grid (cli_board st) = true /\
  rows (cli_board st) = M /\ cols (cli_board st) = N /\
  (cli_chance st = [WHITE; BLACK] \/ cli_chance st = [BLACK; WHITE]) /\
  grid_history (cli_history st).

(** The state [play] starts in. *)
Definition cli_start : cli_state :=
  mkCli board_start [WHITE; BLACK] None Knowledge_init.

(* ================================================================== *)
(** ** gui.py: geometry of the window *)

Definition GAP : Z := 1.
Definition TILE_SIZE : Z := 120.
Definition BOARD_WIDTH : Z := ROWS * TILE_SIZE.
Definition BORDER_GAP : Z := GAP * 50.
Definition DIMENSION : Z * Z :=
  (BOARD_WIDTH + BORDER_GAP * 2, BOARD_WIDTH + BORDER_GAP * 2).
Definition COIN_SIZE : Z * Z := (100, 100).

(** pygame's [Rect], by its left, top, width and height, with the
    attributes and methods gui.py uses.  pygame keeps the four fields as
    C ints, and adds them as C ints: a sum that leaves the range wraps
    around. *)
Record Rect : Type := mkRect {
  rect_left : Z;
  rect_top : Z;
  rect_width : Z;
  rect_height : Z
}.

Definition topleft (r : Rect) : Z * Z := (rect_left r, rect_top r).

(** The C int that an addition with the exact result [z] leaves. *)
Definition c_int (z : Z) : Z := (z + 2147483648) mod 4294967296 - 2147483648.

(** The range of a C int. *)
Definition c_int_range (z : Z) : Prop := -2147483648 <= z <= 2147483647.

(** The rectangles pygame can hold. *)
Definition is_rect (r : Rect) : Prop :=
  c_int_range (rect_left r) /\ c_int_range (rect_top r) /\
  c_int_range (rect_width r) /\ c_int_range (rect_height r).

Definition bottomright (r : Rect) : Z * Z :=
  (c_int (rect_left r + rect_width r), c_int (rect_top r + rect_height r)).

(** [r.topleft = p], for a point whose coordinates are in the range of a
    C int. *)
Definition set_topleft (r : Rect) (p : Z * Z) : Rect :=
  mkRect (fst p) (snd p) (rect_width r) (rect_height r).

(** [r.collidepoint(x, y)]: the right and bottom edges are outside. *)
Definition collidepoint (r : Rect) (x y : Z) : bool :=
  (rect_left r <=? x) && (x <? rect_left r + rect_width r) &&
  (rect_top r <=? y) && (y <? rect_top r + rect_height r).

(** The two images, scaled to [COIN_SIZE]. *)
Inductive Surface : Type := white_img | black_img.

(** [white_img.get_rect()] and [black_img.get_rect()]. *)
Definition white_rect : Rect := mkRect 0 0 (fst COIN_SIZE) (snd COIN_SIZE).
Definition black_rect : Rect := mkRect 0 0 (fst COIN_SIZE) (snd COIN_SIZE).

(** gui.py, [fit_piece(box, piece)].  [box.topleft] and [piece.width]
    read fields; [box.bottomright] adds two fields as C ints; what follows
    is arithmetic on Python ints. *)
Definition fit_piece (box piece : Rect) : Z * Z :=
  let tx := fst (topleft box) in
  let ty := snd (topleft box) in
  let bx := fst (bottomright box) in
  let outer := bx - tx in
  let inner := rect_width piece in
  let offset := (outer - inner) / 2 in
  (tx + offset, ty + offset).

(** [clicked_index()], as a function of what [mouse.get_pos()] returns. *)
Definition clicked_index (mouse_pos : Z * Z) : pos :=
  let x := fst mouse_pos - BORDER_GAP in
  let y := snd mouse_pos - BORDER_GAP in
  (y / TILE_SIZE, x / TILE_SIZE).

(** [range(start, stop, step)] *)
Definition range_step (start stop step : Z) : exc (list Z) :=
  if step =? 0 then raise ValueError
  else
    let count := if 0 <? step
                 then (stop - start + step - 1) / step
                 else (start - stop - step - 1) / (- step) in
    ret (map (fun k => start + step * Z.of_nat k) (seq 0 (Z.to_nat count))).

(** A list comprehension whose element expression may raise. *)
Fixpoint map_exc {A B} (f : A -> exc B) (l : list A) : exc (list B) :=
  match l with
  | [] => ret []
  | x :: l' => y <- f x ;; ys <- map_exc f l' ;; ret (y :: ys)
  end.

(** [tessellate(w, h)].  [draw_rect r] stands for the value of
    [pygame.draw.rect(screen, TILE_COLOR, r, TILE_BORDER_THICKNESS)]. *)
Definition tessellate (draw_rect : Rect -> Rect) (w h : Z) : exc (list (list Rect)) :=
  let start := BORDER_GAP in
  let stop := fst DIMENSION - BORDER_GAP in
  rows_at <- range_step start stop w ;;
  map_exc (fun i =>
             cols_at <- range_step start stop h ;;
             ret (map (fun j => draw_rect (mkRect j i (w - 2) (h - 2))) cols_at))
          rows_at.

(** The body of the inner loop of [locate_pawns]. *)
Definition locate_tile (board : Board) (i j : Z) (tile : Rect)
    (pawns : list (Surface * Rect)) : exc (list (Surface * Rect)) :=
  c <- getitem2 board (i, j) ;;
  if piece_eqb c WHITE then
    let pawn := white_rect in
    let pawn := set_topleft pawn (fit_piece tile pawn) in
    ret (pawns ++ [(white_img, pawn)])
  else
    c <- getitem2 board (i, j) ;;
    if piece_eqb c BLACK then
      let pawn := black_rect in
      let pawn := set_topleft pawn (fit_piece tile pawn) in
      ret (pawns ++ [(black_img, pawn)])
    else ret pawns.

Definition locate_pawns (board : Board) (table : list (list Rect))
  : exc (list (Surface * Rect)) :=
  for_each
    (fun i_row pawns =>
       for_each
         (fun j_tile pawns =>
            locate_tile board (fst i_row) (fst j_tile) (snd j_tile) pawns)
         (enumerate (snd i_row)) pawns)
    (enumerate table) [].

(** [clicked_pawn(pawns)], as a function of what [mouse.get_pos()]
    returns. *)
Fixpoint clicked_pawn (pawns : list (Surface * Rect)) (mouse_pos : Z * Z) : exc Rect :=
  match pawns with
  | [] => raise (AssertionError (Some "No pawn was clicked."%string))
  | (_, pawn_rect) :: pawns' =>
      if collidepoint pawn_rect (fst mouse_pos) (snd mouse_pos)
      then ret pawn_rect
      else clicked_pawn pawns' mouse_pos
  end.

(** gui.py, [play], the MOUSEBUTTONDOWN branch: [None] when the branch is
    not taken, else the new values of [pawn_selected] and [cursor_pawn]. *)
Definition gui_mouse_down (game_board : Board) (pawns : list (Surface * Rect))
    (mouse_pos : Z * Z) : exc (option (pos * Rect)) :=
  on_pawn <- is_white_pawn game_board (clicked_index mouse_pos) ;;
  if on_pawn then
    let pawn_selected := clicked_index mouse_pos in
    cursor_pawn <- clicked_pawn pawns mouse_pos ;;
    ret (Some (pawn_selected, cursor_pawn))
  else ret None.

(** The tile of row [a] and column [b] and the pawn drawn in it. *)
Definition tile_rect (a b : Z) : Rect :=
  mkRect (BORDER_GAP + TILE_SIZE * b) (BORDER_GAP + TILE_SIZE * a)
         (TILE_SIZE - 2) (TILE_SIZE - 2).

Definition pawn_rect_at (a b : Z) : Rect :=
  mkRect (BORDER_GAP + TILE_SIZE * b + 9) (BORDER_GAP + TILE_SIZE * a + 9) 100 100.

(** The table [tessellate(TILE_SIZE, TILE_SIZE)] builds. *)
Definition table3 : list (list Rect) :=
  map (fun a => map (fun b => tile_rect a b) [0; 1; 2]) [0; 1; 2].

(** A rectangle that lies inside the window. *)
Definition inside_screen (r : Rect) : Prop :=
  0 <= rect_left r /\ 0 <= rect_top r /\ 0 <= rect_width r /\ 0 <= rect_height r /\
  rect_left r + rect_width r <= fst DIMENSION /\
  rect_top r + rect_height r <= snd DIMENSION.

(** What [locate_pawns] adds for a cell. *)
Definition pawn_entry (c : piece) (a b : Z) : list (Surface * Rect) :=
  match c with
  | WHITE => [(white_img, pawn_rect_at a b)]
  | BLACK => [(black_img, pawn_rect_at a b)]
  | EMPTY => []
  end.

(* ================================================================== *)
(** ** gui.py: the two turns *)

(** gui.py, [play], the MOUSEBUTTONUP branch: the new board, the new
    value of [made_a_move] (which is [False] when the branch starts) and
    the new value of [pawns], which [locate_pawns] computes from the board
    whether a move was made or not.  [table3] is the value of [table]. *)
Definition gui_white_drop (game_board : Board) (pawn_selected pawn_action : pos)
  : exc (Board * bool * list (Surface * Rect)) :=
  d <- actions game_board WHITE ;;
  moved <- (if existsb (fun q => pos_eqb pawn_action q)
                       (dict_get_default d pawn_selected [])
            then game_board <- result game_board pawn_selected pawn_action ;;
                 ret (game_board, true)
            else ret (game_board, false)) ;;
  let game_board := fst moved in
  let made_a_move := snd moved in
  pawns <- locate_pawns game_board table3 ;;
  ret (game_board, made_a_move, pawns).

(** gui.py, [play]: one turn of the automated side, by the new board and
    the new history.  A move that is made is followed by [locate_pawns]
    on the new board, with [table3] the value of [table]; its value, the
    new [pawns], is a function of the new board.  When no move is chosen
    neither the board nor the history changes, [locate_pawns] is not
    called, and the turn passes. *)
Definition gui_black_turn (knowledge : Knowledge) (game_board : Board)
    (history : option Node) : exc (Board * option Node) :=
  possible_moves <- actions game_board BLACK ;;
  match scan_moves knowledge game_board possible_moves with
  | Some a =>
      let history := Some (mkNode game_board history a) in
      game_board <- result game_board (fst a) (snd a) ;;
      pawns <- locate_pawns game_board table3 ;;
      ret (game_board, history)
  | None => ret (game_board, history)
  end.

(** A board smaller than the table of tiles. *)
Definition board_2x2 : Board := [[BLACK; BLACK]; [WHITE; WHITE]].

(* ================================================================== *)
(** ** Equality tests *)

Lemma piece_eqb_eq (a b : piece) : piece_eqb a b = true <-> a = b.
Proof. destruct a, b; simpl; split; intro H; try reflexivity; discriminate. Qed.

Lemma piece_eqb_refl (a : piece) : piece_eqb a a = true.
Proof. now destruct a. Qed.

Lemma pos_eqb_eq (p q : pos) : pos_eqb p q = true <-> p = q.
Proof.
  destruct p as [a b], q as [c d]; unfold pos_eqb; simpl.
  rewrite andb_true_iff, !Z.eqb_eq. split.
  - intros [-> ->]; reflexivity.
  - intros [= -> ->]; auto.
Qed.

Lemma pos_eqb_refl (p : pos) : pos_eqb p p = true.
Proof. now apply pos_eqb_eq. Qed.

Lemma pos_eqb_neq (p q : pos) : p <> q -> pos_eqb p q = false.
Proof.
  intro H. destruct (pos_eqb p q) eqn:E; [|reflexivity].
  apply pos_eqb_eq in E. contradiction.
Qed.

Lemma list_eqb_eq {A} (eqb : A -> A -> bool)
    (Heqb : forall x y, eqb x y = true <-> x = y) (l1 l2 : list A) :
  list_eqb eqb l1 l2 = true <-> l1 = l2.
Proof.
  revert l2. induction l1 as [|x t1 IH]; intros [|y t2]; simpl;
    try (split; [discriminate | congruence]); try tauto.
  rewrite andb_true_iff, Heqb, IH. split.
  - intros [-> ->]; reflexivity.
  - intros [= -> ->]; auto.
Qed.

Lemma board_eqb_eq (b1 b2 : Board) : board_eqb b1 b2 = true <-> b1 = b2.
Proof.
  unfold board_eqb. apply list_eqb_eq. intros x y.
  apply list_eqb_eq. apply piece_eqb_eq.
Qed.

Lemma board_eqb_refl (b : Board) : board_eqb b b = true.
Proof. now apply board_eqb_eq. Qed.

Lemma action_eqb_eq (a b : Action) : action_eqb a b = true <-> a = b.
Proof.
  destruct a as [a1 a2], b as [b1 b2]; unfold action_eqb; simpl.
  rewrite andb_true_iff, !pos_eqb_eq. split.
  - intros [-> ->]; reflexivity.
  - intros [= -> ->]; auto.
Qed.

Lemma mistake_eqb_eq (x y : Mistake) : mistake_eqb x y = true <-> x = y.
Proof.
  destruct x as [c1 a1], y as [c2 a2]; unfold mistake_eqb; simpl.
  rewrite andb_true_iff, board_eqb_eq, action_eqb_eq. split.
  - intros [-> ->]; reflexivity.
  - intros [= -> ->]; auto.
Qed.

Lemma is_mistake_In (k : Knowledge) (b : Board) (a : Action) :
  is_mistake k b a = true <-> In (mkMistake b a) k.
Proof.
  unfold is_mistake. rewrite existsb_exists. split.
  - intros [x [Hin Heq]]. apply mistake_eqb_eq in Heq. now subst.
  - intro Hin. exists (mkMistake b a). split; [assumption|]. now apply mistake_eqb_eq.
Qed.

(* ================================================================== *)
(** ** Subscripts *)

Lemma in_range_iff (lo x hi : Z) : in_range lo x hi = true <-> lo <= x < hi.
Proof. unfold in_range. rewrite andb_true_iff, Z.leb_le, Z.ltb_lt. tauto. Qed.

Lemma in_range_false (lo x hi : Z) : in_range lo x hi = false <-> ~ (lo <= x < hi).
Proof. rewrite <- in_range_iff. destruct (in_range lo x hi); split; congruence. Qed.

Lemma getitem_nonneg {A} (l : list A) (i : Z) :
  0 <= i ->
  getitem l i = match nth_error l (Z.to_nat i) with
                | Some x => inr x
                | None => inl IndexError
                end.
Proof.
  intro Hi. unfold getitem, len.
  destruct (Z.ltb_spec i 0); [lia|].
  destruct (Z.ltb_spec i 0); [lia|]. simpl.
  destruct (Z.leb_spec (Z.of_nat (length l)) i) as [Hle|Hlt]; simpl; [|reflexivity].
  assert (Hn : nth_error l (Z.to_nat i) = None) by (apply nth_error_None; lia).
  now rewrite Hn.
Qed.

Lemma getitem_neg {A} (l : list A) (i : Z) :
  i < 0 ->
  getitem l i = if i + len l <? 0 then inl IndexError
                else match nth_error l (Z.to_nat (i + len l)) with
                     | Some x => inr x
                     | None => inl IndexError
                     end.
Proof.
  intro Hi. unfold getitem.
  destruct (Z.ltb_spec i 0); [|lia].
  destruct (Z.ltb_spec (i + len l) 0); simpl; [reflexivity|].
  destruct (Z.leb_spec (len l) (i + len l)); [lia|reflexivity].
Qed.

Lemma setitem_nonneg {A} (l : list A) (i : Z) (v : A) :
  0 <= i ->
  setitem l i v = if i <? len l then inr (replace_nth l (Z.to_nat i) v)
                  else inl IndexError.
Proof.
  intro Hi. unfold setitem.
  destruct (Z.ltb_spec i 0); [lia|].
  destruct (Z.ltb_spec i 0); [lia|]. simpl.
  destruct (Z.leb_spec (len l) i); destruct (Z.ltb_spec i (len l)); try lia; reflexivity.
Qed.

Lemma replace_nth_length {A} (l : list A) (k : nat) (v : A) :
  length (replace_nth l k v) = length l.
Proof.
  revert k. induction l as [|x l IH]; intros [|k]; simpl; auto.
Qed.

Lemma nth_error_replace_nth {A} (l : list A) (k t : nat) (v : A) :
  nth_error (replace_nth l k v) t =
  if (t =? k)%nat then (if (k <? length l)%nat then Some v else None)
  else nth_error l t.
Proof.
  revert k t. induction l as [|x l IH]; intros k t.
  - simpl. destruct (t =? k)%nat; destruct t, k; reflexivity.
  - destruct k as [|k], t as [|t]; simpl; try reflexivity.
    rewrite IH. reflexivity.
Qed.

Lemma cell_getitem2 (board : Board) (r c : Z) :
  0 <= r -> 0 <= c ->
  getitem2 board (r, c) = match cell board (r, c) with
                          | Some x => inr x
                          | None => inl IndexError
                          end.
Proof.
  intros Hr Hc. unfold getitem2, cell; simpl.
  destruct (Z.leb_spec 0 r); [|lia]. destruct (Z.leb_spec 0 c); [|lia]. simpl.
  rewrite getitem_nonneg by assumption.
  destruct (nth_error board (Z.to_nat r)) as [row|]; simpl; [|reflexivity].
  now rewrite getitem_nonneg by assumption.
Qed.

(* ================================================================== *)
(** ** Grids *)

Lemma is_grid_rows (board : Board) : is_grid board = true -> 0 < rows board.
Proof.
  destruct board as [|row0 rest]; simpl; [discriminate|].
  intros _. unfold rows, len. simpl. lia.
Qed.

Lemma is_grid_row_length (board : Board) (r : nat) (row : list piece) :
  is_grid board = true -> nth_error board r = Some row -> len row = cols board.
Proof.
  destruct board as [|row0 rest]; [discriminate|].
  unfold is_grid. rewrite forallb_forall. intros Hall Hnth.
  apply nth_error_In in Hnth. apply Hall in Hnth.
  apply Nat.eqb_eq in Hnth. unfold cols, len. simpl. lia.
Qed.

Lemma cell_Some_bounds (board : Board) (p : pos) (x : piece) :
  is_grid board = true -> cell board p = Some x ->
  0 <= fst p < rows board /\ 0 <= snd p < cols board.
Proof.
  intros Hg. unfold cell.
  destruct (Z.leb_spec 0 (fst p)); simpl; [|discriminate].
  destruct (Z.leb_spec 0 (snd p)); simpl; [|discriminate].
  destruct (nth_error board (Z.to_nat (fst p))) as [row|] eqn:Hrow; [|discriminate].
  intro Hc.
  assert (Hr : (Z.to_nat (fst p) < length board)%nat)
    by (apply nth_error_Some; congruence).
  assert (Hcc : (Z.to_nat (snd p) < length row)%nat)
    by (apply nth_error_Some; congruence).
  pose proof (is_grid_row_length _ _ Hg Hrow) as Hlen.
  unfold rows, len in *. lia.
Qed.

Lemma cell_in_bounds (board : Board) (r c : Z) :
  is_grid board = true -> 0 <= r < rows board -> 0 <= c < cols board ->
  exists x, cell board (r, c) = Some x.
Proof.
  intros Hg Hr Hc. unfold cell; simpl.
  destruct (Z.leb_spec 0 r); [|lia]. destruct (Z.leb_spec 0 c); [|lia]. simpl.
  destruct (nth_error board (Z.to_nat r)) as [row|] eqn:Hrow.
  - pose proof (is_grid_row_length _ _ Hg Hrow) as Hlen.
    destruct (nth_error row (Z.to_nat c)) as [x|] eqn:Hx; [now exists x|].
    apply nth_error_None in Hx. unfold len in Hlen. lia.
  - apply nth_error_None in Hrow. unfold rows, len in Hr. lia.
Qed.

Lemma holds_bounds (board : Board) (p : pos) (pc : piece) :
  is_grid board = true -> holds board p pc = true ->
  0 <= fst p < rows board /\ 0 <= snd p < cols board.
Proof.
  intros Hg. unfold holds.
  destruct (cell board p) as [x|] eqn:Hc; [|discriminate].
  intros _. eapply cell_Some_bounds; eassumption.
Qed.

Lemma holds_iff (board : Board) (p : pos) (pc : piece) :
  holds board p pc = true <-> cell board p = Some pc.
Proof.
  unfold holds. destruct (cell board p) as [x|].
  - rewrite piece_eqb_eq. split; congruence.
  - split; discriminate.
Qed.

(* ================================================================== *)
(** ** actions computes the legal moves of the specification *)

Lemma map_of_nat_seq (s k : nat) : map Z.of_nat (seq s k) = zseq (Z.of_nat s) k.
Proof.
  revert s. induction k as [|k IH]; intro s; simpl; [reflexivity|].
  rewrite IH. do 2 f_equal. lia.
Qed.

Lemma range_zseq (n : Z) : range n = zseq 0 (Z.to_nat n).
Proof. unfold range. now rewrite map_of_nat_seq. Qed.

Lemma in_zseq (start : Z) (k : nat) (x : Z) :
  In x (zseq start k) <-> start <= x < start + Z.of_nat k.
Proof.
  revert start. induction k as [|k IH]; intro start; simpl.
  - lia.
  - rewrite IH. lia.
Qed.

Lemma flat_map_flat_map {A B C} (f : B -> list C) (g : A -> list B) (l : list A) :
  flat_map f (flat_map g l) = flat_map (fun x => flat_map f (g x)) l.
Proof.
  induction l as [|x l IH]; simpl; [reflexivity|].
  now rewrite flat_map_app, IH.
Qed.

Lemma flat_map_map {A B C} (f : B -> list C) (g : A -> B) (l : list A) :
  flat_map f (map g l) = flat_map (fun x => f (g x)) l.
Proof. induction l as [|x l IH]; simpl; [reflexivity|]. now rewrite IH. Qed.

Lemma spec_legal_moves_unfold (board : Board) (side : piece) :
  spec_legal_moves board side =
  flat_map (fun i => flat_map (fun j => spec_entry board side (i, j))
                              (zseq 0 (Z.to_nat (cols board))))
           (zseq 0 (Z.to_nat (rows board))).
Proof.
  unfold spec_legal_moves, positions. rewrite flat_map_flat_map, !range_zseq.
  apply flat_map_ext. intro i. now rewrite flat_map_map.
Qed.

Lemma spec_entry_key (board : Board) (side : piece) (src : pos) (e : pos * list pos) :
  In e (spec_entry board side src) ->
  fst e = src /\ snd e = spec_dests board side src /\ snd e <> [] /\
  holds board src side = true.
Proof.
  unfold spec_entry. destruct (holds board src side); [|intros []].
  destruct (spec_dests board side src) as [|q ds] eqn:E; [intros []|].
  intros [<-|[]]. simpl. repeat split; congruence.
Qed.

Lemma dd_append_fresh (d : moves_dict) (k v : pos) :
  Forall (fun e => fst e <> k) d -> dd_append d k v = d ++ [(k, [v])].
Proof.
  induction d as [|[k' vs] d IH]; intro H; simpl; [reflexivity|].
  inversion H as [|? ? Hk Hd]; subst. simpl in Hk.
  rewrite (pos_eqb_neq Hk). now rewrite IH.
Qed.

Lemma dd_append_last (d : moves_dict) (k : pos) (vs : list pos) (v : pos) :
  Forall (fun e => fst e <> k) d ->
  dd_append (d ++ [(k, vs)]) k v = d ++ [(k, vs ++ [v])].
Proof.
  induction d as [|[k' vs'] d IH]; intro H; simpl.
  - now rewrite pos_eqb_refl.
  - inversion H as [|? ? Hk Hd]; subst. simpl in Hk.
    rewrite (pos_eqb_neq Hk). now rewrite IH.
Qed.

(** The guarded lookups of [actions] decide [holds]. *)
Lemma guarded_lookup {T} (board : Board) (g : bool) (r c : Z) (want : piece) (A B : T) :
  is_grid board = true ->
  (g = true -> 0 <= r < rows board /\ 0 <= c < cols board) ->
  (g = false -> ~ (0 <= r < rows board /\ 0 <= c < cols board)) ->
  (if g then x <- getitem2 board (r, c) ;; ret (if piece_eqb x want then A else B)
   else ret B)
  = ret (if holds board (r, c) want then A else B).
Proof.
  intros Hg Ht Hf. destruct g.
  - destruct (Ht eq_refl) as [Hr Hc].
    destruct (cell_in_bounds board Hg Hr Hc) as [x Hx].
    rewrite cell_getitem2 by lia. unfold holds. rewrite Hx. reflexivity.
  - destruct (holds board (r, c) want) eqn:Hh; [|reflexivity].
    apply holds_bounds in Hh; [|assumption]. simpl in Hh. now elim (Hf eq_refl).
Qed.

Lemma visit_grid (board : Board) (turn : piece) (i j : Z) (pc : piece) (pm : moves_dict) :
  is_grid board = true ->
  0 <= j < cols board ->
  Forall (fun e => fst e <> (i, j)) pm ->
  visit board (rows board) (cols board) turn (forward_dir turn) (opposing turn) i j pc pm
  = ret (pm ++ visit_entry board turn (i, j) pc).
Proof.
  intros Hg Hj Hfresh. unfold visit, visit_entry.
  destruct (piece_eqb pc turn); simpl; [|now rewrite app_nil_r].
  set (dir := forward_dir turn). set (opp := opposing turn).
  rewrite (guarded_lookup (T := moves_dict)) with (want := EMPTY); try assumption.
  2:{ rewrite in_range_iff. lia. }
  2:{ rewrite in_range_false. lia. }
  unfold bind at 1, ret at 1.
  rewrite (guarded_lookup (T := moves_dict)) with (want := opp); try assumption.
  2:{ rewrite andb_true_iff, !in_range_iff. tauto. }
  2:{ rewrite andb_false_iff, !in_range_false. tauto. }
  unfold bind at 1, ret at 1.
  rewrite (guarded_lookup (T := moves_dict)) with (want := opp); try assumption.
  2:{ rewrite andb_true_iff, !in_range_iff. tauto. }
  2:{ rewrite andb_false_iff, !in_range_false. tauto. }
  unfold spec_dests. simpl fst; simpl snd. fold dir. fold opp.
  destruct (holds board (i + dir, j) EMPTY);
    destruct (holds board (i + dir, j - 1) opp);
    destruct (holds board (i + dir, j + 1) opp); simpl;
    rewrite ?(dd_append_fresh (d := pm)) by assumption;
    rewrite ?(dd_append_last (d := pm)) by assumption;
    rewrite ?(dd_append_last (d := pm)) by assumption;
    rewrite ?app_nil_r; reflexivity.
Qed.

Section ActionsLoops.

Variable board : Board.
Variable turn : piece.
Hypothesis Hgrid : is_grid board = true.

Let body (i : Z) (j_piece : Z * piece) (pm : moves_dict) : exc moves_dict :=
  visit board (rows board) (cols board) turn (forward_dir turn) (opposing turn)
        i (fst j_piece) (snd j_piece) pm.

Let row_entries (i : Z) (js : list Z) : moves_dict :=
  flat_map (fun j => spec_entry board turn (i, j)) js.

Lemma row_loop (i : Z) (l : list piece) :
  forall (j0 : Z) (pm : moves_dict),
    0 <= j0 -> j0 + len l <= cols board ->
    (forall t pc, nth_error l t = Some pc ->
                  cell board (i, j0 + Z.of_nat t) = Some pc) ->
    Forall (fun e => fst (fst e) < i \/ (fst (fst e) = i /\ snd (fst e) < j0)) pm ->
    for_each (body i) (enumerate_from j0 l) pm
    = ret (pm ++ row_entries i (zseq j0 (length l))).
Proof.
  induction l as [|pc l IH]; intros j0 pm Hj0 Hlen Hcell Hkeys; simpl.
  - now rewrite app_nil_r.
  - unfold len in Hlen. simpl length in Hlen.
    unfold body at 1. simpl fst; simpl snd.
    rewrite visit_grid; try assumption; try lia.
    2:{ eapply Forall_impl; [|exact Hkeys]. intros [[a b] ds]; simpl.
        intros H [= -> ->]. lia. }
    unfold bind at 1, ret at 1.
    assert (Hentry : visit_entry board turn (i, j0) pc = spec_entry board turn (i, j0)).
    { unfold visit_entry, spec_entry, holds.
      pose proof (Hcell O pc eq_refl) as H0. simpl in H0.
      rewrite Z.add_0_r in H0. now rewrite H0. }
    rewrite Hentry. rewrite IH.
    + now rewrite <- app_assoc.
    + lia.
    + unfold len. lia.
    + intros t pc' Ht. specialize (Hcell (S t) pc' Ht).
      replace (j0 + 1 + Z.of_nat t) with (j0 + Z.of_nat (S t)) by lia. exact Hcell.
    + apply Forall_app. split.
      * eapply Forall_impl; [|exact Hkeys]. intros e; simpl. lia.
      * apply Forall_forall. intros e He.
        apply spec_entry_key in He. destruct He as [He _].
        destruct e as [[a b] ds]. simpl in *. inversion He. lia.
Qed.

Lemma row_entries_keys (i : Z) (js : list Z) :
  Forall (fun e => fst (fst e) = i) (row_entries i js).
Proof.
  apply Forall_forall. intros e He. unfold row_entries in He.
  apply in_flat_map in He. destruct He as [j [_ He]].
  apply spec_entry_key in He. destruct He as [He _].
  destruct e as [[a b] ds]. simpl in *. now inversion He.
Qed.

Lemma board_loop (bs : list (list piece)) :
  forall (i0 : Z) (pm : moves_dict),
    0 <= i0 ->
    (forall t row, nth_error bs t = Some row ->
                   nth_error board (Z.to_nat i0 + t) = Some row) ->
    Forall (fun e => fst (fst e) < i0) pm ->
    for_each (fun i_row pm => for_each (body (fst i_row)) (enumerate (snd i_row)) pm)
             (enumerate_from i0 bs) pm
    = ret (pm ++ flat_map (fun i => row_entries i (zseq 0 (Z.to_nat (cols board))))
                          (zseq i0 (length bs))).
Proof.
  induction bs as [|row bs IH]; intros i0 pm Hi0 Hrows Hkeys; simpl.
  - now rewrite app_nil_r.
  - pose proof (Hrows O row eq_refl) as Hrow. rewrite Nat.add_0_r in Hrow.
    pose proof (is_grid_row_length _ _ Hgrid Hrow) as Hlen.
    unfold enumerate. rewrite row_loop; try lia.
    + unfold bind at 1, ret at 1.
      replace (length row) with (Z.to_nat (cols board)) by (unfold len in Hlen; lia).
      rewrite IH.
      * now rewrite <- app_assoc.
      * lia.
      * intros t r Ht. specialize (Hrows (S t) r Ht).
        replace (Z.to_nat (i0 + 1) + t)%nat with (Z.to_nat i0 + S t)%nat by lia.
        exact Hrows.
      * apply Forall_app. split.
        -- eapply Forall_impl; [|exact Hkeys]. intros e; simpl. lia.
        -- eapply Forall_impl; [|apply row_entries_keys]. intros e; simpl. lia.
    + intros t pc Ht. unfold cell. simpl fst; simpl snd. rewrite ?Z.add_0_l.
      assert (Hi : (0 <=? i0) = true) by (apply Z.leb_le; lia).
      assert (Hc : (0 <=? Z.of_nat t) = true) by (apply Z.leb_le; lia).
      rewrite Hi, Hc. simpl. now rewrite Hrow, Nat2Z.id.
    + eapply Forall_impl; [|exact Hkeys]. intros e; simpl. lia.
Qed.

End ActionsLoops.

(** On a grid, for a valid turn, [actions] returns the table of the
    specification, entries and destinations in the same order. *)
Lemma actions_grid (board : Board) (turn : piece) :
  is_grid board = true -> turn <> EMPTY ->
  actions board turn = ret (spec_legal_moves board turn).
Proof.
  intros Hg Hturn. unfold actions.
  destruct board as [|row0 rest] eqn:Hb; [discriminate|]. rewrite <- Hb in *.
  assert (H0 : getitem board 0 = inr row0).
  { rewrite getitem_nonneg by lia. now rewrite Hb. }
  rewrite H0. unfold bind at 1.
  assert (Hcols : len row0 = cols board) by (now rewrite Hb).
  assert (Hdir : match turn with
                 | WHITE => ret (-1, BLACK)
                 | BLACK => ret (1, WHITE)
                 | EMPTY => raise (AssertionError (Some "Invalid player turn."%string))
                 end = ret (forward_dir turn, opposing turn)).
  { destruct turn; try reflexivity. congruence. }
  rewrite Hdir. unfold bind at 1, ret at 1. simpl fst; simpl snd.
  rewrite Hcols. fold (rows board). unfold enumerate at 2.
  rewrite (@board_loop board turn Hg board 0 []); try lia.
  - simpl app. rewrite spec_legal_moves_unfold. unfold rows, len.
    now rewrite Nat2Z.id.
  - intros t row Ht. exact Ht.
  - constructor.
Qed.

(* ------------------------------------------------------------------ *)
(** *** Reading the table of legal moves *)

Lemma in_spec_dests (board : Board) (side : piece) (src q : pos) :
  In q (spec_dests board side src) <-> legal_dest board side src q.
Proof.
  unfold spec_dests, legal_dest. cbv zeta.
  set (s := (fst src + forward_dir side, snd src)).
  set (l := (fst src + forward_dir side, snd src - 1)).
  set (r := (fst src + forward_dir side, snd src + 1)).
  rewrite !in_app_iff.
  assert (Hone : forall (p : pos) (pc : piece),
             In q (if holds board p pc then [p] else []) <->
             q = p /\ cell board q = Some pc).
  { intros p pc. destruct (holds board p pc) eqn:Hh; simpl.
    - apply holds_iff in Hh. split.
      + intros [<-|[]]. auto.
      + intros [-> _]. auto.
    - split; [intros []|]. intros [-> Hc]. apply holds_iff in Hc. congruence. }
  rewrite !Hone. tauto.
Qed.

Lemma in_positions (board : Board) (p : pos) :
  In p (positions board) <-> 0 <= fst p < rows board /\ 0 <= snd p < cols board.
Proof.
  unfold positions. rewrite in_flat_map. split.
  - intros [i [Hi Hp]]. apply in_map_iff in Hp. destruct Hp as [j [<- Hj]].
    rewrite range_zseq, in_zseq in Hi, Hj. simpl.
    unfold rows, cols, len in *. lia.
  - intros [Hr Hc]. exists (fst p). split.
    + rewrite range_zseq, in_zseq. unfold rows, len in *. lia.
    + apply in_map_iff. exists (snd p). split; [now destruct p|].
      rewrite range_zseq, in_zseq. unfold cols, len in *. lia.
Qed.

Lemma dict_get_entries (board : Board) (side : piece) (ps : list pos)
    (src : pos) (ds : list pos) :
  dict_get (flat_map (spec_entry board side) ps) src = Some ds <->
  In src ps /\ spec_entry board side src = [(src, ds)].
Proof.
  induction ps as [|p ps IH]; simpl.
  - split; [discriminate|tauto].
  - destruct (spec_entry board side p) as [|e rest] eqn:Hp.
    + simpl. rewrite IH. split.
      * tauto.
      * intros [[->|Hin] He]; [congruence|tauto].
    + assert (He : e = (p, spec_dests board side p) /\ rest = []).
      { unfold spec_entry in Hp. destruct (holds board p side); [|discriminate].
        destruct (spec_dests board side p); [discriminate|].
        inversion Hp. auto. }
      destruct He as [-> ->]. simpl.
      destruct (pos_eqb p src) eqn:Hk.
      * apply pos_eqb_eq in Hk. subst p. rewrite Hp. split.
        -- intros [= <-]. auto.
        -- intros [_ [= <-]]. reflexivity.
      * rewrite IH. split; [tauto|].
        intros [[->|Hin] He]; [|tauto].
        rewrite pos_eqb_refl in Hk. discriminate.
Qed.

Lemma dict_get_spec_legal_moves (board : Board) (side : piece)
    (src : pos) (ds : list pos) :
  is_grid board = true ->
  (dict_get (spec_legal_moves board side) src = Some ds <->
   cell board src = Some side /\ ds = spec_dests board side src /\ ds <> []).
Proof.
  intro Hg. unfold spec_legal_moves. rewrite dict_get_entries, in_positions.
  unfold spec_entry. split.
  - intros [_ He]. destruct (holds board src side) eqn:Hh; [|discriminate].
    apply holds_iff in Hh.
    destruct (spec_dests board side src) as [|q qs]; [discriminate|].
    inversion He. repeat split; congruence.
  - intros [Hc [-> Hne]].
    split; [eapply cell_Some_bounds; eassumption|].
    apply holds_iff in Hc. rewrite Hc.
    destruct (spec_dests board side src); congruence.
Qed.

(** The moves of the table are the legal (source, destination) pairs. *)
Lemma in_flatten_spec_legal_moves (board : Board) (side : piece) (a : Action) :
  is_grid board = true ->
  (In a (flatten_moves (spec_legal_moves board side)) <->
   cell board (fst a) = Some side /\ legal_dest board side (fst a) (snd a)).
Proof.
  intro Hg. unfold flatten_moves, spec_legal_moves.
  rewrite in_flat_map. split.
  - intros [e [He Ha]]. apply in_flat_map in He. destruct He as [p [_ He]].
    apply spec_entry_key in He. destruct He as [Hk [Hds [_ Hh]]].
    apply in_map_iff in Ha. destruct Ha as [q [<- Hq]]. simpl.
    rewrite Hk. rewrite Hds in Hq. split.
    + now apply holds_iff.
    + now apply in_spec_dests.
  - intros [Hc Hl]. apply in_spec_dests in Hl.
    exists (fst a, spec_dests board side (fst a)). split.
    + apply in_flat_map. exists (fst a). split.
      * apply in_positions. eapply cell_Some_bounds; eassumption.
      * unfold spec_entry. apply holds_iff in Hc. rewrite Hc.
        destruct (spec_dests board side (fst a)); [destruct Hl|]. now left.
    + simpl. apply in_map_iff. exists (snd a). split; [now destruct a|assumption].
Qed.

(* ================================================================== *)
(** ** Subscripts that count from the end, and writes into a grid *)

Lemma wrap_bounds (i n : Z) : - n <= i < n -> 0 <= wrap i n < n.
Proof. unfold wrap. destruct (Z.ltb_spec i 0); lia. Qed.

Lemma getitem_ok {A} (l : list A) (i : Z) :
  - len l <= i < len l ->
  exists x, getitem l i = inr x /\ nth_error l (Z.to_nat (wrap i (len l))) = Some x.
Proof.
  intro Hi. pose proof (wrap_bounds Hi) as Hw. unfold getitem. fold (wrap i (len l)).
  destruct (Z.ltb_spec (wrap i (len l)) 0); [lia|].
  destruct (Z.leb_spec (len l) (wrap i (len l))); [lia|]. simpl.
  destruct (nth_error l (Z.to_nat (wrap i (len l)))) as [x|] eqn:Hx.
  - now exists x.
  - apply nth_error_None in Hx. unfold len in *. lia.
Qed.

Lemma getitem_fail {A} (l : list A) (i : Z) :
  ~ (- len l <= i < len l) -> getitem l i = inl IndexError.
Proof.
  intro Hi. unfold getitem.
  destruct (Z.ltb_spec i 0).
  - destruct (Z.ltb_spec (i + len l) 0); [reflexivity|].
    destruct (Z.leb_spec (len l) (i + len l)); [reflexivity|lia].
  - destruct (Z.ltb_spec i 0); [lia|].
    destruct (Z.leb_spec (len l) i); [reflexivity|lia].
Qed.

Lemma setitem_ok {A} (l : list A) (i : Z) (v : A) :
  - len l <= i < len l ->
  setitem l i v = inr (replace_nth l (Z.to_nat (wrap i (len l))) v).
Proof.
  intro Hi. pose proof (wrap_bounds Hi) as Hw. unfold setitem. fold (wrap i (len l)).
  destruct (Z.ltb_spec (wrap i (len l)) 0); [lia|].
  destruct (Z.leb_spec (len l) (wrap i (len l))); [lia|]. reflexivity.
Qed.

Lemma len_replace_nth {A} (l : list A) (k : nat) (v : A) :
  len (replace_nth l k v) = len l.
Proof. unfold len. now rewrite replace_nth_length. Qed.

Lemma getitem2_ok (board : Board) (r c : Z) :
  is_grid board = true ->
  - rows board <= r < rows board -> - cols board <= c < cols board ->
  exists x, getitem2 board (r, c) = inr x /\
            cell board (wrap r (rows board), wrap c (cols board)) = Some x.
Proof.
  intros Hg Hr Hc. unfold getitem2. simpl fst; simpl snd.
  destruct (getitem_ok board Hr) as [row [Hrow Hnth]]. rewrite Hrow. simpl.
  pose proof (is_grid_row_length _ _ Hg Hnth) as Hlen.
  rewrite <- Hlen in Hc. destruct (getitem_ok row Hc) as [x [Hx Hnx]].
  exists x. split; [assumption|].
  pose proof (wrap_bounds Hr). pose proof (wrap_bounds Hc).
  unfold cell. simpl fst; simpl snd. fold (rows board) in Hnth.
  destruct (Z.leb_spec 0 (wrap r (rows board))); [|lia].
  rewrite <- Hlen.
  destruct (Z.leb_spec 0 (wrap c (len row))); [|lia]. simpl.
  now rewrite Hnth.
Qed.

Lemma getitem2_fail (board : Board) (r c : Z) :
  is_grid board = true ->
  ~ (- rows board <= r < rows board /\ - cols board <= c < cols board) ->
  getitem2 board (r, c) = inl IndexError.
Proof.
  intros Hg Hout. unfold getitem2. simpl fst; simpl snd.
  destruct (Z_lt_dec r (- rows board)) as [Hlo|Hlo];
    [rewrite getitem_fail by (unfold rows in *; lia); reflexivity|].
  destruct (Z_lt_dec r (rows board)) as [Hhi|Hhi];
    [|rewrite getitem_fail by (unfold rows in *; lia); reflexivity].
  assert (Hr : - len board <= r < len board) by (unfold rows in *; lia).
  destruct (getitem_ok board Hr) as [row [Hrow Hnth]]. rewrite Hrow. simpl.
  pose proof (is_grid_row_length _ _ Hg Hnth) as Hlen.
  apply getitem_fail. rewrite Hlen. unfold rows in *. lia.
Qed.

Lemma setitem2_ok (board : Board) (r c : Z) (v : piece) :
  is_grid board = true ->
  - rows board <= r < rows board -> - cols board <= c < cols board ->
  setitem2 board (r, c) v = inr (put board (wrap r (rows board), wrap c (cols board)) v).
Proof.
  intros Hg Hr Hc. unfold setitem2, put. simpl fst; simpl snd.
  destruct (getitem_ok board Hr) as [row [Hrow Hnth]]. rewrite Hrow. simpl.
  pose proof (is_grid_row_length _ _ Hg Hnth) as Hlen.
  rewrite <- Hlen in Hc. rewrite (setitem_ok row v Hc). simpl.
  rewrite (setitem_ok board _ Hr). fold (rows board) in Hnth |- *.
  now rewrite Hnth, Hlen.
Qed.

Lemma is_grid_forall (board : Board) :
  is_grid board = true <->
  board <> [] /\ forall row, In row board -> len row = cols board.
Proof.
  destruct board as [|row0 rest].
  - simpl. split; [discriminate|]. intros [H _]. congruence.
  - unfold is_grid. rewrite forallb_forall. unfold cols, len. simpl hd. split.
    + intro H. split; [discriminate|]. intros row Hin.
      apply H in Hin. apply Nat.eqb_eq in Hin. lia.
    + intros [_ H] row Hin. apply Nat.eqb_eq. apply H in Hin. lia.
Qed.

Lemma in_replace_nth {A} (l : list A) (k : nat) (v x : A) :
  In x (replace_nth l k v) -> x = v \/ In x l.
Proof.
  revert k. induction l as [|y l IH]; intros [|k]; simpl; try tauto.
  - intros [<-|H]; auto.
  - intros [<-|H]; auto. apply IH in H. tauto.
Qed.

Lemma put_shape (board : Board) (p : pos) (v : piece) :
  is_grid board = true ->
  is_grid (put board p v) = true /\
  rows (put board p v) = rows board /\ cols (put board p v) = cols board.
Proof.
  intro Hg. unfold put.
  destruct (nth_error board (Z.to_nat (fst p))) as [row|] eqn:Hrow; [|auto].
  pose proof (is_grid_row_length _ _ Hg Hrow) as Hlen.
  set (row' := replace_nth row (Z.to_nat (snd p)) v).
  assert (Hlen' : len row' = cols board)
    by (unfold row'; now rewrite len_replace_nth).
  assert (Hcols : cols (replace_nth board (Z.to_nat (fst p)) row') = cols board).
  { destruct board as [|r0 rest]; [discriminate|].
    destruct (Z.to_nat (fst p)); simpl in *; [|reflexivity].
    inversion Hrow; subst. exact Hlen'. }
  split; [|split; [apply len_replace_nth|exact Hcols]].
  apply is_grid_forall. split.
  - destruct board; [discriminate|]. destruct (Z.to_nat (fst p)); discriminate.
  - intros x Hin. rewrite Hcols. apply in_replace_nth in Hin.
    destruct Hin as [->|Hin]; [assumption|].
    apply is_grid_forall in Hg. now apply Hg.
Qed.

Lemma cell_put (board : Board) (p q : pos) (v : piece) :
  is_grid board = true ->
  0 <= fst p < rows board -> 0 <= snd p < cols board ->
  cell (put board p v) q = if pos_eqb p q then Some v else cell board q.
Proof.
  intros Hg Hr Hc. destruct p as [r c], q as [r' c']. simpl in Hr, Hc.
  unfold put, cell, pos_eqb. simpl fst; simpl snd.
  destruct (nth_error board (Z.to_nat r)) as [row|] eqn:Hrow.
  2:{ apply nth_error_None in Hrow. unfold rows, len in Hr. lia. }
  pose proof (is_grid_row_length _ _ Hg Hrow) as Hlen.
  destruct (Z.leb_spec 0 r'); simpl.
  2:{ destruct (Z.eqb_spec r r'); [lia|reflexivity]. }
  destruct (Z.leb_spec 0 c'); simpl.
  2:{ destruct (Z.eqb_spec c c'); [lia|]. now rewrite andb_false_r. }
  rewrite nth_error_replace_nth.
  destruct (Nat.eqb_spec (Z.to_nat r') (Z.to_nat r)) as [Heq|Hne].
  - assert (r = r') by lia. subst r'. rewrite Z.eqb_refl. simpl.
    assert (Hlt : (Z.to_nat r <? length board)%nat = true)
      by (apply Nat.ltb_lt; unfold rows, len in Hr; lia).
    rewrite Hlt, Hrow, nth_error_replace_nth.
    destruct (Nat.eqb_spec (Z.to_nat c') (Z.to_nat c)) as [Hceq|Hcne].
    + assert (c = c') by lia. subst c'. rewrite Z.eqb_refl.
      assert (Hclt : (Z.to_nat c <? length row)%nat = true)
        by (apply Nat.ltb_lt; unfold len in Hlen; lia).
      now rewrite Hclt.
    + destruct (Z.eqb_spec c c'); [subst; congruence|reflexivity].
  - destruct (Z.eqb_spec r r'); [subst; congruence|reflexivity].
Qed.

(* ------------------------------------------------------------------ *)
(** *** Counting pieces *)

Lemma sum_Z_shift (l : list Z) (a : Z) : fold_left Z.add l a = a + sum_Z l.
Proof.
  unfold sum_Z. revert a. induction l as [|x l IH]; intro a; simpl; [lia|].
  rewrite IH, (IH x). lia.
Qed.

Lemma sum_Z_cons (x : Z) (l : list Z) : sum_Z (x :: l) = x + sum_Z l.
Proof. unfold sum_Z at 1. simpl. now rewrite sum_Z_shift. Qed.

Lemma sum_Z_app (l1 l2 : list Z) : sum_Z (l1 ++ l2) = sum_Z l1 + sum_Z l2.
Proof.
  induction l1 as [|x l1 IH]; simpl; [reflexivity|].
  rewrite !sum_Z_cons, IH. lia.
Qed.

Lemma sum_Z_ones {A} (l : list A) : sum_Z (map (fun _ => 1) l) = len l.
Proof.
  unfold len. induction l as [|x l IH]; [reflexivity|].
  simpl map. rewrite sum_Z_cons, IH. simpl length. lia.
Qed.

Lemma row_count_cons (pc : piece) (row : list piece) :
  row_count (pc :: row) = occ pc + row_count row.
Proof.
  unfold row_count, occ, len. simpl filter.
  destruct (piece_eqb pc EMPTY); simpl negb; cbv iota; simpl length; lia.
Qed.

Lemma row_count_replace (row : list piece) (c : nat) (old v : piece) :
  nth_error row c = Some old ->
  row_count (replace_nth row c v) = row_count row - occ old + occ v.
Proof.
  revert c. induction row as [|x row IH]; intros [|c]; simpl; try discriminate.
  - intros [= ->]. rewrite !row_count_cons. lia.
  - intro H. rewrite !row_count_cons, (IH _ H). lia.
Qed.

Lemma piece_count_cons (row : list piece) (board : Board) :
  piece_count (row :: board) = row_count row + piece_count board.
Proof. unfold piece_count. simpl map. now rewrite sum_Z_cons. Qed.

Lemma piece_count_replace (board : Board) (r : nat) (row row' : list piece) :
  nth_error board r = Some row ->
  piece_count (replace_nth board r row') =
  piece_count board - row_count row + row_count row'.
Proof.
  revert r. induction board as [|x board IH]; intros [|r]; simpl; try discriminate.
  - intros [= ->]. rewrite !piece_count_cons. lia.
  - intro H. rewrite !piece_count_cons, (IH _ H). lia.
Qed.

Lemma piece_count_put (board : Board) (p : pos) (old v : piece) :
  cell board p = Some old ->
  piece_count (put board p v) = piece_count board - occ old + occ v.
Proof.
  unfold cell, put.
  destruct ((0 <=? fst p) && (0 <=? snd p)); [|discriminate].
  destruct (nth_error board (Z.to_nat (fst p))) as [row|] eqn:Hrow; [|discriminate].
  intro Hc.
  rewrite piece_count_replace with (row := row) by exact Hrow.
  rewrite row_count_replace with (old := old) by exact Hc. lia.
Qed.

(* ------------------------------------------------------------------ *)
(** *** result on a grid *)

Lemma wrap_nonneg (i n : Z) : 0 <= i -> wrap i n = i.
Proof. intro H. unfold wrap. destruct (Z.ltb_spec i 0); [lia|reflexivity]. Qed.

Lemma result_prelude (board : Board) :
  is_grid board = true -> exists row0, getitem board 0 = inr row0 /\ len row0 = cols board.
Proof.
  destruct board as [|row0 rest]; [discriminate|]. intros _.
  exists row0. split; reflexivity.
Qed.

Lemma result_out_of_bounds (board : Board) (depart dest : pos) :
  is_grid board = true -> ~ in_bounds board dest ->
  result board depart dest =
  inl (AssertionError (Some "Move out of board bounds."%string)).
Proof.
  intros Hg Hout. unfold result.
  destruct (result_prelude board Hg) as [row0 [-> Hn]]. simpl. rewrite Hn.
  fold (rows board).
  destruct (in_range 0 (fst dest) (rows board) && in_range 0 (snd dest) (cols board)) eqn:Hb;
    [|reflexivity].
  apply andb_true_iff in Hb. rewrite !in_range_iff in Hb. now elim Hout.
Qed.

Lemma result_bad_departure (board : Board) (depart dest : pos) :
  is_grid board = true -> in_bounds board dest -> ~ subscriptable board depart ->
  result board depart dest = inl IndexError.
Proof.
  intros Hg [Hr Hc] Hout. unfold result.
  destruct (result_prelude board Hg) as [row0 [-> Hn]]. simpl. rewrite Hn.
  fold (rows board).
  apply in_range_iff in Hr, Hc. rewrite Hr, Hc. simpl.
  rewrite getitem2_fail; [reflexivity|assumption|exact Hout].
Qed.

Lemma result_ok (board : Board) (depart dest : pos) :
  is_grid board = true -> in_bounds board dest -> subscriptable board depart ->
  exists v, cell board (wrap_pos board depart) = Some v /\
            result board depart dest =
            inr (put (put board dest v) (wrap_pos board depart) EMPTY).
Proof.
  intros Hg [Hr Hc] [Hdr Hdc]. unfold result.
  destruct (result_prelude board Hg) as [row0 [-> Hn]]. simpl. rewrite Hn.
  fold (rows board).
  pose proof Hr as Hr'. pose proof Hc as Hc'.
  apply in_range_iff in Hr', Hc'. rewrite Hr', Hc'. simpl.
  destruct (getitem2_ok board Hg Hdr Hdc) as [v [Hv Hcell]].
  exists v. split; [exact Hcell|]. rewrite Hv. simpl.
  destruct dest as [di dj]. simpl in *.
  rewrite setitem2_ok by (try assumption; lia). simpl.
  rewrite !wrap_nonneg by lia.
  destruct (put_shape board (di, dj) v Hg) as [Hg' [Hrows Hcols]].
  rewrite setitem2_ok by (try assumption; rewrite ?Hrows, ?Hcols; assumption).
  unfold wrap_pos. simpl. now rewrite Hrows, Hcols.
Qed.

(* ================================================================== *)
(** ** The claims *)

Lemma legal_dest_straight (board : Board) (side : piece) (src : pos) :
  legal_dest board side src (fst src + forward_dir side, snd src) <->
  cell board (fst src + forward_dir side, snd src) = Some EMPTY.
Proof.
  unfold legal_dest. cbv zeta. split.
  - intros [[_ H]|[[H _]|[H _]]]; [assumption| |]; inversion H; lia.
  - intro H. left. auto.
Qed.

Lemma legal_dest_left (board : Board) (side : piece) (src : pos) :
  legal_dest board side src (fst src + forward_dir side, snd src - 1) <->
  cell board (fst src + forward_dir side, snd src - 1) = Some (opposing side).
Proof.
  unfold legal_dest. cbv zeta. split.
  - intros [[H _]|[[_ H]|[H _]]]; [|assumption|]; inversion H; lia.
  - intro H. right; left. auto.
Qed.

Lemma legal_dest_right (board : Board) (side : piece) (src : pos) :
  legal_dest board side src (fst src + forward_dir side, snd src + 1) <->
  cell board (fst src + forward_dir side, snd src + 1) = Some (opposing side).
Proof.
  unfold legal_dest. cbv zeta. split.
  - intros [[H _]|[[H _]|[_ H]]]; [| |assumption]; inversion H; lia.
  - intro H. right; right. auto.
Qed.

Lemma cell_with_bounds (board : Board) (p : pos) (x : piece) :
  is_grid board = true ->
  (cell board p = Some x <-> in_bounds board p /\ cell board p = Some x).
Proof.
  intro Hg. split; [|tauto]. intro H. split; [|assumption].
  eapply cell_Some_bounds; eassumption.
Qed.

(** C5.  On every grid and for each of the two sides, [actions] returns a
    table whose keys are exactly the positions that hold a piece of that
    side and have at least one legal destination (so no key carries an
    empty list); for a key (i, j), with d = -1 for white and +1 for black,
    the straight advance (i+d, j) is listed iff it is in bounds and empty,
    each diagonal (i+d, j-1), (i+d, j+1) is listed iff it is in bounds and
    holds an opposing piece, and nothing else is listed. *)
Theorem C5_actions_legal_moves (board : Board) (side : piece) :
  is_grid board = true -> side <> EMPTY ->
  exists d, actions board side = inr d /\
    (forall src, (exists ds, dict_get d src = Some ds) <->
                 (cell board src = Some side /\
                  exists q, legal_dest board side src q)) /\
    (forall src ds, dict_get d src = Some ds ->
       let straight := (fst src + forward_dir side, snd src) in
       let left := (fst src + forward_dir side, snd src - 1) in
       let right := (fst src + forward_dir side, snd src + 1) in
       ds <> [] /\
       (forall q, In q ds -> q = straight \/ q = left \/ q = right) /\
       (In straight ds <->
        in_bounds board straight /\ cell board straight = Some EMPTY) /\
       (In left ds <->
        in_bounds board left /\ cell board left = Some (opposing side)) /\
       (In right ds <->
        in_bounds board right /\ cell board right = Some (opposing side))).
Proof.
  intros Hg Hside. exists (spec_legal_moves board side).
  split; [now apply actions_grid|]. split.
  - intro src. split.
    + intros [ds Hds]. apply dict_get_spec_legal_moves in Hds; [|assumption].
      destruct Hds as [Hc [-> Hne]]. split; [assumption|].
      destruct (spec_dests board side src) as [|q qs] eqn:E; [congruence|].
      exists q. apply in_spec_dests. rewrite E. now left.
    + intros [Hc [q Hq]]. exists (spec_dests board side src).
      apply dict_get_spec_legal_moves; [assumption|].
      repeat split; [assumption|]. apply in_spec_dests in Hq.
      intro E. rewrite E in Hq. destruct Hq.
  - intros src ds Hds. cbv zeta.
    apply dict_get_spec_legal_moves in Hds; [|assumption].
    destruct Hds as [_ [-> Hne]]. split; [assumption|]. split.
    + intros q Hq. apply in_spec_dests in Hq. unfold legal_dest in Hq.
      cbv zeta in Hq. tauto.
    + rewrite !in_spec_dests.
      rewrite legal_dest_straight, legal_dest_left, legal_dest_right.
      split; [|split]; apply cell_with_bounds; assumption.
Qed.

Lemma C5_actions_legal_moves_witness :
  exists d, actions board_capture BLACK = inr d /\
    (forall src, (exists ds, dict_get d src = Some ds) <->
                 (cell board_capture src = Some BLACK /\
                  exists q, legal_dest board_capture BLACK src q)) /\
    (forall src ds, dict_get d src = Some ds ->
       let straight := (fst src + forward_dir BLACK, snd src) in
       let left := (fst src + forward_dir BLACK, snd src - 1) in
       let right := (fst src + forward_dir BLACK, snd src + 1) in
       ds <> [] /\
       (forall q, In q ds -> q = straight \/ q = left \/ q = right) /\
       (In straight ds <->
        in_bounds board_capture straight /\ cell board_capture straight = Some EMPTY) /\
       (In left ds <->
        in_bounds board_capture left /\
        cell board_capture left = Some (opposing BLACK)) /\
       (In right ds <->
        in_bounds board_capture right /\
        cell board_capture right = Some (opposing BLACK))).
Proof.
  apply (@C5_actions_legal_moves board_capture BLACK); [reflexivity|discriminate].
Defined.

Lemma actions_inv (board : Board) (side : piece) (d : moves_dict) :
  is_grid board = true -> actions board side = inr d ->
  side <> EMPTY /\ d = spec_legal_moves board side.
Proof.
  intros Hg Ha.
  assert (Hside : side <> EMPTY).
  { intros ->. unfold actions in Ha.
    destruct (result_prelude board Hg) as [row0 [Hrow0 _]].
    rewrite Hrow0 in Ha. discriminate. }
  split; [assumption|].
  rewrite actions_grid in Ha by assumption. now inversion Ha.
Qed.

Lemma forward_dir_unit (side : piece) : forward_dir side = 1 \/ forward_dir side = -1.
Proof. destruct side; simpl; auto. Qed.

Lemma opposing_occ (side : piece) : occ (opposing side) = 1.
Proof. now destruct side. Qed.

(** What [result] does with a move taken from the table of [actions]. *)
Lemma result_legal (board : Board) (side : piece) (depart dest : pos) :
  is_grid board = true -> side <> EMPTY ->
  cell board depart = Some side ->
  legal_dest board side depart dest ->
  exists captured,
    cell board dest = Some captured /\
    (snd dest = snd depart -> captured = EMPTY) /\
    (snd dest <> snd depart -> captured = opposing side) /\
    depart <> dest /\
    result board depart dest = inr (put (put board dest side) depart EMPTY).
Proof.
  intros Hg Hside Hdep Hlegal.
  pose proof (cell_Some_bounds _ _ Hg Hdep) as Hbd.
  assert (Hcap : exists captured, cell board dest = Some captured /\
                   (snd dest = snd depart -> captured = EMPTY) /\
                   (snd dest <> snd depart -> captured = opposing side) /\
                   fst dest = fst depart + forward_dir side).
  { destruct Hlegal as [[-> Hc]|[[-> Hc]|[-> Hc]]]; simpl.
    - exists EMPTY. repeat split; auto. congruence.
    - exists (opposing side). repeat split; auto. lia.
    - exists (opposing side). repeat split; auto. lia. }
  destruct Hcap as [captured [Hc [Hs [Hd Hrow]]]].
  exists captured. repeat split; try assumption.
  - intros <-. pose proof (forward_dir_unit side). lia.
  - pose proof (cell_Some_bounds _ _ Hg Hc) as Hbq.
    destruct (@result_ok board depart dest Hg Hbq) as [v [Hv Hres]].
    { unfold subscriptable. lia. }
    unfold wrap_pos in Hv, Hres.
    rewrite !wrap_nonneg in Hv, Hres by lia.
    replace (fst depart, snd depart) with depart in Hv, Hres by (now destruct depart).
    rewrite Hdep in Hv. inversion Hv; subst v. exact Hres.
Qed.

Lemma cell_after_move (board : Board) (depart dest q : pos) (v : piece) :
  is_grid board = true -> in_bounds board depart -> in_bounds board dest ->
  cell (put (put board dest v) depart EMPTY) q =
  if pos_eqb depart q then Some EMPTY
  else if pos_eqb dest q then Some v else cell board q.
Proof.
  intros Hg [Hr Hc] [Hr' Hc'].
  destruct (put_shape board dest v Hg) as [Hg' [Hrows Hcols]].
  rewrite cell_put by (try assumption; rewrite ?Hrows, ?Hcols; assumption).
  destruct (pos_eqb depart q); [reflexivity|].
  now rewrite cell_put by assumption.
Qed.

Lemma count_after_move (board : Board) (depart dest : pos) (v old captured : piece) :
  is_grid board = true ->
  cell board dest = Some captured ->
  cell (put board dest v) depart = Some old ->
  piece_count (put (put board dest v) depart EMPTY) =
  piece_count board - occ captured + occ v - occ old.
Proof.
  intros Hg Hc Ho.
  rewrite piece_count_put with (old := old) by assumption.
  rewrite piece_count_put with (old := captured) by assumption.
  change (occ EMPTY) with 0. lia.
Qed.

(** C7, as the code has it.  For every grid and every move
    (departure, destination) of the table [actions] returns for some side,
    [result] returns a new board of the same shape in which the departure
    is empty, the destination holds the piece that was at the departure
    and every other cell is unchanged; the number of pieces is unchanged
    by a straight advance and is one less after a diagonal move, which
    captures the opposing piece at the destination. *)
Theorem C7_result_legal_move (board : Board) (side : piece) (d : moves_dict)
    (depart dest : pos) (dests : list pos) :
  is_grid board = true ->
  actions board side = inr d ->
  dict_get d depart = Some dests ->
  In dest dests ->
  exists new_board,
    result board depart dest = inr new_board /\
    is_grid new_board = true /\
    rows new_board = rows board /\ cols new_board = cols board /\
    cell new_board depart = Some EMPTY /\
    cell new_board dest = cell board depart /\
    cell board depart = Some side /\
    (forall q, q <> depart -> q <> dest -> cell new_board q = cell board q) /\
    (snd dest = snd depart ->
     cell board dest = Some EMPTY /\ piece_count new_board = piece_count board) /\
    (snd dest <> snd depart ->
     cell board dest = Some (opposing side) /\
     piece_count new_board = piece_count board - 1).
Proof.
  intros Hg Hact Hget Hin.
  destruct (@actions_inv board side d Hg Hact) as [Hside ->].
  apply dict_get_spec_legal_moves in Hget; [|assumption].
  destruct Hget as [Hdep [-> _]]. apply in_spec_dests in Hin.
  destruct (@result_legal board side depart dest Hg Hside Hdep Hin)
    as [captured [Hc [Hs [Hd [Hne Hres]]]]].
  pose proof (cell_Some_bounds _ _ Hg Hdep) as Hbd.
  pose proof (cell_Some_bounds _ _ Hg Hc) as Hbq.
  exists (put (put board dest side) depart EMPTY).
  split; [exact Hres|].
  destruct (put_shape board dest side Hg) as [Hg1 [Hrows1 Hcols1]].
  destruct (put_shape (put board dest side) depart EMPTY Hg1) as [Hg2 [Hrows2 Hcols2]].
  split; [exact Hg2|]. split; [congruence|]. split; [congruence|].
  assert (Hnd : pos_eqb depart dest = false) by (now apply pos_eqb_neq).
  assert (Hold : cell (put board dest side) depart = Some side).
  { rewrite cell_put by (try assumption; apply Hbq).
    rewrite pos_eqb_neq by congruence. exact Hdep. }
  assert (Hcount : piece_count (put (put board dest side) depart EMPTY) =
                   piece_count board - occ captured).
  { rewrite count_after_move with (old := side) (captured := captured) by assumption. lia. }
  repeat split.
  - rewrite cell_after_move by assumption. now rewrite pos_eqb_refl.
  - rewrite cell_after_move by assumption. rewrite Hnd, pos_eqb_refl. now rewrite Hdep.
  - exact Hdep.
  - intros q Hq1 Hq2. rewrite cell_after_move by assumption.
    rewrite !pos_eqb_neq by congruence. reflexivity.
  - rewrite <- (Hs H). exact Hc.
  - rewrite Hcount, (Hs H). change (occ EMPTY) with 0. lia.
  - rewrite <- (Hd H). exact Hc.
  - now rewrite Hcount, (Hd H), opposing_occ.
Qed.

Lemma C7_result_legal_move_witness :
  exists new_board,
    result board_capture (0, 1) (1, 0) = inr new_board /\
    is_grid new_board = true /\
    rows new_board = rows board_capture /\ cols new_board = cols board_capture /\
    cell new_board (0, 1) = Some EMPTY /\
    cell new_board (1, 0) = cell board_capture (0, 1) /\
    cell board_capture (0, 1) = Some BLACK /\
    (forall q, q <> (0, 1) -> q <> (1, 0) -> cell new_board q = cell board_capture q) /\
    (snd (1, 0) = snd (0, 1) ->
     cell board_capture (1, 0) = Some EMPTY /\
     piece_count new_board = piece_count board_capture) /\
    (snd (1, 0) <> snd (0, 1) ->
     cell board_capture (1, 0) = Some (opposing BLACK) /\
     piece_count new_board = piece_count board_capture - 1).
Proof.
  apply (@C7_result_legal_move board_capture BLACK
           [((0, 1), [(1, 1); (1, 0)]); ((0, 2), [(1, 2)])]
           (0, 1) (1, 0) [(1, 1); (1, 0)]).
  - reflexivity.
  - reflexivity.
  - reflexivity.
  - simpl. auto.
Defined.

(** C7 as the specification words it (the piece count is preserved) fails
    for a capture: black takes the pawn on (1,0) and six pieces become
    five. *)
Lemma C7_capture_removes_a_piece :
  actions board_capture BLACK = inr [((0, 1), [(1, 1); (1, 0)]); ((0, 2), [(1, 2)])] /\
  result board_capture (0, 1) (1, 0) =
    inr [[BLACK; EMPTY; BLACK]; [BLACK; EMPTY; EMPTY]; [EMPTY; WHITE; WHITE]] /\
  piece_count board_capture = 6 /\
  piece_count [[BLACK; EMPTY; BLACK]; [BLACK; EMPTY; EMPTY]; [EMPTY; WHITE; WHITE]] = 5.
Proof. repeat split. Qed.

(** C8, as the code has it.  On every grid [result] aborts with the
    assertion error "Move out of board bounds." whenever the destination
    is out of bounds; with the destination in bounds it raises IndexError
    when the departure's row is outside [-m, m) or its column outside
    [-n, n); in every other case it succeeds, whatever the cells hold (no
    legality check), a negative departure index counting from the end of
    the list. *)
Theorem C8_result_bounds (board : Board) (depart dest : pos) :
  is_grid board = true ->
  (~ in_bounds board dest ->
   result board depart dest =
   inl (AssertionError (Some "Move out of board bounds."%string))) /\
  (in_bounds board dest -> ~ subscriptable board depart ->
   result board depart dest = inl IndexError) /\
  (in_bounds board dest -> subscriptable board depart ->
   exists v, cell board (wrap_pos board depart) = Some v /\
             result board depart dest =
             inr (put (put board dest v) (wrap_pos board depart) EMPTY)).
Proof.
  intro Hg. split; [|split].
  - now apply result_out_of_bounds.
  - now apply result_bad_departure.
  - now apply result_ok.
Qed.

Lemma C8_result_bounds_witness :
  result board_start (0, 0) (3, 0) =
    inl (AssertionError (Some "Move out of board bounds."%string)) /\
  result board_start (3, 0) (1, 0) = inl IndexError /\
  exists v, cell board_start (wrap_pos board_start (-1, 0)) = Some v /\
            result board_start (-1, 0) (1, 0) =
            inr (put (put board_start (1, 0) v) (wrap_pos board_start (-1, 0)) EMPTY).
Proof.
  split; [|split].
  - apply (@C8_result_bounds board_start (0, 0) (3, 0) eq_refl).
    unfold in_bounds, rows, cols, len; simpl; lia.
  - apply (@C8_result_bounds board_start (3, 0) (1, 0) eq_refl).
    + unfold in_bounds, rows, cols, len; simpl; lia.
    + unfold subscriptable, rows, cols, len; simpl; lia.
  - apply (@C8_result_bounds board_start (-1, 0) (1, 0) eq_refl).
    + unfold in_bounds, rows, cols, len; simpl; lia.
    + unfold subscriptable, rows, cols, len; simpl; lia.
Defined.

(** C8 as the specification words it fails for a departure with negative
    indices: (-1,-1) is no position of the 3x3 grid, yet [result] moves
    the white pawn of (2,2) onto the black pawn of (0,0). *)
Lemma C8_negative_departure_accepted :
  ~ in_bounds board_start (-1, -1) /\
  result board_start (-1, -1) (0, 0) =
    inr [[WHITE; BLACK; BLACK]; [EMPTY; EMPTY; EMPTY]; [WHITE; WHITE; EMPTY]].
Proof.
  split; [|reflexivity]. unfold in_bounds; simpl; lia.
Qed.

Lemma replace_nth_same {A} (l : list A) (k : nat) (x : A) :
  nth_error l k = Some x -> replace_nth l k x = l.
Proof.
  revert k. induction l as [|y l IH]; intros [|k]; simpl; try discriminate.
  - now intros [= ->].
  - intro H. now rewrite IH.
Qed.

Lemma put_same (board : Board) (p : pos) (v : piece) :
  cell board p = Some v -> put board p v = board.
Proof.
  unfold cell, put.
  destruct ((0 <=? fst p) && (0 <=? snd p)); [|discriminate].
  destruct (nth_error board (Z.to_nat (fst p))) as [row|] eqn:Hrow; [|discriminate].
  intro Hc. rewrite (replace_nth_same _ _ Hc). now apply replace_nth_same.
Qed.

(** C10, as the code has it.  For every grid and every in-bounds position
    p, [result] with departure = destination = p succeeds and returns a
    board whose cell p is empty and whose other cells are unchanged: a
    piece that stood on p disappears and the piece count drops by one;
    when p was already empty the returned board equals the given one. *)
Theorem C10_result_same_cell (board : Board) (p : pos) :
  is_grid board = true -> in_bounds board p ->
  exists new_board old,
    cell board p = Some old /\
    result board p p = inr new_board /\
    cell new_board p = Some EMPTY /\
    (forall q, q <> p -> cell new_board q = cell board q) /\
    (old <> EMPTY -> piece_count new_board = piece_count board - 1) /\
    (old = EMPTY -> new_board = board).
Proof.
  intros Hg Hb.
  destruct (@result_ok board p p Hg Hb) as [old [Hold Hres]].
  { unfold subscriptable. destruct Hb. lia. }
  assert (Hw : wrap_pos board p = p).
  { unfold wrap_pos. destruct Hb. rewrite !wrap_nonneg by lia. now destruct p. }
  rewrite Hw in Hold, Hres.
  rewrite (put_same _ _ Hold) in Hres.
  exists (put board p EMPTY), old. repeat split; try assumption.
  - destruct Hb. rewrite cell_put by assumption. now rewrite pos_eqb_refl.
  - intros q Hq. destruct Hb. rewrite cell_put by assumption.
    now rewrite pos_eqb_neq by congruence.
  - intro Hne. rewrite piece_count_put with (old := old) by assumption.
    change (occ EMPTY) with 0. unfold occ.
    destruct (piece_eqb old EMPTY) eqn:E; [|lia].
    apply piece_eqb_eq in E. contradiction.
  - intros ->. now apply put_same.
Qed.

Lemma C10_result_same_cell_witness :
  exists new_board old,
    cell board_start (0, 0) = Some old /\
    result board_start (0, 0) (0, 0) = inr new_board /\
    cell new_board (0, 0) = Some EMPTY /\
    (forall q, q <> (0, 0) -> cell new_board q = cell board_start q) /\
    (old <> EMPTY -> piece_count new_board = piece_count board_start - 1) /\
    (old = EMPTY -> new_board = board_start).
Proof.
  apply (@C10_result_same_cell board_start (0, 0) eq_refl).
  unfold in_bounds, rows, cols, len; simpl; lia.
Defined.

(** C10 as worded (the piece count strictly decreases for every in-bounds
    p) fails on an empty cell: the board comes back unchanged. *)
Lemma C10_empty_cell_unchanged :
  in_bounds board_start (1, 1) /\
  result board_start (1, 1) (1, 1) = inr board_start /\
  forall new_board, result board_start (1, 1) (1, 1) = inr new_board ->
                    new_board = board_start /\
                    ~ (piece_count new_board < piece_count board_start).
Proof.
  split; [|split].
  - unfold in_bounds, rows, cols, len; simpl; lia.
  - reflexivity.
  - intros nb H. assert (Hnb : nb = board_start) by (now inversion H).
    subst nb. split; [reflexivity|lia].
Qed.

(* ------------------------------------------------------------------ *)
(** *** terminal and utility *)

Lemma existsb_row (board : Board) (r : nat) (row : list piece) (want : piece) :
  nth_error board r = Some row ->
  (existsb (fun pc => piece_eqb pc want) row = true <->
   exists j, cell board (Z.of_nat r, j) = Some want).
Proof.
  intro Hrow. rewrite existsb_exists. split.
  - intros [pc [Hin Heq]]. apply piece_eqb_eq in Heq. subst pc.
    apply In_nth_error in Hin. destruct Hin as [c Hc].
    exists (Z.of_nat c). unfold cell. simpl fst; simpl snd.
    assert (H1 : (0 <=? Z.of_nat r) = true) by (apply Z.leb_le; lia).
    assert (H2 : (0 <=? Z.of_nat c) = true) by (apply Z.leb_le; lia).
    rewrite H1, H2. simpl. now rewrite !Nat2Z.id, Hrow.
  - intros [j Hj]. unfold cell in Hj. simpl fst in Hj; simpl snd in Hj.
    destruct ((0 <=? Z.of_nat r) && (0 <=? j)); [|discriminate].
    rewrite Nat2Z.id, Hrow in Hj. apply nth_error_In in Hj.
    exists want. split; [assumption|apply piece_eqb_refl].
Qed.

Lemma top_row (board : Board) :
  is_grid board = true ->
  exists row, getitem board 0 = inr row /\
    (existsb (fun pc => piece_eqb pc WHITE) row = true <-> white_reached_top board).
Proof.
  intro Hg. destruct board as [|row0 rest] eqn:Hb; [discriminate|].
  exists row0. split; [reflexivity|].
  apply (@existsb_row (row0 :: rest) O row0 WHITE). reflexivity.
Qed.

Lemma bottom_row (board : Board) :
  is_grid board = true ->
  exists row, getitem board (-1) = inr row /\
    (existsb (fun pc => piece_eqb pc BLACK) row = true <-> black_reached_bottom board).
Proof.
  intro Hg. pose proof (is_grid_rows board Hg) as Hm. unfold rows in Hm.
  assert (Hi : - len board <= -1 < len board) by lia.
  destruct (getitem_ok board Hi) as [row [Hget Hnth]].
  exists row. split; [assumption|].
  unfold wrap in Hnth. simpl in Hnth.
  unfold black_reached_bottom, rows.
  rewrite (@existsb_row board (Z.to_nat (-1 + len board)) row BLACK Hnth).
  replace (Z.of_nat (Z.to_nat (-1 + len board))) with (len board - 1) by lia.
  reflexivity.
Qed.

Lemma no_moves_iff (board : Board) (side : piece) :
  is_grid board = true ->
  (is_empty_dict (spec_legal_moves board side) = true <-> no_legal_move board side).
Proof.
  intro Hg. unfold no_legal_move. split.
  - intros He src q Hc Hl.
    assert (Hin : In (src, q) (flatten_moves (spec_legal_moves board side)))
      by (apply in_flatten_spec_legal_moves; auto).
    destruct (spec_legal_moves board side); [destruct Hin|discriminate].
  - intro Hno. destruct (spec_legal_moves board side) as [|e d] eqn:E; [reflexivity|].
    exfalso.
    assert (He : In e (spec_legal_moves board side)) by (rewrite E; now left).
    unfold spec_legal_moves in He. apply in_flat_map in He.
    destruct He as [p [_ He]]. apply spec_entry_key in He.
    destruct He as [Hk [Hds [Hne Hh]]].
    destruct (snd e) as [|q qs] eqn:Hq; [congruence|].
    apply (Hno p q).
    + now apply holds_iff.
    + apply in_spec_dests. rewrite <- Hds. now left.
Qed.

Lemma terminal_grid (board : Board) (turn : piece) :
  is_grid board = true ->
  exists wt bb,
    (wt = true <-> white_reached_top board) /\
    (bb = true <-> black_reached_bottom board) /\
    terminal board turn =
      inr (wt || bb
           || (piece_eqb turn WHITE && is_empty_dict (spec_legal_moves board WHITE))
           || (piece_eqb turn BLACK && is_empty_dict (spec_legal_moves board BLACK))) /\
    utility board turn =
      if wt then inr WHITE
      else if bb then inr BLACK
      else if piece_eqb turn BLACK && is_empty_dict (spec_legal_moves board BLACK)
           then inr WHITE
      else if piece_eqb turn WHITE && is_empty_dict (spec_legal_moves board WHITE)
           then inr BLACK
      else inl (AssertionError (Some "Utility calculation failed."%string)).
Proof.
  intro Hg.
  destruct (top_row board Hg) as [top [Htop Hwt]].
  destruct (bottom_row board Hg) as [bottom [Hbot Hbb]].
  exists (existsb (fun pc => piece_eqb pc WHITE) top),
         (existsb (fun pc => piece_eqb pc BLACK) bottom).
  split; [exact Hwt|]. split; [exact Hbb|].
  unfold terminal, utility. rewrite Htop, Hbot. simpl bind.
  rewrite !actions_grid by (assumption || discriminate).
  split.
  - destruct turn; reflexivity.
  - destruct (existsb (fun pc => piece_eqb pc WHITE) top); [reflexivity|].
    destruct (existsb (fun pc => piece_eqb pc BLACK) bottom); [reflexivity|].
    destruct turn; simpl;
      destruct (is_empty_dict (spec_legal_moves board BLACK));
      destruct (is_empty_dict (spec_legal_moves board WHITE)); reflexivity.
Qed.

(** C6.  On every grid and for every turn, [terminal] returns a boolean
    that is true exactly when [utility] returns a winner instead of
    raising; and [utility] returns white if a white piece is on row 0,
    else black if a black piece is on the last row, else white when black
    is to move and has no legal move, else black when white is to move and
    has no legal move, and raises in every other case. *)
Theorem C6_terminal_iff_utility (board : Board) (turn : piece) :
  is_grid board = true ->
  exists b, terminal board turn = inr b /\
    (b = true <-> exists w, utility board turn = inr w) /\
    (forall w, utility board turn = inr w <->
       (white_reached_top board /\ w = WHITE) \/
       (~ white_reached_top board /\ black_reached_bottom board /\ w = BLACK) \/
       (~ white_reached_top board /\ ~ black_reached_bottom board /\
        turn = BLACK /\ no_legal_move board BLACK /\ w = WHITE) \/
       (~ white_reached_top board /\ ~ black_reached_bottom board /\
        turn = WHITE /\ no_legal_move board WHITE /\ w = BLACK)).
Proof.
  intro Hg.
  destruct (terminal_grid board turn Hg) as [wt [bb [Hwt [Hbb [Hterm Hutil]]]]].
  pose proof (no_moves_iff board WHITE Hg) as HnW.
  pose proof (no_moves_iff board BLACK Hg) as HnB.
  rewrite Hterm, Hutil. eexists. split; [reflexivity|].
  assert (Hwt' : wt = false -> ~ white_reached_top board)
    by (intros -> H; apply Hwt in H; discriminate).
  assert (Hbb' : bb = false -> ~ black_reached_bottom board)
    by (intros -> H; apply Hbb in H; discriminate).
  destruct wt.
  { pose proof (proj1 Hwt eq_refl) as HW. split.
    - split; [intros _; now exists WHITE|reflexivity].
    - intro w. split.
      + intros [= <-]. left. auto.
      + intros [[_ ->]|[[H _]|[[H _]|[H _]]]]; [reflexivity| | |]; contradiction. }
  pose proof (Hwt' eq_refl) as HW.
  destruct bb.
  { pose proof (proj1 Hbb eq_refl) as HB. split.
    - split; [intros _; now exists BLACK|reflexivity].
    - intro w. split.
      + intros [= <-]. right; left. auto.
      + intros [[H _]|[[_ [_ ->]]|[[_ [H _]]|[_ [H _]]]]];
          [contradiction|reflexivity| |]; contradiction. }
  pose proof (Hbb' eq_refl) as HB.
  assert (HnW' : is_empty_dict (spec_legal_moves board WHITE) = false ->
                 ~ no_legal_move board WHITE)
    by (intros E H; apply HnW in H; congruence).
  assert (HnB' : is_empty_dict (spec_legal_moves board BLACK) = false ->
                 ~ no_legal_move board BLACK)
    by (intros E H; apply HnB in H; congruence).
  simpl orb.
  destruct turn; simpl piece_eqb; simpl andb; rewrite ?orb_false_r.
  - (* white to move *)
    destruct (is_empty_dict (spec_legal_moves board WHITE)) eqn:EW.
    + pose proof (proj1 HnW eq_refl) as HN. split.
      * split; [intros _; now exists BLACK|reflexivity].
      * intro w. split.
        -- intros [= <-]. right; right; right. auto 6.
        -- intros [[H _]|[[_ [H _]]|[[_ [_ [H _]]]|[_ [_ [_ [_ ->]]]]]]];
             [contradiction|contradiction|discriminate|reflexivity].
    + pose proof (HnW' eq_refl) as HN. split.
      * split; [discriminate|intros [w H]; discriminate].
      * intro w. split; [discriminate|].
        intros [[H _]|[[_ [H _]]|[[_ [_ [H _]]]|[_ [_ [_ [H _]]]]]]];
          [contradiction|contradiction|discriminate|contradiction].
  - (* black to move *)
    destruct (is_empty_dict (spec_legal_moves board BLACK)) eqn:EB.
    + pose proof (proj1 HnB eq_refl) as HN. split.
      * split; [intros _; now exists WHITE|reflexivity].
      * intro w. split.
        -- intros [= <-]. right; right; left. auto 6.
        -- intros [[H _]|[[_ [H _]]|[[_ [_ [_ [_ ->]]]]|[_ [_ [H _]]]]]];
             [contradiction|contradiction|reflexivity|discriminate].
    + pose proof (HnB' eq_refl) as HN. split.
      * split; [discriminate|intros [w H]; discriminate].
      * intro w. split; [discriminate|].
        intros [[H _]|[[_ [H _]]|[[_ [_ [_ [H _]]]]|[_ [_ [H _]]]]]];
          [contradiction|contradiction|contradiction|discriminate].
  - (* an invalid turn *)
    split.
    + split; [discriminate|intros [w H]; discriminate].
    + intro w. split; [discriminate|].
      intros [[H _]|[[_ [H _]]|[[_ [_ [H _]]]|[_ [_ [H _]]]]]];
        [contradiction|contradiction|discriminate|discriminate].
Qed.

Lemma C6_terminal_iff_utility_witness :
  exists b, terminal board_black_trapped BLACK = inr b /\
    (b = true <-> exists w, utility board_black_trapped BLACK = inr w) /\
    (forall w, utility board_black_trapped BLACK = inr w <->
       (white_reached_top board_black_trapped /\ w = WHITE) \/
       (~ white_reached_top board_black_trapped /\
        black_reached_bottom board_black_trapped /\ w = BLACK) \/
       (~ white_reached_top board_black_trapped /\
        ~ black_reached_bottom board_black_trapped /\
        BLACK = BLACK /\ no_legal_move board_black_trapped BLACK /\ w = WHITE) \/
       (~ white_reached_top board_black_trapped /\
        ~ black_reached_bottom board_black_trapped /\
        BLACK = WHITE /\ no_legal_move board_black_trapped WHITE /\ w = BLACK)).
Proof.
  apply (@C6_terminal_iff_utility board_black_trapped BLACK). reflexivity.
Defined.

(* ------------------------------------------------------------------ *)
(** *** Move selection *)

Lemma first_untried_find (k : Knowledge) (board : Board) (pawn : pos) (moves : list pos) :
  first_untried k board pawn moves =
  find (fun a => negb (is_mistake k board a)) (map (fun q => (pawn, q)) moves).
Proof.
  induction moves as [|mv moves IH]; simpl; [reflexivity|].
  destruct (negb (is_mistake k board (pawn, mv))); [reflexivity|exact IH].
Qed.

Lemma find_app {A} (f : A -> bool) (l1 l2 : list A) :
  find f (l1 ++ l2) = match find f l1 with
                      | Some x => Some x
                      | None => find f l2
                      end.
Proof.
  induction l1 as [|x l1 IH]; simpl; [reflexivity|].
  destruct (f x); [reflexivity|exact IH].
Qed.

(** The two nested loops pick the first move of the table, read source
    by source, that is not a known mistake. *)
Lemma scan_moves_find (k : Knowledge) (board : Board) (d : moves_dict) :
  scan_moves k board d =
  find (fun a => negb (is_mistake k board a)) (flatten_moves d).
Proof.
  induction d as [|[pawn moves] d IH]; simpl; [reflexivity|].
  unfold flatten_moves in *. simpl.
  rewrite find_app, <- first_untried_find, IH. reflexivity.
Qed.

Lemma find_first {A} (f : A -> bool) (l : list A) (x : A) :
  find f l = Some x ->
  exists before after,
    l = before ++ x :: after /\ (forall y, In y before -> f y = false) /\ f x = true.
Proof.
  induction l as [|y l IH]; simpl; [discriminate|].
  destruct (f y) eqn:Hy.
  - intros [= ->]. exists [], l. repeat split; [intros ? []|assumption].
  - intro H. destruct (IH H) as [before [after [-> [Hb Hx]]]].
    exists (y :: before), after. repeat split; [|assumption].
    intros z [<-|Hz]; auto.
Qed.

Lemma find_exists {A} (f : A -> bool) (l : list A) (x : A) :
  In x l -> f x = true -> exists y, find f l = Some y.
Proof.
  induction l as [|z l IH]; simpl; [intros []|].
  intros [->|Hin] Hx.
  - rewrite Hx. now exists x.
  - destruct (f z); [now exists z|auto].
Qed.

(** The automated turn of gui.py, step by step. *)
Lemma gui_black_turn_eq (k : Knowledge) (board : Board) (history : option Node) :
  gui_black_turn k board history =
  match actions board BLACK with
  | inl e => inl e
  | inr d =>
      match scan_moves k board d with
      | Some a =>
          match result board (fst a) (snd a) with
          | inl e => inl e
          | inr new_board =>
              match locate_pawns new_board table3 with
              | inl e => inl e
              | inr _ => inr (new_board, Some (mkNode board history a))
              end
          end
      | None => inr (board, history)
      end
  end.
Proof. reflexivity. Qed.


(* ------------------------------------------------------------------ *)
(** *** Backward analysis *)

Lemma recorded_nil (k : Knowledge) : recorded k [] = k.
Proof. unfold recorded. simpl. apply app_nil_r. Qed.

Lemma recorded_cons (k : Knowledge) (nd : Node) (l : list Node) :
  recorded k (nd :: l) = recorded (notify k (mistake_of nd)) l.
Proof. unfold recorded, notify. simpl. now rewrite <- app_assoc. Qed.

Lemma climb_stops (k : Knowledge) (nd : Node) :
  catch22 k (state nd) <> inr true ->
  climb_outcome k nd [] (walk_from nd).
Proof.
  intro Hc. unfold climb_outcome.
  assert (Hw : exists tl, walk_from nd = nd :: tl)
    by (destruct nd as [s [p|] a]; simpl; eauto).
  destruct Hw as [tl ->]. rewrite recorded_nil.
  destruct nd as [s p a]; simpl in *.
  destruct (catch22 k s) as [e|[|]]; [reflexivity|congruence|reflexivity].
Qed.

Lemma climb_spec (nd : Node) :
  forall k, exists blamed rest,
    walk_from nd = blamed ++ rest /\
    (forall t x, nth_error blamed t = Some x ->
                 catch22 (recorded k (firstn t blamed)) (state x) = inr true) /\
    climb_outcome k nd blamed rest.
Proof.
  induction nd as [s a|s p a IH] using Node_chain_ind; intro k.
  - destruct (catch22 k s) as [e|[|]] eqn:Hc.
    + exists [], [mkNode s None a]. repeat split.
      * intros [|t] x; discriminate.
      * apply climb_stops. simpl. congruence.
    + exists [mkNode s None a], []. repeat split.
      * intros [|[|t]] x; simpl; try discriminate.
        intros [= <-]. now rewrite recorded_nil.
      * unfold climb_outcome. simpl. rewrite Hc.
        now rewrite recorded_cons, recorded_nil.
    + exists [], [mkNode s None a]. repeat split.
      * intros [|t] x; discriminate.
      * apply climb_stops. simpl. congruence.
  - set (nd := mkNode s (Some p) a).
    destruct (catch22 k s) as [e|[|]] eqn:Hc.
    + exists [], (walk_from nd). repeat split.
      * intros [|t] x; discriminate.
      * apply climb_stops. simpl. congruence.
    + destruct (IH (notify k (mistake_of nd))) as [blamed [rest [Hw [Hb Ho]]]].
      exists (nd :: blamed), rest. repeat split.
      * simpl. now rewrite Hw.
      * intros [|t] x; simpl.
        -- intros [= <-]. now rewrite recorded_nil.
        -- intro Ht. rewrite recorded_cons. now apply Hb.
      * unfold climb_outcome in *. rewrite recorded_cons.
        simpl climb. rewrite Hc. exact Ho.
    + exists [], (walk_from nd). repeat split.
      * intros [|t] x; discriminate.
      * apply climb_stops. simpl. congruence.
Qed.

(** [review_reflect] on any memory and any chain. *)
Lemma review_reflect_spec (knowledge : Knowledge) (history : option Node) :
  exists blamed rest,
    walk history = blamed ++ rest /\
    (forall t nd, nth_error blamed t = Some nd ->
       catch22 (recorded knowledge (firstn t blamed)) (state nd) = inr true) /\
    match rest with
    | [] => review_reflect knowledge history = (inr tt, recorded knowledge blamed)
    | nd :: _ =>
        match catch22 (recorded knowledge blamed) (state nd) with
        | inr true => False
        | inr false =>
            review_reflect knowledge history =
            (inr tt, recorded knowledge blamed ++ [mistake_of nd])
        | inl e =>
            review_reflect knowledge history = (inl e, recorded knowledge blamed)
        end
    end.
Proof.
  destruct history as [nd|].
  - destruct (climb_spec nd knowledge) as [blamed [rest [Hw [Hb Ho]]]].
    exists blamed, rest. repeat split; try assumption.
    unfold climb_outcome in Ho. unfold review_reflect.
    destruct rest as [|x rest'].
    + now rewrite Ho.
    + destruct (catch22 (recorded knowledge blamed) (state x)) as [e|[|]];
        [now rewrite Ho|assumption|now rewrite Ho].
  - exists [], []. repeat split.
    + intros [|t] x; discriminate.
    + simpl. now rewrite recorded_nil.
Qed.

(** Records made at other boards do not change the answer of [catch22]. *)
Lemma catch22_recorded (k : Knowledge) (l : list Node) (b : Board) :
  (forall x, In x l -> state x <> b) ->
  catch22 (recorded k l) b = catch22 k b.
Proof.
  intro Hl. unfold catch22, recorded. rewrite filter_app.
  assert (Hnone : filter (fun mistake => board_eqb (configuration mistake) b)
                         (map mistake_of l) = []).
  { induction l as [|x l IH]; [reflexivity|]. simpl.
    destruct (board_eqb (state x) b) eqn:E.
    - apply board_eqb_eq in E. elim (Hl x); simpl; auto.
    - apply IH. intros y Hy. apply Hl. simpl. auto. }
  now rewrite Hnone, app_nil_r.
Qed.

(** In a chain whose boards are pairwise different, as in any single game
    (every move advances a pawn), each node is judged as the memory stood
    when [review_reflect] was called. *)
Lemma review_reflect_distinct_boards (knowledge : Knowledge) (history : option Node) :
  NoDup (map state (walk history)) ->
  exists blamed rest,
    walk history = blamed ++ rest /\
    (forall nd, In nd blamed -> catch22 knowledge (state nd) = inr true) /\
    match rest with
    | [] => review_reflect knowledge history = (inr tt, recorded knowledge blamed)
    | nd :: _ =>
        match catch22 knowledge (state nd) with
        | inr true => False
        | inr false =>
            review_reflect knowledge history =
            (inr tt, recorded knowledge blamed ++ [mistake_of nd])
        | inl e =>
            review_reflect knowledge history = (inl e, recorded knowledge blamed)
        end
    end.
Proof.
  intro Hnd.
  destruct (review_reflect_spec knowledge history) as [blamed [rest [Hw [Hb Ho]]]].
  exists blamed, rest. rewrite Hw in Hnd. rewrite map_app in Hnd.
  split; [exact Hw|]. split.
  - intros nd Hin. apply In_nth_error in Hin. destruct Hin as [t Ht].
    rewrite <- (Hb t nd Ht). symmetry. apply catch22_recorded.
    intros x Hx Heq.
    destruct (nth_error_split _ _ Ht) as [l1 [l2 [Hsplit Hlen]]].
    assert (Hfirst : firstn t blamed = l1).
    { rewrite Hsplit, <- Hlen. rewrite firstn_app, Nat.sub_diag, firstn_all.
      simpl. apply app_nil_r. }
    rewrite Hfirst in Hx. apply NoDup_app_remove_r in Hnd.
    rewrite Hsplit, map_app in Hnd. simpl in Hnd.
    apply NoDup_remove_2 in Hnd. apply Hnd.
    apply in_or_app. left. rewrite <- Heq. now apply in_map.
  - destruct rest as [|nd rest']; [exact Ho|].
    rewrite catch22_recorded in Ho; [exact Ho|].
    intros x Hx Heq. simpl in Hnd.
    apply NoDup_remove_2 in Hnd. apply Hnd.
    apply in_or_app. left. rewrite <- Heq. now apply in_map.
Qed.

(** C1.  For every memory and every chain, [review_reflect] records the
    mistake (node.state, node.action) of each node of the longest initial
    segment [blamed] of the chain (head first) on which [catch22], asked
    when the node is reached, answers true; if a node follows on which
    [catch22] answers false it records that node's mistake as the last
    one, and nothing for the nodes after it; an empty chain records
    nothing.  (If [catch22] raises at the node where the segment ends,
    the exception propagates and only the segment has been recorded.) *)
Theorem C1_review_reflect (knowledge : Knowledge) :
  review_reflect knowledge None = (inr tt, knowledge) /\
  forall history : option Node,
  exists blamed rest,
    walk history = blamed ++ rest /\
    (forall t nd, nth_error blamed t = Some nd ->
       catch22 (knowledge ++ map mistake_of (firstn t blamed)) (state nd) = inr true) /\
    match rest with
    | [] =>
        review_reflect knowledge history =
        (inr tt, knowledge ++ map mistake_of blamed)
    | nd :: _ =>
        match catch22 (knowledge ++ map mistake_of blamed) (state nd) with
        | inr true => False
        | inr false =>
            review_reflect knowledge history =
            (inr tt, (knowledge ++ map mistake_of blamed) ++ [mistake_of nd])
        | inl e =>
            review_reflect knowledge history =
            (inl e, knowledge ++ map mistake_of blamed)
        end
    end.
Proof.
  split; [reflexivity|]. intro history. exact (review_reflect_spec knowledge history).
Qed.

(* ------------------------------------------------------------------ *)
(** *** The Catch-22 test *)

Lemma total_moves_len (d : moves_dict) :
  sum_Z (map (fun kv => len (snd kv)) d) = len (flatten_moves d).
Proof.
  unfold flatten_moves, len. induction d as [|[k vs] d IH]; [reflexivity|].
  simpl map. rewrite sum_Z_cons, IH. simpl flat_map.
  rewrite length_app, length_map. simpl snd. now rewrite Nat2Z.inj_add.
Qed.

Lemma NoDup_zseq (k : nat) : forall start, NoDup (zseq start k).
Proof.
  induction k as [|k IH]; intro start; simpl; constructor.
  - rewrite in_zseq. lia.
  - apply IH.
Qed.

Lemma NoDup_flat_map {A B} (f : A -> list B) (l : list A) :
  NoDup l ->
  (forall x, NoDup (f x)) ->
  (forall x y b, In b (f x) -> In b (f y) -> x = y) ->
  NoDup (flat_map f l).
Proof.
  intros Hl Hf Hdisj. induction Hl as [|x l Hx Hl IH]; simpl; [constructor|].
  apply NoDup_app; [apply Hf|exact IH|].
  intros b Hb Hb'. apply in_flat_map in Hb'. destruct Hb' as [y [Hy Hby]].
  rewrite (Hdisj x y b Hb Hby) in Hx. contradiction.
Qed.

Lemma NoDup_map_pair {A B} (a : A) (l : list B) :
  NoDup l -> NoDup (map (fun b => (a, b)) l).
Proof.
  intro H. induction H as [|b l Hb Hl IH]; simpl; constructor; [|exact IH].
  intro Hin. apply in_map_iff in Hin. destruct Hin as [b' [[= ->] Hb']]. contradiction.
Qed.

Lemma NoDup_positions (board : Board) : NoDup (positions board).
Proof.
  unfold positions. apply NoDup_flat_map.
  - rewrite range_zseq. apply NoDup_zseq.
  - intro i. apply NoDup_map_pair. rewrite range_zseq. apply NoDup_zseq.
  - intros i i' p Hp Hp'. apply in_map_iff in Hp, Hp'.
    destruct Hp as [j [<- _]]. destruct Hp' as [j' [[= ->] _]]. reflexivity.
Qed.

Lemma NoDup_spec_dests (board : Board) (side : piece) (src : pos) :
  NoDup (spec_dests board side src).
Proof.
  unfold spec_dests. cbv zeta.
  destruct (holds board _ EMPTY);
    destruct (holds board (_, snd src - 1) (opposing side));
    destruct (holds board (_, snd src + 1) (opposing side)); simpl;
    repeat (constructor; simpl;
            [intros H; repeat destruct H as [H|H]; try inversion H; try lia; try contradiction|]);
    constructor.
Qed.

Lemma NoDup_legal_moves (board : Board) (side : piece) :
  NoDup (flatten_moves (spec_legal_moves board side)).
Proof.
  unfold flatten_moves, spec_legal_moves. rewrite flat_map_flat_map.
  apply NoDup_flat_map.
  - apply NoDup_positions.
  - intro p. unfold spec_entry. destruct (holds board p side); [|constructor].
    destruct (spec_dests board side p) as [|q qs] eqn:E; [constructor|].
    simpl flat_map. rewrite app_nil_r.
    change (NoDup (map (fun b : pos => (p, b)) (q :: qs))).
    apply NoDup_map_pair. rewrite <- E. apply NoDup_spec_dests.
  - intros p p' a Ha Ha'.
    assert (Hkey : forall x, In a (flat_map (fun kv : pos * list pos =>
                                   map (fun q => (fst kv, q)) (snd kv))
                                (spec_entry board side x)) -> fst a = x).
    { intros x Hx. apply in_flat_map in Hx. destruct Hx as [e [He Hq]].
      apply spec_entry_key in He. destruct He as [Hk _].
      apply in_map_iff in Hq. destruct Hq as [q [<- _]]. exact Hk. }
    rewrite <- (Hkey p Ha), <- (Hkey p' Ha'). reflexivity.
Qed.

Lemma catch22_grid (knowledge : Knowledge) (board : Board) :
  is_grid board = true ->
  catch22 knowledge board =
  inr (len (flatten_moves (spec_legal_moves board BLACK)) - 1 =?
       len (records_at knowledge board)).
Proof.
  intro Hg. unfold catch22. rewrite actions_grid by (assumption || discriminate).
  simpl bind. now rewrite total_moves_len, sum_Z_ones.
Qed.

Lemma in_records_at (k : Knowledge) (board : Board) (mk : Mistake) :
  In mk (records_at k board) <-> In mk k /\ configuration mk = board.
Proof. unfold records_at. now rewrite filter_In, board_eqb_eq. Qed.

Lemma NoDup_map_on {A B} (f : A -> B) (l : list A) :
  NoDup l ->
  (forall x y, In x l -> In y l -> f x = f y -> x = y) ->
  NoDup (map f l).
Proof.
  intros Hl Hinj. induction Hl as [|x l Hx Hl IH]; simpl; constructor.
  - intro Hin. apply in_map_iff in Hin. destruct Hin as [y [Hy Hin]].
    assert (y = x) by (apply Hinj; simpl; auto). subst y. contradiction.
  - apply IH. intros a b Ha Hb. apply Hinj; simpl; auto.
Qed.

(** Without duplicate records, and when every record made at [board]
    carries a legal move of black, the records at [board] are as many as
    the legal moves that are known mistakes. *)
Lemma records_count (k : Knowledge) (board : Board) :
  NoDup k ->
  (forall mk, In mk (records_at k board) ->
              In (fault_action mk) (flatten_moves (spec_legal_moves board BLACK))) ->
  len (records_at k board) = len (known_mistakes k board).
Proof.
  intros Hk Hlegal.
  set (acts := map fault_action (records_at k board)).
  assert (Hacts : NoDup acts).
  { apply NoDup_map_on; [now apply NoDup_filter|].
    intros [c1 a1] [c2 a2] H1 H2. simpl. intros ->.
    apply in_records_at in H1, H2. simpl in H1, H2.
    destruct H1 as [_ ->]. destruct H2 as [_ ->]. reflexivity. }
  assert (Hknown : NoDup (known_mistakes k board))
    by (apply NoDup_filter, NoDup_legal_moves).
  assert (H1 : incl acts (known_mistakes k board)).
  { intros a Ha. unfold acts in Ha. apply in_map_iff in Ha.
    destruct Ha as [mk [<- Hmk]]. unfold known_mistakes. apply filter_In.
    split; [now apply Hlegal|].
    apply is_mistake_In. apply in_records_at in Hmk. destruct Hmk as [Hin <-].
    now destruct mk. }
  assert (H2 : incl (known_mistakes k board) acts).
  { intros a Ha. unfold known_mistakes in Ha. apply filter_In in Ha.
    destruct Ha as [_ Ha]. apply is_mistake_In in Ha.
    unfold acts. apply in_map_iff. exists (mkMistake board a).
    split; [reflexivity|]. apply in_records_at. auto. }
  pose proof (NoDup_incl_length Hacts H1) as L1.
  pose proof (NoDup_incl_length Hknown H2) as L2.
  unfold acts in L1, L2. rewrite length_map in L1, L2. unfold len. lia.
Qed.

(** C2, as the code has it.  On every grid [catch22] returns true iff
    the number of records of the memory whose board equals this board
    (each record counted, whatever move it carries) equals the number of
    legal moves of black at the board minus 1.  When the memory holds no
    record twice and every record made at this board carries a legal move
    of black, that number is the number of legal moves recorded as
    mistakes, and [catch22] agrees with the specification; in particular
    with exactly 2 legal moves and exactly one record made at the board,
    [catch22] returns true. *)
Theorem C2_catch22 (knowledge : Knowledge) (board : Board) :
  is_grid board = true ->
  catch22 knowledge board =
    inr (len (flatten_moves (spec_legal_moves board BLACK)) - 1 =?
         len (records_at knowledge board)) /\
  (NoDup knowledge ->
   (forall mk, In mk (records_at knowledge board) ->
               In (fault_action mk) (flatten_moves (spec_legal_moves board BLACK))) ->
   len (records_at knowledge board) = len (known_mistakes knowledge board) /\
   catch22 knowledge board = inr (spec_is_forced_loss knowledge board)) /\
  (len (flatten_moves (spec_legal_moves board BLACK)) = 2 ->
   len (records_at knowledge board) = 1 ->
   catch22 knowledge board = inr true).
Proof.
  intro Hg. pose proof (catch22_grid knowledge board Hg) as Hc.
  split; [exact Hc|]. split.
  - intros Hk Hlegal. pose proof (records_count board Hk Hlegal) as Hn.
    split; [exact Hn|]. rewrite Hc. unfold spec_is_forced_loss. rewrite <- Hn.
    f_equal. apply Z.eqb_sym.
  - intros H2 H1. rewrite Hc, H2, H1. reflexivity.
Qed.

Lemma C2_catch22_witness :
  catch22 [mkMistake board_two_moves ((0, 2), (1, 2))] board_two_moves =
    inr (len (flatten_moves (spec_legal_moves board_two_moves BLACK)) - 1 =?
         len (records_at [mkMistake board_two_moves ((0, 2), (1, 2))] board_two_moves)) /\
  len (records_at [mkMistake board_two_moves ((0, 2), (1, 2))] board_two_moves) =
    len (known_mistakes [mkMistake board_two_moves ((0, 2), (1, 2))] board_two_moves) /\
  catch22 [mkMistake board_two_moves ((0, 2), (1, 2))] board_two_moves = inr true.
Proof.
  destruct (@C2_catch22 [mkMistake board_two_moves ((0, 2), (1, 2))]
                        board_two_moves eq_refl) as [H1 [H2 H3]].
  split; [exact H1|]. split.
  - apply H2.
    + constructor; [intros []|constructor].
    + intros mk [<-|[]]. simpl. auto.
  - apply H3; reflexivity.
Defined.

(** C2 as the specification words it fails on a memory that holds a
    record twice: black has exactly two legal moves, exactly one of them
    is a known mistake, [spec_is_forced_loss] holds, and [catch22] answers
    false because it counts two records. *)
Lemma C2_duplicate_record_counted_twice :
  flatten_moves (spec_legal_moves board_two_moves BLACK) =
    [((0, 2), (1, 2)); ((0, 2), (1, 1))] /\
  is_mistake [mkMistake board_two_moves ((0, 2), (1, 2));
              mkMistake board_two_moves ((0, 2), (1, 2))]
             board_two_moves ((0, 2), (1, 2)) = true /\
  is_mistake [mkMistake board_two_moves ((0, 2), (1, 2));
              mkMistake board_two_moves ((0, 2), (1, 2))]
             board_two_moves ((0, 2), (1, 1)) = false /\
  spec_is_forced_loss [mkMistake board_two_moves ((0, 2), (1, 2));
                       mkMistake board_two_moves ((0, 2), (1, 2))]
                      board_two_moves = true /\
  catch22 [mkMistake board_two_moves ((0, 2), (1, 2));
           mkMistake board_two_moves ((0, 2), (1, 2))]
          board_two_moves = inr false.
Proof. repeat split. Qed.

(* ------------------------------------------------------------------ *)
(** *** initial_state *)

Lemma fill_column_step (m n t : Z) (board : Board) :
  1 <= m -> 0 <= t < n -> filled_upto m n t board ->
  exists board', fill_column m t board = inr board' /\ filled_upto m n (t + 1) board'.
Proof.
  intros Hm Ht [Hg [Hrows [Hcols Hcells]]]. unfold fill_column.
  rewrite setitem2_ok by (rewrite ?Hrows, ?Hcols; (assumption || lia)).
  simpl bind. rewrite !wrap_nonneg by lia.
  destruct (put_shape board (0, t) BLACK Hg) as [Hg1 [Hrows1 Hcols1]].
  rewrite setitem2_ok by (rewrite ?Hrows1, ?Hcols1, ?Hrows, ?Hcols; (assumption || lia)).
  rewrite !wrap_nonneg by lia.
  destruct (put_shape (put board (0, t) BLACK) (m - 1, t) WHITE Hg1) as [Hg2 [Hrows2 Hcols2]].
  eexists. split; [reflexivity|].
  split; [exact Hg2|]. split; [congruence|]. split; [congruence|].
  intros r c Hr Hc.
  rewrite cell_put by (simpl; rewrite ?Hrows1, ?Hcols1, ?Hrows, ?Hcols; (assumption || lia)).
  rewrite cell_put by (simpl; rewrite ?Hrows, ?Hcols; (assumption || lia)).
  rewrite (Hcells r c Hr Hc). unfold pos_eqb, initial_cell. simpl fst; simpl snd.
  destruct (Z.eqb_spec (m - 1) r); destruct (Z.eqb_spec r (m - 1)); try lia;
    destruct (Z.eqb_spec 0 r); destruct (Z.eqb_spec r 0); try lia;
    destruct (Z.eqb_spec t c); destruct (Z.ltb_spec c t);
    destruct (Z.ltb_spec c (t + 1)); try lia; reflexivity.
Qed.

Lemma fill_columns (m n : Z) (k : nat) :
  1 <= m ->
  forall t board, 0 <= t -> t + Z.of_nat k <= n -> filled_upto m n t board ->
  exists board', for_each (fill_column m) (zseq t k) board = inr board' /\
                 filled_upto m n (t + Z.of_nat k) board'.
Proof.
  intro Hm. induction k as [|k IH]; intros t board Ht Hk Hinv.
  - exists board. split; [reflexivity|]. now rewrite Z.add_0_r.
  - simpl zseq. simpl for_each.
    destruct (@fill_column_step m n t board Hm) as [b1 [Hb1 Hinv1]]; [lia|assumption|].
    rewrite Hb1. simpl bind.
    destruct (IH (t + 1) b1) as [b2 [Hb2 Hinv2]]; [lia|lia|assumption|].
    exists b2. split; [exact Hb2|].
    replace (t + Z.of_nat (S k)) with (t + 1 + Z.of_nat k) by lia. exact Hinv2.
Qed.

Lemma empty_board_filled (m n : Z) :
  1 <= m -> 0 <= n ->
  filled_upto m n 0 (repeat (repeat EMPTY (Z.to_nat n)) (Z.to_nat m)).
Proof.
  intros Hm Hn. set (row := repeat EMPTY (Z.to_nat n)).
  assert (Hlen : length row = Z.to_nat n) by apply repeat_length.
  destruct (Z.to_nat m) as [|m'] eqn:Em; [lia|].
  split; [|split; [|split]].
  - simpl. rewrite Nat.eqb_refl. simpl. apply forallb_forall.
    intros x Hx. apply repeat_spec in Hx. subst x. apply Nat.eqb_refl.
  - unfold rows, len. rewrite repeat_length. lia.
  - unfold cols, len. simpl. lia.
  - intros r c Hr Hc. unfold cell. simpl fst; simpl snd.
    assert (H1 : (0 <=? r) = true) by (apply Z.leb_le; lia).
    assert (H2 : (0 <=? c) = true) by (apply Z.leb_le; lia).
    rewrite H1, H2. simpl andb. cbv iota.
    rewrite nth_error_repeat by lia.
    unfold row. rewrite nth_error_repeat by lia.
    destruct (Z.ltb_spec c 0); [lia|reflexivity].
Qed.

(** C9, as the code has it.  [initial_state] checks nothing: it raises
    IndexError exactly when m < 1 and n >= 1, and returns a list of empty
    rows when n < 1; for 1 <= m and 1 <= n it returns an m x n grid whose
    row m-1 is all white, whose row 0 (when m >= 2) is all black and whose
    other cells are empty. *)
Theorem C9_initial_state (m n : Z) :
  (m < 1 -> 1 <= n -> initial_state m n = inl IndexError) /\
  (n < 1 -> initial_state m n = inr (repeat [] (Z.to_nat m))) /\
  (1 <= m -> 1 <= n ->
   exists board,
     initial_state m n = inr board /\
     is_grid board = true /\ rows board = m /\ cols board = n /\
     forall r c, 0 <= r < m -> 0 <= c < n ->
       cell board (r, c) =
       Some (if r =? m - 1 then WHITE else if r =? 0 then BLACK else EMPTY)).
Proof.
  split; [|split].
  - intros Hm Hn. unfold initial_state.
    replace (Z.to_nat m) with O by lia. rewrite range_zseq.
    destruct (Z.to_nat n) as [|n'] eqn:En; [lia|]. reflexivity.
  - intro Hn. unfold initial_state, range.
    replace (Z.to_nat n) with O by lia. reflexivity.
  - intros Hm Hn. unfold initial_state. rewrite range_zseq.
    destruct (@fill_columns m n (Z.to_nat n) Hm 0
                (repeat (repeat EMPTY (Z.to_nat n)) (Z.to_nat m)))
      as [board [Hrun [Hg [Hrows [Hcols Hcells]]]]];
      [lia|lia|apply empty_board_filled; lia|].
    exists board. split; [exact Hrun|]. repeat split; try assumption.
    intros r c Hr Hc. rewrite (Hcells r c Hr Hc).
    destruct (Z.ltb_spec c (0 + Z.of_nat (Z.to_nat n))); [reflexivity|lia].
Qed.

Lemma C9_initial_state_witness :
  initial_state 0 3 = inl IndexError /\
  initial_state 3 0 = inr (repeat [] (Z.to_nat 3)) /\
  exists board,
    initial_state 3 3 = inr board /\
    is_grid board = true /\ rows board = 3 /\ cols board = 3 /\
    forall r c, 0 <= r < 3 -> 0 <= c < 3 ->
      cell board (r, c) =
      Some (if r =? 3 - 1 then WHITE else if r =? 0 then BLACK else EMPTY).
Proof.
  split; [|split].
  - apply (C9_initial_state 0 3); lia.
  - apply (C9_initial_state 3 0); lia.
  - apply (C9_initial_state 3 3); lia.
Defined.

(** C9 as the specification words it fails: with m = 1 the single row is
    written black and then white and the call returns; with n = 0 the
    loop runs no iteration and three empty rows are returned. *)
Lemma C9_no_precondition_check :
  initial_state 1 3 = inr [[WHITE; WHITE; WHITE]] /\
  initial_state 3 0 = inr [[]; []; []].
Proof. split; reflexivity. Qed.

(* ================================================================== *)
(** ** Further properties of the code *)

(* ------------------------------------------------------------------ *)
(** *** The mistake memory *)

Lemma is_mistake_notify (k : Knowledge) (m : Mistake) (b : Board) (a : Action) :
  is_mistake (notify k m) b a = is_mistake k b a || mistake_eqb (mkMistake b a) m.
Proof.
  unfold is_mistake, notify. rewrite existsb_app. simpl. now rewrite orb_false_r.
Qed.

(** X1.  [notify] and [is_mistake] round trip: a pair that has been
    notified is a known mistake, whatever was known stays known, and the
    status of every other pair is unchanged; nothing is known to a new
    [Knowledge]. *)
Theorem X1_notify_then_is_mistake (k : Knowledge) (b : Board) (a : Action) :
  is_mistake Knowledge_init b a = false /\
  is_mistake (notify k (mkMistake b a)) b a = true /\
  forall m : Mistake,
    is_mistake (notify k m) b a =
    (if mistake_eqb (mkMistake b a) m then true else is_mistake k b a).
Proof.
  split; [reflexivity|]. split.
  - rewrite is_mistake_notify.
    assert (H : mistake_eqb (mkMistake b a) (mkMistake b a) = true)
      by (now apply mistake_eqb_eq).
    rewrite H. apply orb_true_r.
  - intro m. rewrite is_mistake_notify.
    destruct (mistake_eqb (mkMistake b a) m); [apply orb_true_r|apply orb_false_r].
Qed.

(* ------------------------------------------------------------------ *)
(** *** The automated side's choice *)

Lemma scan_moves_sound (k : Knowledge) (b : Board) (d : moves_dict) (a : Action) :
  scan_moves k b d = Some a ->
  is_mistake k b a = false /\ In a (flatten_moves d).
Proof.
  rewrite scan_moves_find. intro H. apply find_some in H.
  destruct H as [Hin Hneg]. apply negb_true_iff in Hneg. auto.
Qed.

Lemma scan_moves_none (k : Knowledge) (b : Board) (d : moves_dict) :
  scan_moves k b d = None ->
  forall a, In a (flatten_moves d) -> is_mistake k b a = true.
Proof.
  rewrite scan_moves_find. intros H a Hin.
  pose proof (find_none _ _ H a Hin) as Hn. now apply negb_false_iff in Hn.
Qed.

Lemma in_flatten_moves (d : moves_dict) (a : Action) :
  In a (flatten_moves d) <-> exists ds, In (fst a, ds) d /\ In (snd a) ds.
Proof.
  unfold flatten_moves. rewrite in_flat_map. split.
  - intros [[src ds] [He Ha]]. simpl in Ha. apply in_map_iff in Ha.
    destruct Ha as [q [<- Hq]]. simpl. eauto.
  - intros [ds [He Hq]]. exists (fst a, ds). split; [assumption|].
    simpl. apply in_map_iff. exists (snd a). split; [now destruct a|assumption].
Qed.

Lemma cli_choose_inv (k : Knowledge) (board : Board) (a : Action) :
  cli_choose k board = inr a ->
  exists d, actions board BLACK = inr d /\ scan_moves k board d = Some a.
Proof.
  unfold cli_choose. destruct (actions board BLACK) as [e|d]; [discriminate|].
  simpl. intro H. exists d. split; [reflexivity|].
  destruct (scan_moves k board d) as [a'|].
  - now inversion H.
  - destruct (getitem d 0) as [e|[src ds]]; [discriminate|].
    simpl in H. destruct ds; discriminate.
Qed.

(** X2.  On any board and any memory, a move [cli_choose] returns is
    never a known mistake and is a move of the table [actions] returned
    for black: a source that is a key and one of its destinations. *)
Theorem X2_cli_choose_sound (knowledge : Knowledge) (board : Board) (a : Action) :
  cli_choose knowledge board = inr a ->
  is_mistake knowledge board a = false /\
  exists d ds, actions board BLACK = inr d /\ In (fst a, ds) d /\ In (snd a) ds.
Proof.
  intro H. destruct (cli_choose_inv _ _ H) as [d [Hd Hs]].
  apply scan_moves_sound in Hs. destruct Hs as [Hm Hin].
  split; [assumption|]. apply in_flatten_moves in Hin.
  destruct Hin as [ds [H1 H2]]. eauto.
Qed.

Lemma X2_cli_choose_sound_witness :
  is_mistake [mkMistake board_capture ((0, 1), (1, 1))] board_capture ((0, 1), (1, 0)) = false /\
  exists d ds, actions board_capture BLACK = inr d /\
               In (fst ((0, 1), (1, 0)), ds) d /\ In (snd ((0, 1), (1, 0))) ds.
Proof.
  apply (@X2_cli_choose_sound [mkMistake board_capture ((0, 1), (1, 1))]
           board_capture ((0, 1), (1, 0))).
  reflexivity.
Defined.

(* ------------------------------------------------------------------ *)
(** *** What a review leaves in the memory *)

Lemma walk_from_head (nd : Node) : exists tl, walk_from nd = nd :: tl.
Proof. destruct nd as [s [p|] a]; simpl; eauto. Qed.

Lemma is_mistake_app (k1 k2 : Knowledge) (b : Board) (a : Action) :
  is_mistake (k1 ++ k2) b a = is_mistake k1 b a || is_mistake k2 b a.
Proof. unfold is_mistake. apply existsb_app. Qed.

Lemma is_mistake_mistake_of (nd : Node) (l : list Node) :
  In nd l -> is_mistake (map mistake_of l) (state nd) (action nd) = true.
Proof.
  intro H. apply is_mistake_In. apply in_map_iff. exists nd. split; [reflexivity|assumption].
Qed.

(** After a review that returns, the memory is the old one followed by
    the records of an initial segment of the chain. *)
Lemma review_reflect_added (k k' : Knowledge) (history : option Node) :
  review_reflect k history = (inr tt, k') ->
  exists judged later,
    walk history = judged ++ later /\ k' = k ++ map mistake_of judged /\
    (history <> None -> judged <> []).
Proof.
  intro Hrun.
  destruct (review_reflect_spec k history) as [blamed [rest [Hw [_ Ho]]]].
  destruct rest as [|nd rest'].
  - rewrite Hrun in Ho. inversion Ho. exists blamed, []. repeat split; try assumption.
    intros Hh ->. destruct history as [x|]; [|congruence].
    simpl in Hw. destruct (walk_from_head x) as [tl Hx]. rewrite Hx in Hw. discriminate.
  - destruct (catch22 (recorded k blamed) (state nd)) as [e|[|]].
    + rewrite Hrun in Ho. discriminate.
    + destruct Ho.
    + rewrite Hrun in Ho. inversion Ho.
      exists (blamed ++ [nd]), rest'. repeat split.
      * rewrite Hw, <- app_assoc. reflexivity.
      * unfold recorded. now rewrite map_app, app_assoc.
      * intros _ H. destruct blamed; discriminate.
Qed.

(** X3.  After a loss whose review returns, the last move of the game is
    a known mistake at its board, every mistake known before is still
    known, and the automated side does not choose that move at that board
    again: neither cli.py's choice nor the node gui.py pushes. *)
Theorem X3_last_move_not_repeated (k k' : Knowledge) (nd : Node) :
  review_reflect k (Some nd) = (inr tt, k') ->
  is_mistake k' (state nd) (action nd) = true /\
  (forall b a, is_mistake k b a = true -> is_mistake k' b a = true) /\
  cli_choose k' (state nd) <> inr (action nd) /\
  (forall history new_board,
     gui_black_turn k' (state nd) history <>
     inr (new_board, Some (mkNode (state nd) history (action nd)))).
Proof.
  intro Hrun.
  destruct (review_reflect_added _ _ Hrun) as [judged [later [Hw [-> Hne]]]].
  assert (Hhead : In nd judged).
  { simpl in Hw. destruct (walk_from_head nd) as [tl Hx]. rewrite Hx in Hw.
    destruct judged as [|x judged']; [elim Hne; congruence|].
    inversion Hw. now left. }
  assert (Hknown : is_mistake (k ++ map mistake_of judged) (state nd) (action nd) = true).
  { rewrite is_mistake_app, (is_mistake_mistake_of _ _ Hhead). apply orb_true_r. }
  split; [exact Hknown|]. split; [|split].
  - intros b a H. rewrite is_mistake_app, H. reflexivity.
  - intro Hc. apply cli_choose_inv in Hc. destruct Hc as [d [_ Hs]].
    apply scan_moves_sound in Hs. destruct Hs as [Hs _]. congruence.
  - intros history new_board Hg. rewrite gui_black_turn_eq in Hg.
    destruct (actions (state nd) BLACK) as [e|d]; [discriminate|].
    destruct (scan_moves (k ++ map mistake_of judged) (state nd) d) as [a|] eqn:Hs.
    + destruct (result (state nd) (fst a) (snd a)) as [e|nb]; [discriminate|].
      destruct (locate_pawns nb table3); [discriminate|].
      inversion Hg; subst a.
      apply scan_moves_sound in Hs. destruct Hs as [Hs _]. congruence.
    + inversion Hg. destruct history as [h|]; [|discriminate].
      assert (Hsize : forall x : Node, x <> mkNode (state nd) (Some x) (action nd)).
      { induction x as [s a|s p a IH] using Node_chain_ind; intro H; inversion H.
        subst. now apply IH. }
      match goal with H : Some h = Some _ |- _ => inversion H as [Heq] end.
      exact (Hsize h Heq).
Qed.

Lemma X3_last_move_not_repeated_witness :
  is_mistake [mkMistake board_one_move ((0, 2), (1, 2))]
             (state (mkNode board_one_move None ((0, 2), (1, 2))))
             (action (mkNode board_one_move None ((0, 2), (1, 2)))) = true /\
  (forall b a, is_mistake Knowledge_init b a = true ->
               is_mistake [mkMistake board_one_move ((0, 2), (1, 2))] b a = true) /\
  cli_choose [mkMistake board_one_move ((0, 2), (1, 2))]
             (state (mkNode board_one_move None ((0, 2), (1, 2)))) <>
    inr (action (mkNode board_one_move None ((0, 2), (1, 2)))) /\
  (forall history new_board,
     gui_black_turn [mkMistake board_one_move ((0, 2), (1, 2))]
                    (state (mkNode board_one_move None ((0, 2), (1, 2)))) history <>
     inr (new_board,
          Some (mkNode (state (mkNode board_one_move None ((0, 2), (1, 2)))) history
                       (action (mkNode board_one_move None ((0, 2), (1, 2))))))).
Proof.
  apply (@X3_last_move_not_repeated Knowledge_init
           [mkMistake board_one_move ((0, 2), (1, 2))]
           (mkNode board_one_move None ((0, 2), (1, 2)))).
  reflexivity.
Defined.

(** X4.  When the boards of the chain are pairwise different, as they
    are when every move of the game was legal, [review_reflect] judges
    every node
    against the memory it was called with: the records it makes on the way
    change no answer of [catch22] further up the chain.  It records the
    longest initial segment of nodes that the memory at the call judges
    forced, and then the first node it does not. *)
Theorem X4_distinct_boards_judged_at_call (knowledge : Knowledge) (history : option Node) :
  NoDup (map state (walk history)) ->
  exists blamed rest,
    walk history = blamed ++ rest /\
    (forall nd, In nd blamed -> catch22 knowledge (state nd) = inr true) /\
    match rest with
    | [] => review_reflect knowledge history = (inr tt, recorded knowledge blamed)
    | nd :: _ =>
        match catch22 knowledge (state nd) with
        | inr true => False
        | inr false =>
            review_reflect knowledge history =
            (inr tt, recorded knowledge blamed ++ [mistake_of nd])
        | inl e =>
            review_reflect knowledge history = (inl e, recorded knowledge blamed)
        end
    end.
Proof. exact (@review_reflect_distinct_boards knowledge history). Qed.

Lemma X4_distinct_boards_judged_at_call_witness :
  exists blamed rest,
    walk (Some (mkNode board_one_move
                       (Some (mkNode board_capture None ((0, 1), (1, 0))))
                       ((0, 2), (1, 2)))) = blamed ++ rest /\
    (forall nd, In nd blamed -> catch22 Knowledge_init (state nd) = inr true) /\
    match rest with
    | [] =>
        review_reflect Knowledge_init
          (Some (mkNode board_one_move
                        (Some (mkNode board_capture None ((0, 1), (1, 0))))
                        ((0, 2), (1, 2)))) =
        (inr tt, recorded Knowledge_init blamed)
    | nd :: _ =>
        match catch22 Knowledge_init (state nd) with
        | inr true => False
        | inr false =>
            review_reflect Knowledge_init
              (Some (mkNode board_one_move
                            (Some (mkNode board_capture None ((0, 1), (1, 0))))
                            ((0, 2), (1, 2)))) =
            (inr tt, recorded Knowledge_init blamed ++ [mistake_of nd])
        | inl e =>
            review_reflect Knowledge_init
              (Some (mkNode board_one_move
                            (Some (mkNode board_capture None ((0, 1), (1, 0))))
                            ((0, 2), (1, 2)))) =
            (inl e, recorded Knowledge_init blamed)
        end
    end.
Proof.
  apply (@X4_distinct_boards_judged_at_call Knowledge_init
           (Some (mkNode board_one_move
                         (Some (mkNode board_capture None ((0, 1), (1, 0))))
                         ((0, 2), (1, 2))))).
  simpl. constructor.
  - intros [H|[]]. discriminate.
  - constructor; [intros []|constructor].
Defined.

Lemma catch22_total (k : Knowledge) (board : Board) :
  is_grid board = true -> exists b, catch22 k board = inr b.
Proof. intro Hg. rewrite catch22_grid by assumption. eauto. Qed.

(** X5.  When the boards of the chain are grids, [review_reflect] returns
    without raising; the memory it leaves is the old memory followed by
    the records of the first nodes of the chain, in order, one per node:
    at least one when the chain is not empty, never more than the chain
    has nodes, and nothing older is removed or reordered. *)
Theorem X5_review_reflect_grows (k : Knowledge) (history : option Node) :
  grid_history history ->
  exists judged later,
    walk history = judged ++ later /\
    review_reflect k history = (inr tt, k ++ map mistake_of judged) /\
    (history <> None -> judged <> []).
Proof.
  intro Hgrid.
  assert (Hrun : exists k', review_reflect k history = (inr tt, k')).
  { destruct (review_reflect_spec k history) as [blamed [rest [Hw [_ Ho]]]].
    destruct rest as [|nd rest']; [eauto|].
    assert (Hg : is_grid (state nd) = true).
    { unfold grid_history in Hgrid. rewrite Hw in Hgrid.
      apply Forall_app in Hgrid. destruct Hgrid as [_ H]. now inversion H. }
    destruct (catch22_total (recorded k blamed) (state nd) Hg) as [b Hb].
    rewrite Hb in Ho. destruct b; [destruct Ho|eauto]. }
  destruct Hrun as [k' Hrun].
  destruct (@review_reflect_added k k' history Hrun) as [judged [later [Hw [-> Hne]]]].
  exists judged, later. auto.
Qed.

Lemma X5_review_reflect_grows_witness :
  exists judged later,
    walk (Some (mkNode board_capture None ((0, 1), (1, 1)))) = judged ++ later /\
    review_reflect Knowledge_init (Some (mkNode board_capture None ((0, 1), (1, 1)))) =
      (inr tt, Knowledge_init ++ map mistake_of judged) /\
    (Some (mkNode board_capture None ((0, 1), (1, 1))) <> None -> judged <> []).
Proof.
  apply (@X5_review_reflect_grows Knowledge_init
           (Some (mkNode board_capture None ((0, 1), (1, 1))))).
  unfold grid_history. simpl. constructor; [reflexivity|constructor].
Defined.

(* ------------------------------------------------------------------ *)
(** *** result, whatever the move *)

Lemma in_bounds_dec (board : Board) (p : pos) :
  {in_bounds board p} + {~ in_bounds board p}.
Proof.
  unfold in_bounds.
  destruct (Z_le_dec 0 (fst p)); destruct (Z_lt_dec (fst p) (rows board));
    destruct (Z_le_dec 0 (snd p)); destruct (Z_lt_dec (snd p) (cols board));
    try (left; lia); right; lia.
Qed.

Lemma subscriptable_dec (board : Board) (p : pos) :
  {subscriptable board p} + {~ subscriptable board p}.
Proof.
  unfold subscriptable.
  destruct (Z_le_dec (- rows board) (fst p)); destruct (Z_lt_dec (fst p) (rows board));
    destruct (Z_le_dec (- cols board) (snd p)); destruct (Z_lt_dec (snd p) (cols board));
    try (left; lia); right; lia.
Qed.

Lemma result_inv (board new_board : Board) (depart dest : pos) :
  is_grid board = true -> result board depart dest = inr new_board ->
  in_bounds board dest /\ subscriptable board depart /\
  exists v, cell board (wrap_pos board depart) = Some v /\
            new_board = put (put board dest v) (wrap_pos board depart) EMPTY.
Proof.
  intros Hg Hres.
  destruct (in_bounds_dec board dest) as [Hb|Hb].
  2:{ rewrite result_out_of_bounds in Hres by assumption. discriminate. }
  destruct (subscriptable_dec board depart) as [Hs|Hs].
  2:{ rewrite result_bad_departure in Hres by assumption. discriminate. }
  split; [assumption|]. split; [assumption|].
  destruct (@result_ok board depart dest Hg Hb Hs) as [v [Hv Hr]].
  exists v. split; [assumption|]. rewrite Hr in Hres. now inversion Hres.
Qed.

Lemma wrap_pos_in_bounds (board : Board) (p : pos) :
  subscriptable board p -> in_bounds board (wrap_pos board p).
Proof.
  intros [Hr Hc]. unfold in_bounds, wrap_pos. simpl.
  split; apply wrap_bounds; assumption.
Qed.

Lemma result_shape (board new_board : Board) (depart dest : pos) :
  is_grid board = true -> result board depart dest = inr new_board ->
  is_grid new_board = true /\
  rows new_board = rows board /\ cols new_board = cols board.
Proof.
  intros Hg Hres.
  destruct (@result_inv board new_board depart dest Hg Hres) as [_ [_ [v [_ ->]]]].
  destruct (put_shape board dest v Hg) as [Hg1 [Hrows1 Hcols1]].
  destruct (put_shape (put board dest v) (wrap_pos board depart) EMPTY Hg1)
    as [Hg2 [Hrows2 Hcols2]].
  split; [exact Hg2|]. split; congruence.
Qed.

(** X6.  Whatever the two positions, legal move or not, a call of
    [result] on a grid that returns gives a grid of the same dimensions,
    with the destination in bounds, and never adds a piece: the number of
    pieces is unchanged when the destination cell was empty and is one
    less when it held a piece (of either colour). *)
Theorem X6_result_never_adds_a_piece (board new_board : Board) (depart dest : pos) :
  is_grid board = true ->
  result board depart dest = inr new_board ->
  is_grid new_board = true /\
  rows new_board = rows board /\ cols new_board = cols board /\
  in_bounds board dest /\
  exists at_dest,
    cell board dest = Some at_dest /\
    piece_count new_board =
    piece_count board - (if piece_eqb at_dest EMPTY then 0 else 1).
Proof.
  intros Hg Hres.
  destruct (@result_inv board new_board depart dest Hg Hres) as [Hb [Hs [v [Hv ->]]]].
  destruct (put_shape board dest v Hg) as [Hg1 [Hrows1 Hcols1]].
  destruct (put_shape (put board dest v) (wrap_pos board depart) EMPTY Hg1)
    as [Hg2 [Hrows2 Hcols2]].
  split; [exact Hg2|]. split; [congruence|]. split; [congruence|].
  split; [exact Hb|].
  destruct Hb as [Hbr Hbc].
  destruct (cell_in_bounds board Hg Hbr Hbc) as [at_dest Hat].
  replace (fst dest, snd dest) with dest in Hat by (now destruct dest).
  exists at_dest. split; [exact Hat|].
  assert (Hold : cell (put board dest v) (wrap_pos board depart) = Some v).
  { rewrite cell_put by assumption.
    destruct (pos_eqb dest (wrap_pos board depart)); [reflexivity|exact Hv]. }
  rewrite count_after_move with (old := v) (captured := at_dest) by assumption.
  fold (occ at_dest). lia.
Qed.

Lemma X6_result_never_adds_a_piece_witness :
  is_grid [[BLACK; EMPTY; BLACK]; [BLACK; EMPTY; EMPTY]; [EMPTY; WHITE; WHITE]] = true /\
  rows [[BLACK; EMPTY; BLACK]; [BLACK; EMPTY; EMPTY]; [EMPTY; WHITE; WHITE]] =
    rows board_capture /\
  cols [[BLACK; EMPTY; BLACK]; [BLACK; EMPTY; EMPTY]; [EMPTY; WHITE; WHITE]] =
    cols board_capture /\
  in_bounds board_capture (1, 0) /\
  exists at_dest,
    cell board_capture (1, 0) = Some at_dest /\
    piece_count [[BLACK; EMPTY; BLACK]; [BLACK; EMPTY; EMPTY]; [EMPTY; WHITE; WHITE]] =
    piece_count board_capture - (if piece_eqb at_dest EMPTY then 0 else 1).
Proof.
  apply (@X6_result_never_adds_a_piece board_capture
           [[BLACK; EMPTY; BLACK]; [BLACK; EMPTY; EMPTY]; [EMPTY; WHITE; WHITE]]
           (0, 1) (1, 0)); reflexivity.
Defined.

(* ------------------------------------------------------------------ *)
(** *** Every legal move brings the game nearer to its end *)

Lemma sum_map_replace (f : piece -> Z) (row : list piece) (c : nat) (old v : piece) :
  nth_error row c = Some old ->
  sum_Z (map f (replace_nth row c v)) = sum_Z (map f row) - f old + f v.
Proof.
  revert c. induction row as [|x row IH]; intros [|c]; simpl; try discriminate.
  - intros [= ->]. rewrite !sum_Z_cons. lia.
  - intro H. rewrite !sum_Z_cons, (IH _ H). lia.
Qed.

Lemma steps_from_replace (m : Z) (board : Board) :
  forall (r : Z) (k : nat) (row row' : list piece),
    nth_error board k = Some row ->
    steps_from m r (replace_nth board k row') =
    steps_from m r board
    - sum_Z (map (steps_left m (r + Z.of_nat k)) row)
    + sum_Z (map (steps_left m (r + Z.of_nat k)) row').
Proof.
  induction board as [|x board IH]; intros r [|k] row row'; simpl; try discriminate.
  - intros [= ->]. rewrite Z.add_0_r. lia.
  - intro H. rewrite (IH (r + 1) k row row' H).
    replace (r + 1 + Z.of_nat k) with (r + Z.pos (Pos.of_succ_nat k)) by lia. lia.
Qed.

Lemma remaining_put (board : Board) (p : pos) (old v : piece) :
  is_grid board = true -> cell board p = Some old ->
  remaining (put board p v) =
  remaining board - steps_left (rows board) (fst p) old + steps_left (rows board) (fst p) v.
Proof.
  intros Hg Hc. unfold remaining.
  destruct (put_shape board p v Hg) as [_ [-> _]].
  unfold cell in Hc. unfold put.
  destruct (Z.leb_spec 0 (fst p)); simpl in Hc; [|discriminate].
  destruct (0 <=? snd p); simpl in Hc; [|discriminate].
  destruct (nth_error board (Z.to_nat (fst p))) as [row|] eqn:Hrow; [|discriminate].
  rewrite steps_from_replace with (row := row) by exact Hrow.
  rewrite sum_map_replace with (old := old) by exact Hc.
  rewrite Z.add_0_l, Z2Nat.id by assumption. lia.
Qed.

Lemma sum_Z_nonneg (l : list Z) : Forall (fun x => 0 <= x) l -> 0 <= sum_Z l.
Proof.
  induction 1 as [|x l Hx Hl IH]; [unfold sum_Z; simpl; lia|].
  rewrite sum_Z_cons. lia.
Qed.

Lemma steps_left_nonneg (m r : Z) (pc : piece) : 0 <= r < m -> 0 <= steps_left m r pc.
Proof. intro H. destruct pc; simpl; lia. Qed.

Lemma steps_from_nonneg (m : Z) (board : Board) :
  forall r, 0 <= r -> r + len board <= m -> 0 <= steps_from m r board.
Proof.
  induction board as [|row board IH]; intros r Hr Hlen; simpl; [lia|].
  unfold len in *. simpl length in Hlen.
  assert (H1 : 0 <= sum_Z (map (steps_left m r) row)).
  { apply sum_Z_nonneg. apply Forall_forall. intros x Hx.
    apply in_map_iff in Hx. destruct Hx as [pc [<- _]].
    apply steps_left_nonneg. lia. }
  assert (H2 : 0 <= steps_from m (r + 1) board) by (apply IH; lia).
  lia.
Qed.

Lemma remaining_nonneg (board : Board) : 0 <= remaining board.
Proof. unfold remaining, rows. apply steps_from_nonneg; lia. Qed.

Lemma legal_step_inv (board new_board : Board) (side : piece) (a : Action) :
  is_grid board = true -> legal_step board side a new_board ->
  side <> EMPTY /\ cell board (fst a) = Some side /\
  legal_dest board side (fst a) (snd a) /\
  new_board = put (put board (snd a) side) (fst a) EMPTY.
Proof.
  intros Hg [d [ds [Hact [Hget [Hin Hres]]]]].
  destruct (@actions_inv board side d Hg Hact) as [Hside ->].
  apply dict_get_spec_legal_moves in Hget; [|assumption].
  destruct Hget as [Hdep [-> _]]. apply in_spec_dests in Hin.
  destruct (@result_legal board side (fst a) (snd a) Hg Hside Hdep Hin)
    as [captured [_ [_ [_ [_ Hr]]]]].
  rewrite Hr in Hres. inversion Hres. auto.
Qed.

Lemma legal_step_grid (board new_board : Board) (side : piece) (a : Action) :
  is_grid board = true -> legal_step board side a new_board ->
  is_grid new_board = true.
Proof.
  intros Hg Hstep.
  destruct (@legal_step_inv board new_board side a Hg Hstep) as [_ [_ [_ ->]]].
  apply put_shape. now apply put_shape.
Qed.

Lemma legal_step_remaining (board new_board : Board) (side : piece) (a : Action) :
  is_grid board = true -> legal_step board side a new_board ->
  remaining new_board <= remaining board - 1.
Proof.
  intros Hg Hstep.
  destruct (@legal_step_inv board new_board side a Hg Hstep)
    as [Hside [Hdep [Hlegal ->]]].
  destruct (@result_legal board side (fst a) (snd a) Hg Hside Hdep Hlegal)
    as [captured [Hc [_ [_ [Hne _]]]]].
  pose proof (cell_Some_bounds _ _ Hg Hc) as [Hbr _].
  pose proof (cell_Some_bounds _ _ Hg Hdep) as [Hdr _].
  destruct (put_shape board (snd a) side Hg) as [Hg1 [Hrows1 _]].
  assert (Hold : cell (put board (snd a) side) (fst a) = Some side).
  { rewrite cell_put by (try assumption; eapply cell_Some_bounds; eassumption).
    rewrite pos_eqb_neq by congruence. exact Hdep. }
  rewrite remaining_put with (old := side) by assumption.
  rewrite remaining_put with (old := captured) by assumption.
  rewrite Hrows1.
  assert (Hrow : fst (snd a) = fst (fst a) + forward_dir side).
  { destruct Hlegal as [[-> _]|[[-> _]|[-> _]]]; reflexivity. }
  pose proof (@steps_left_nonneg (rows board) (fst (snd a)) captured Hbr) as Hcap.
  rewrite Hrow in *.
  destruct side; simpl steps_left; simpl forward_dir in *; try congruence; lia.
Qed.

(** X7.  On a grid, a legal move of either side (a move of the table of
    [actions], applied by [result]) gives a grid on which the pieces have
    strictly fewer rows left to go: [remaining] drops by at least one and
    never goes below zero, so the new board always differs from the old
    one. *)
Theorem X7_legal_move_progress (board new_board : Board) (side : piece) (a : Action) :
  is_grid board = true ->
  legal_step board side a new_board ->
  is_grid new_board = true /\
  0 <= remaining new_board <= remaining board - 1 /\
  new_board <> board.
Proof.
  intros Hg Hstep.
  pose proof (@legal_step_remaining board new_board side a Hg Hstep) as Hrem.
  split; [eapply legal_step_grid; eassumption|].
  split; [split; [apply remaining_nonneg|exact Hrem]|].
  intros ->. lia.
Qed.

Lemma X7_legal_move_progress_witness :
  is_grid [[BLACK; EMPTY; BLACK]; [BLACK; EMPTY; EMPTY]; [EMPTY; WHITE; WHITE]] = true /\
  0 <= remaining [[BLACK; EMPTY; BLACK]; [BLACK; EMPTY; EMPTY]; [EMPTY; WHITE; WHITE]]
    <= remaining board_capture - 1 /\
  [[BLACK; EMPTY; BLACK]; [BLACK; EMPTY; EMPTY]; [EMPTY; WHITE; WHITE]] <> board_capture.
Proof.
  apply (@X7_legal_move_progress board_capture
           [[BLACK; EMPTY; BLACK]; [BLACK; EMPTY; EMPTY]; [EMPTY; WHITE; WHITE]]
           BLACK ((0, 1), (1, 0))).
  - reflexivity.
  - exists [((0, 1), [(1, 1); (1, 0)]); ((0, 2), [(1, 2)])], [(1, 1); (1, 0)].
    repeat split. simpl. auto.
Defined.

Lemma legal_run_remaining (b b' : Board) (n : nat) :
  legal_run b n b' -> is_grid b = true ->
  is_grid b' = true /\ remaining b' + Z.of_nat n <= remaining b.
Proof.
  induction 1 as [b|b b1 b2 side a n Hstep Hrun IH]; intro Hg.
  - split; [assumption|lia].
  - pose proof (@legal_step_grid b b1 side a Hg Hstep) as Hg1.
    pose proof (@legal_step_remaining b b1 side a Hg Hstep) as Hrem.
    destruct (IH Hg1) as [Hg2 Hle]. split; [assumption|lia].
Qed.

(** X8.  A sequence of legal moves that starts from a grid has at most
    [remaining] moves, whoever moves in whatever order: no play goes on
    for ever, and a play of at least one move never comes back to the
    board it started from. *)
Theorem X8_play_is_bounded (b b' : Board) (n : nat) :
  is_grid b = true ->
  legal_run b n b' ->
  Z.of_nat n <= remaining b /\ (n <> O -> b' <> b).
Proof.
  intros Hg Hrun. destruct (@legal_run_remaining b b' n Hrun Hg) as [_ Hle].
  pose proof (remaining_nonneg b') as H0. split; [lia|].
  intros Hn ->. lia.
Qed.

Lemma X8_play_is_bounded_witness :
  Z.of_nat 1 <= remaining board_capture /\
  (1%nat <> O ->
   [[BLACK; EMPTY; BLACK]; [BLACK; EMPTY; EMPTY]; [EMPTY; WHITE; WHITE]] <> board_capture).
Proof.
  apply (@X8_play_is_bounded board_capture
           [[BLACK; EMPTY; BLACK]; [BLACK; EMPTY; EMPTY]; [EMPTY; WHITE; WHITE]] 1).
  - reflexivity.
  - eapply run_step with (side := BLACK) (a := ((0, 1), (1, 0))); [|apply run_nil].
    exists [((0, 1), [(1, 1); (1, 0)]); ((0, 2), [(1, 2)])], [(1, 1); (1, 0)].
    repeat split. simpl. auto.
Defined.

(* ------------------------------------------------------------------ *)
(** *** actions: the turn argument and the shape of the table *)

(** X9.  The turn argument: [next_player] exchanges the two sides and is
    its own inverse; an invalid turn makes it raise the assertion error
    "Invalid player turn.", and makes [actions] raise the same error on
    every board that has a row, while on the empty list [actions] raises
    IndexError whatever the turn.  On a grid [actions] raises in no other
    case. *)
Theorem X9_turn_argument (turn : piece) :
  (forall other, next_player turn = inr other ->
                 other <> turn /\ next_player other = inr turn) /\
  ((exists other, next_player turn = inr other) <-> turn <> EMPTY) /\
  next_player EMPTY = inl (AssertionError (Some "Invalid player turn."%string)) /\
  actions [] turn = inl IndexError /\
  (forall row rest,
     actions (row :: rest) EMPTY =
     inl (AssertionError (Some "Invalid player turn."%string))) /\
  (forall board, is_grid board = true ->
     ((exists d, actions board turn = inr d) <-> turn <> EMPTY)).
Proof.
  split; [|split; [|split; [|split; [|split]]]].
  - intros other H. destruct turn; inversion H; split; (discriminate || reflexivity).
  - split.
    + intros [other H] ->. discriminate.
    + intro H. destruct turn; [now exists BLACK|now exists WHITE|congruence].
  - reflexivity.
  - reflexivity.
  - reflexivity.
  - intros board Hg. split.
    + intros [d Hd]. now destruct (@actions_inv board turn d Hg Hd).
    + intro H. exists (spec_legal_moves board turn). now apply actions_grid.
Qed.

Lemma spec_entry_shape (board : Board) (side : piece) (p : pos) :
  spec_entry board side p = [] \/
  spec_entry board side p = [(p, spec_dests board side p)].
Proof.
  unfold spec_entry. destruct (holds board p side); [|now left].
  destruct (spec_dests board side p); [now left|now right].
Qed.

Lemma keys_of_entries (board : Board) (side : piece) (ps : list pos) :
  map fst (flat_map (spec_entry board side) ps) =
  filter (fun p => match spec_entry board side p with [] => false | _ => true end) ps.
Proof.
  induction ps as [|p ps IH]; simpl; [reflexivity|].
  rewrite map_app, IH.
  destruct (spec_entry_shape board side p) as [E|E]; rewrite E; reflexivity.
Qed.

Lemma spec_dests_short (board : Board) (side : piece) (src : pos) :
  (length (spec_dests board side src) <= 3)%nat.
Proof.
  unfold spec_dests. cbv zeta.
  destruct (holds board _ EMPTY);
    destruct (holds board (_, snd src - 1) (opposing side));
    destruct (holds board (_, snd src + 1) (opposing side)); simpl; lia.
Qed.

Lemma opposing_neq (side : piece) : side <> EMPTY -> opposing side <> side.
Proof. destruct side; simpl; congruence. Qed.

(** X10.  The table [actions] returns on a grid: no key occurs twice and
    no move occurs twice; every key holds a piece of the side; every list
    of destinations is non-empty, has at most three entries and no
    repetition; and every destination is in bounds, exactly one row
    forward of its source (row - 1 for white, row + 1 for black), at most
    one column aside, and never a cell that holds a piece of the moving
    side. *)
Theorem X10_actions_table_shape (board : Board) (side : piece) (d : moves_dict) :
  is_grid board = true ->
  actions board side = inr d ->
  NoDup (map fst d) /\
  NoDup (flatten_moves d) /\
  forall src ds, In (src, ds) d ->
    cell board src = Some side /\
    ds <> [] /\ (length ds <= 3)%nat /\ NoDup ds /\
    forall q, In q ds ->
      in_bounds board q /\
      fst q = fst src + forward_dir side /\
      snd src - 1 <= snd q <= snd src + 1 /\
      cell board q <> Some side.
Proof.
  intros Hg Hact. destruct (@actions_inv board side d Hg Hact) as [Hside ->].
  split; [|split].
  - unfold spec_legal_moves. rewrite keys_of_entries.
    apply NoDup_filter, NoDup_positions.
  - apply NoDup_legal_moves.
  - intros src ds Hin. unfold spec_legal_moves in Hin.
    apply in_flat_map in Hin. destruct Hin as [p [_ He]].
    apply spec_entry_key in He. simpl in He. destruct He as [-> [-> [Hne Hh]]].
    split; [now apply holds_iff|]. split; [assumption|].
    split; [apply spec_dests_short|]. split; [apply NoDup_spec_dests|].
    intros q Hq. apply in_spec_dests in Hq.
    pose proof (opposing_neq Hside) as Hopp.
    destruct Hq as [[-> Hc]|[[-> Hc]|[-> Hc]]];
      (split; [eapply cell_Some_bounds; eassumption|]);
      simpl; (split; [reflexivity|]); (split; [lia|]);
      rewrite Hc; congruence.
Qed.

Lemma X10_actions_table_shape_witness :
  NoDup (map fst [((0, 1), [(1, 1); (1, 0)]); ((0, 2), [(1, 2)])]) /\
  NoDup (flatten_moves [((0, 1), [(1, 1); (1, 0)]); ((0, 2), [(1, 2)])]) /\
  forall src ds, In (src, ds) [((0, 1), [(1, 1); (1, 0)]); ((0, 2), [(1, 2)])] ->
    cell board_capture src = Some BLACK /\
    ds <> [] /\ (length ds <= 3)%nat /\ NoDup ds /\
    forall q, In q ds ->
      in_bounds board_capture q /\
      fst q = fst src + forward_dir BLACK /\
      snd src - 1 <= snd q <= snd src + 1 /\
      cell board_capture q <> Some BLACK.
Proof.
  apply (@X10_actions_table_shape board_capture BLACK
           [((0, 1), [(1, 1); (1, 0)]); ((0, 2), [(1, 2)])]); reflexivity.
Defined.

(* ------------------------------------------------------------------ *)
(** *** Reaching the far row wins *)

Lemma legal_step_cells (board new_board : Board) (side : piece) (a : Action) :
  is_grid board = true -> legal_step board side a new_board ->
  is_grid new_board = true /\ rows new_board = rows board /\
  in_bounds board (fst a) /\ in_bounds board (snd a) /\ side <> EMPTY /\
  forall q, cell new_board q =
            if pos_eqb (fst a) q then Some EMPTY
            else if pos_eqb (snd a) q then Some side else cell board q.
Proof.
  intros Hg Hstep.
  destruct (@legal_step_inv board new_board side a Hg Hstep)
    as [Hside [Hdep [Hlegal ->]]].
  destruct (@result_legal board side (fst a) (snd a) Hg Hside Hdep Hlegal)
    as [captured [Hc _]].
  pose proof (cell_Some_bounds _ _ Hg Hdep) as Hbd.
  pose proof (cell_Some_bounds _ _ Hg Hc) as Hbq.
  destruct (put_shape board (snd a) side Hg) as [Hg1 [Hrows1 _]].
  destruct (put_shape (put board (snd a) side) (fst a) EMPTY Hg1) as [Hg2 [Hrows2 _]].
  split; [exact Hg2|]. split; [congruence|].
  split; [exact Hbd|]. split; [exact Hbq|]. split; [exact Hside|].
  intro q. now apply cell_after_move.
Qed.

Lemma terminal_won (board : Board) (turn winner : piece) :
  is_grid board = true ->
  (winner = WHITE /\ white_reached_top board \/
   winner = BLACK /\ ~ white_reached_top board /\ black_reached_bottom board) ->
  terminal board turn = inr true /\ utility board turn = inr winner.
Proof.
  intros Hg Hwin.
  destruct (terminal_grid board turn Hg) as [wt [bb [Hwt [Hbb [Hterm Hutil]]]]].
  rewrite Hterm, Hutil.
  destruct Hwin as [[-> Hw]|[-> [Hnw Hb]]].
  - apply Hwt in Hw. subst wt. auto.
  - apply Hbb in Hb. subst bb.
    destruct wt; [elim Hnw; now apply Hwt|]. auto.
Qed.

(** X11.  A legal move of white onto row 0 ends the game in white's
    favour: on the board [result] returns, [terminal] is true and
    [utility] is white, whoever is to move. *)
Theorem X11_white_reaches_top (board new_board : Board) (a : Action) (turn : piece) :
  is_grid board = true ->
  legal_step board WHITE a new_board ->
  fst (snd a) = 0 ->
  terminal new_board turn = inr true /\ utility new_board turn = inr WHITE.
Proof.
  intros Hg Hstep Hrow.
  destruct (@legal_step_cells board new_board WHITE a Hg Hstep)
    as [Hg' [_ [_ [_ [_ Hcells]]]]].
  apply terminal_won; [assumption|]. left. split; [reflexivity|].
  exists (snd (snd a)). rewrite Hcells.
  assert (Hd : (0, snd (snd a)) = snd a) by (rewrite <- Hrow; now destruct (snd a)).
  rewrite Hd, pos_eqb_refl.
  destruct (pos_eqb (fst a) (snd a)) eqn:E; [|reflexivity].
  apply pos_eqb_eq in E.
  destruct (@legal_step_inv board new_board WHITE a Hg Hstep) as [_ [_ [Hl _]]].
  assert (fst (snd a) = fst (fst a) + forward_dir WHITE)
    by (destruct Hl as [[-> _]|[[-> _]|[-> _]]]; reflexivity).
  rewrite E in H. simpl in H. lia.
Qed.

Lemma X11_white_reaches_top_witness :
  terminal [[EMPTY; WHITE; BLACK]; [BLACK; EMPTY; EMPTY]; [EMPTY; EMPTY; WHITE]] BLACK =
    inr true /\
  utility [[EMPTY; WHITE; BLACK]; [BLACK; EMPTY; EMPTY]; [EMPTY; EMPTY; WHITE]] BLACK =
    inr WHITE.
Proof.
  apply (@X11_white_reaches_top board_white_wins_next
           [[EMPTY; WHITE; BLACK]; [BLACK; EMPTY; EMPTY]; [EMPTY; EMPTY; WHITE]]
           ((1, 1), (0, 1)) BLACK).
  - reflexivity.
  - exists [((1, 1), [(0, 1); (0, 2)]); ((2, 2), [(1, 2)])], [(0, 1); (0, 2)].
    repeat split. simpl. auto.
  - reflexivity.
Defined.

(** X12.  A legal move of black onto the last row, on a board where no
    white piece stands on row 0, ends the game in black's favour: on the
    board [result] returns, [terminal] is true and [utility] is black,
    whoever is to move.  (With a white piece on row 0 [utility] answers
    white first.) *)
Theorem X12_black_reaches_bottom (board new_board : Board) (a : Action) (turn : piece) :
  is_grid board = true ->
  legal_step board BLACK a new_board ->
  fst (snd a) = rows board - 1 ->
  ~ white_reached_top board ->
  terminal new_board turn = inr true /\ utility new_board turn = inr BLACK.
Proof.
  intros Hg Hstep Hrow Hnw.
  destruct (@legal_step_cells board new_board BLACK a Hg Hstep)
    as [Hg' [Hrows [_ [_ [_ Hcells]]]]].
  destruct (@legal_step_inv board new_board BLACK a Hg Hstep) as [_ [_ [Hl _]]].
  assert (Hfwd : fst (snd a) = fst (fst a) + 1)
    by (destruct Hl as [[-> _]|[[-> _]|[-> _]]]; reflexivity).
  assert (Hne : pos_eqb (fst a) (snd a) = false).
  { apply pos_eqb_neq. intro E. rewrite <- E in Hfwd. lia. }
  apply terminal_won; [assumption|]. right. split; [reflexivity|]. split.
  - intros [j Hj]. rewrite Hcells in Hj.
    destruct (pos_eqb (fst a) (0, j)); [discriminate|].
    destruct (pos_eqb (snd a) (0, j)); [discriminate|].
    apply Hnw. now exists j.
  - exists (snd (snd a)). rewrite Hcells, Hrows.
    assert (Hd : (rows board - 1, snd (snd a)) = snd a)
      by (rewrite <- Hrow; now destruct (snd a)).
    now rewrite Hd, Hne, pos_eqb_refl.
Qed.

Lemma X12_black_reaches_bottom_witness :
  terminal [[EMPTY; EMPTY; EMPTY]; [EMPTY; EMPTY; WHITE]; [BLACK; EMPTY; EMPTY]] WHITE =
    inr true /\
  utility [[EMPTY; EMPTY; EMPTY]; [EMPTY; EMPTY; WHITE]; [BLACK; EMPTY; EMPTY]] WHITE =
    inr BLACK.
Proof.
  apply (@X12_black_reaches_bottom board_black_wins_next
           [[EMPTY; EMPTY; EMPTY]; [EMPTY; EMPTY; WHITE]; [BLACK; EMPTY; EMPTY]]
           ((1, 0), (2, 0)) WHITE).
  - reflexivity.
  - exists [((1, 0), [(2, 0)])], [(2, 0)].
    repeat split. simpl. auto.
  - reflexivity.
  - intro H.
    apply (@existsb_row board_black_wins_next O [EMPTY; EMPTY; EMPTY] WHITE eq_refl) in H.
    discriminate.
Defined.

(* ------------------------------------------------------------------ *)
(** *** gui.py: the test for a white pawn *)


Lemma legal_step_intro (board : Board) (side : piece) (a : Action) :
  is_grid board = true -> side <> EMPTY ->
  cell board (fst a) = Some side -> legal_dest board side (fst a) (snd a) ->
  exists new_board,
    result board (fst a) (snd a) = inr new_board /\ legal_step board side a new_board.
Proof.
  intros Hg Hside Hc Hl.
  destruct (@result_legal board side (fst a) (snd a) Hg Hside Hc Hl)
    as [captured [_ [_ [_ [_ Hres]]]]].
  eexists. split; [exact Hres|].
  exists (spec_legal_moves board side), (spec_dests board side (fst a)).
  split; [now apply actions_grid|]. split; [|split; [|exact Hres]].
  - apply dict_get_spec_legal_moves; [assumption|]. repeat split; [assumption|].
    apply in_spec_dests in Hl. intro E. rewrite E in Hl. destruct Hl.
  - now apply in_spec_dests.
Qed.

(** [is_white_pawn] on a 3 x 3 grid. *)
Lemma is_white_pawn_grid3 (board : Board) (index : pos) :
  is_grid board = true -> rows board = ROWS -> cols board = ROWS ->
  exists b, is_white_pawn board index = inr b /\
            (b = true <-> cell board index = Some WHITE).
Proof.
  intros Hg Hr Hc. unfold is_white_pawn.
  destruct (in_range 0 (fst index) ROWS && in_range 0 (snd index) ROWS) eqn:Hin.
  - apply andb_true_iff in Hin. rewrite !in_range_iff in Hin. destruct Hin as [H1 H2].
    rewrite <- Hr in H1. rewrite <- Hc in H2.
    destruct (cell_in_bounds board Hg H1 H2) as [x Hx].
    rewrite cell_getitem2 by lia. rewrite Hx. simpl.
    exists (piece_eqb x WHITE). split; [reflexivity|].
    replace (fst index, snd index) with index in Hx by (now destruct index).
    rewrite Hx, piece_eqb_eq. split; congruence.
  - exists false. split; [reflexivity|]. split; [discriminate|].
    intro Hcell. apply cell_Some_bounds in Hcell; [|assumption].
    rewrite Hr, Hc in Hcell. destruct Hcell as [H1 H2].
    apply in_range_iff in H1, H2. rewrite H1, H2 in Hin. discriminate.
Qed.

(** X14.  On a 3 x 3 grid [is_white_pawn] never raises, whatever the
    index: it answers true exactly when the index is a cell of the board
    that holds a white pawn, and false for every index outside the
    board. *)
Theorem X14_is_white_pawn_total (board : Board) (index : pos) :
  is_grid board = true -> rows board = ROWS -> cols board = ROWS ->
  exists b, is_white_pawn board index = inr b /\
            (b = true <-> cell board index = Some WHITE).
Proof. exact (@is_white_pawn_grid3 board index). Qed.

Lemma X14_is_white_pawn_total_witness :
  exists b, is_white_pawn board_start (-1, 3) = inr b /\
            (b = true <-> cell board_start (-1, 3) = Some WHITE).
Proof.
  apply (@X14_is_white_pawn_total board_start (-1, 3)); reflexivity.
Defined.

(* ------------------------------------------------------------------ *)
(** *** gui.py: tiles, pixels and pawns *)

Lemma clicked_index_iff (x y a b : Z) :
  clicked_index (x, y) = (a, b) <->
  BORDER_GAP + TILE_SIZE * b <= x < BORDER_GAP + TILE_SIZE * (b + 1) /\
  BORDER_GAP + TILE_SIZE * a <= y < BORDER_GAP + TILE_SIZE * (a + 1).
Proof.
  unfold clicked_index, BORDER_GAP, TILE_SIZE, GAP. simpl fst; simpl snd.
  change (1 * 50) with 50. split.
  - intros [= Ha Hb]. subst a b. split.
    + pose proof (Z.mul_div_le (x - 50) 120 ltac:(lia)).
      pose proof (Z.mul_succ_div_gt (x - 50) 120 ltac:(lia)). lia.
    + pose proof (Z.mul_div_le (y - 50) 120 ltac:(lia)).
      pose proof (Z.mul_succ_div_gt (y - 50) 120 ltac:(lia)). lia.
  - intros [Hx Hy]. f_equal.
    + symmetry. apply Z.div_unique with (r := y - 50 - 120 * a); lia.
    + symmetry. apply Z.div_unique with (r := x - 50 - 120 * b); lia.
Qed.

Lemma collide_tile (a b x y : Z) :
  collidepoint (tile_rect a b) x y = true <->
  BORDER_GAP + TILE_SIZE * b <= x < BORDER_GAP + TILE_SIZE * b + (TILE_SIZE - 2) /\
  BORDER_GAP + TILE_SIZE * a <= y < BORDER_GAP + TILE_SIZE * a + (TILE_SIZE - 2).
Proof.
  unfold collidepoint, tile_rect. simpl.
  rewrite !andb_true_iff, !Z.leb_le, !Z.ltb_lt. tauto.
Qed.

Lemma collide_pawn (a b x y : Z) :
  collidepoint (pawn_rect_at a b) x y = true <->
  BORDER_GAP + TILE_SIZE * b + 9 <= x < BORDER_GAP + TILE_SIZE * b + 109 /\
  BORDER_GAP + TILE_SIZE * a + 9 <= y < BORDER_GAP + TILE_SIZE * a + 109.
Proof.
  unfold collidepoint, pawn_rect_at. simpl.
  rewrite !andb_true_iff, !Z.leb_le, !Z.ltb_lt. lia.
Qed.

(** X21.  Tiles and clicks round-trip.  [tessellate(TILE_SIZE,
    TILE_SIZE)] builds a 3 x 3 table whose entry (a, b) is the rectangle
    at (50 + 120 b, 50 + 120 a) of size 118 x 118, provided
    pygame.draw.rect returns the rectangle it draws when that lies inside
    the window; and [clicked_index] maps every pixel of the tile (a, b),
    and more generally every pixel of the 120 x 120 square that starts
    there, back to (a, b), and no other pixel. *)
Theorem X21_tiles_and_clicks (draw_rect : Rect -> Rect) :
  (forall r, inside_screen r -> draw_rect r = r) ->
  tessellate draw_rect TILE_SIZE TILE_SIZE = inr table3 /\
  (forall a b, 0 <= a < ROWS -> 0 <= b < ROWS ->
     exists row, nth_error table3 (Z.to_nat a) = Some row /\
                 nth_error row (Z.to_nat b) = Some (tile_rect a b)) /\
  (forall a b x y, collidepoint (tile_rect a b) x y = true ->
                   clicked_index (x, y) = (a, b)) /\
  (forall a b x y,
     clicked_index (x, y) = (a, b) <->
     BORDER_GAP + TILE_SIZE * b <= x < BORDER_GAP + TILE_SIZE * (b + 1) /\
     BORDER_GAP + TILE_SIZE * a <= y < BORDER_GAP + TILE_SIZE * (a + 1)).
Proof.
  intro Hdraw. split; [|split; [|split]].
  - unfold tessellate, range_step. simpl.
    rewrite !Hdraw
      by (unfold inside_screen, DIMENSION, BOARD_WIDTH, BORDER_GAP, ROWS, TILE_SIZE, GAP;
          simpl; lia).
    reflexivity.
  - intros a b Ha Hb. unfold ROWS in *.
    assert (Ha' : a = 0 \/ a = 1 \/ a = 2) by lia.
    assert (Hb' : b = 0 \/ b = 1 \/ b = 2) by lia.
    destruct Ha' as [-> | [-> | ->]]; destruct Hb' as [-> | [-> | ->]];
      eexists; split; reflexivity.
  - intros a b x y H. apply collide_tile in H. apply clicked_index_iff.
    unfold BORDER_GAP, TILE_SIZE, GAP in *. lia.
  - intros a b x y. apply clicked_index_iff.
Qed.

Lemma X21_tiles_and_clicks_witness :
  tessellate (fun r => r) TILE_SIZE TILE_SIZE = inr table3 /\
  (forall a b, 0 <= a < ROWS -> 0 <= b < ROWS ->
     exists row, nth_error table3 (Z.to_nat a) = Some row /\
                 nth_error row (Z.to_nat b) = Some (tile_rect a b)) /\
  (forall a b x y, collidepoint (tile_rect a b) x y = true ->
                   clicked_index (x, y) = (a, b)) /\
  (forall a b x y,
     clicked_index (x, y) = (a, b) <->
     BORDER_GAP + TILE_SIZE * b <= x < BORDER_GAP + TILE_SIZE * (b + 1) /\
     BORDER_GAP + TILE_SIZE * a <= y < BORDER_GAP + TILE_SIZE * (a + 1)).
Proof.
  apply (@X21_tiles_and_clicks (fun r => r)). reflexivity.
Defined.

Lemma c_int_small (z : Z) : c_int_range z -> c_int z = z.
Proof.
  unfold c_int_range, c_int. intro H. rewrite Z.mod_small by lia. lia.
Qed.

Lemma pawn_on_tile (a b : Z) :
  0 <= a < ROWS -> 0 <= b < ROWS ->
  set_topleft white_rect (fit_piece (tile_rect a b) white_rect) = pawn_rect_at a b /\
  set_topleft black_rect (fit_piece (tile_rect a b) black_rect) = pawn_rect_at a b.
Proof.
  intros Ha Hb.
  assert (H : fit_piece (tile_rect a b) white_rect =
              (BORDER_GAP + TILE_SIZE * b + 9, BORDER_GAP + TILE_SIZE * a + 9)).
  { unfold fit_piece, topleft, bottomright, tile_rect, white_rect, COIN_SIZE.
    cbn [fst snd rect_left rect_top rect_width rect_height].
    rewrite c_int_small
      by (unfold c_int_range, BORDER_GAP, TILE_SIZE, GAP, ROWS in *; lia).
    replace (BORDER_GAP + TILE_SIZE * b + (TILE_SIZE - 2)
             - (BORDER_GAP + TILE_SIZE * b) - 100) with 18
      by (unfold TILE_SIZE; lia).
    reflexivity. }
  split; [rewrite H; reflexivity|].
  change black_rect with white_rect. rewrite H. reflexivity.
Qed.

(** X22.  [fit_piece] puts a piece in the middle of a box across, as
    long as the right edge of the box (left + width) is in the range of a
    C int: with box width W and piece width w the left margin is the floor
    of (W - w) / 2 and the right margin is that or one more; the same
    offset is used downwards.  A pawn image of 100 x 100 lands 9 pixels
    inside each of the nine 118 x 118 tiles on every side.  Past the
    range the right edge wraps around and the piece lands elsewhere: for
    the box at left 2147483638 of width 50 and a piece of width 1, at
    (14, -2147483624). *)
Theorem X22_fit_piece_centres (box piece : Rect) :
  is_rect box -> is_rect piece ->
  c_int_range (rect_left box + rect_width box) ->
  (exists offset,
     fit_piece box piece = (rect_left box + offset, rect_top box + offset) /\
     offset = (rect_width box - rect_width piece) / 2 /\
     offset <= (rect_left box + rect_width box)
               - (rect_left box + offset + rect_width piece) <= offset + 1) /\
  (forall a b, 0 <= a < ROWS -> 0 <= b < ROWS ->
     set_topleft white_rect (fit_piece (tile_rect a b) white_rect) = pawn_rect_at a b /\
     set_topleft black_rect (fit_piece (tile_rect a b) black_rect) = pawn_rect_at a b) /\
  fit_piece (mkRect 2147483638 0 50 5) (mkRect 0 0 1 1) = (14, -2147483624).
Proof.
  intros _ _ Hedge. split; [|split].
  - exists ((rect_width box - rect_width piece) / 2).
    split; [|split; [reflexivity|]].
    + unfold fit_piece, topleft, bottomright.
      cbn [fst snd]. rewrite c_int_small by assumption.
      replace (rect_left box + rect_width box - rect_left box) with (rect_width box) by lia.
      reflexivity.
    + pose proof (Z.mul_div_le (rect_width box - rect_width piece) 2 ltac:(lia)).
      pose proof (Z.mul_succ_div_gt (rect_width box - rect_width piece) 2 ltac:(lia)).
      lia.
  - intros a b Ha Hb. now apply pawn_on_tile.
  - reflexivity.
Qed.

Lemma X22_fit_piece_centres_witness :
  (exists offset,
     fit_piece (mkRect 50 50 118 118) (mkRect 0 0 101 100) =
       (rect_left (mkRect 50 50 118 118) + offset,
        rect_top (mkRect 50 50 118 118) + offset) /\
     offset = (rect_width (mkRect 50 50 118 118) - rect_width (mkRect 0 0 101 100)) / 2 /\
     offset <= (rect_left (mkRect 50 50 118 118) + rect_width (mkRect 50 50 118 118))
               - (rect_left (mkRect 50 50 118 118) + offset
                  + rect_width (mkRect 0 0 101 100)) <= offset + 1) /\
  (forall a b, 0 <= a < ROWS -> 0 <= b < ROWS ->
     set_topleft white_rect (fit_piece (tile_rect a b) white_rect) = pawn_rect_at a b /\
     set_topleft black_rect (fit_piece (tile_rect a b) black_rect) = pawn_rect_at a b) /\
  fit_piece (mkRect 2147483638 0 50 5) (mkRect 0 0 1 1) = (14, -2147483624).
Proof.
  apply (@X22_fit_piece_centres (mkRect 50 50 118 118) (mkRect 0 0 101 100)).
  - unfold is_rect, c_int_range. simpl. lia.
  - unfold is_rect, c_int_range. simpl. lia.
  - unfold c_int_range. simpl. lia.
Defined.

Lemma list3_form {A} (l : list A) :
  length l = 3%nat -> exists x y z, l = [x; y; z].
Proof.
  destruct l as [|x [|y [|z [|w l]]]]; simpl; intro H; try discriminate. eauto.
Qed.

Lemma grid3_form (board : Board) :
  is_grid board = true -> rows board = ROWS -> cols board = ROWS ->
  exists c00 c01 c02 c10 c11 c12 c20 c21 c22,
    board = [[c00; c01; c02]; [c10; c11; c12]; [c20; c21; c22]].
Proof.
  intros Hg Hr Hc. apply is_grid_forall in Hg. destruct Hg as [_ Hrowlen].
  unfold rows, len, ROWS in Hr.
  destruct (@list3_form _ board) as [r0 [r1 [r2 ->]]]; [lia|].
  assert (Hlen : forall row, In row [r0; r1; r2] -> length row = 3%nat).
  { intros row Hin. apply Hrowlen in Hin. unfold len, ROWS in *. lia. }
  destruct (@list3_form _ r0) as [c00 [c01 [c02 ->]]]; [apply Hlen; simpl; auto|].
  destruct (@list3_form _ r1) as [c10 [c11 [c12 ->]]]; [apply Hlen; simpl; auto|].
  destruct (@list3_form _ r2) as [c20 [c21 [c22 ->]]]; [apply Hlen; simpl; auto|].
  do 9 eexists. reflexivity.
Qed.

Lemma locate_tile_entry (board : Board) (i j : Z) (c : piece)
    (pawns : list (Surface * Rect)) :
  0 <= i < ROWS -> 0 <= j < ROWS ->
  getitem2 board (i, j) = inr c ->
  locate_tile board i j (tile_rect i j) pawns = inr (pawns ++ pawn_entry c i j).
Proof.
  intros Hi Hj Hc. unfold locate_tile. rewrite Hc. simpl bind.
  destruct (pawn_on_tile Hi Hj) as [Hw Hb].
  destruct c; simpl.
  - now rewrite Hw.
  - now rewrite Hb.
  - now rewrite app_nil_r.
Qed.

(** The pawns of a 3 x 3 board, cell by cell in row-major order. *)
Lemma locate_pawns_grid3 (board : Board) :
  is_grid board = true -> rows board = ROWS -> cols board = ROWS ->
  locate_pawns board table3 =
  inr (flat_map (fun p => match cell board p with
                          | Some c => pawn_entry c (fst p) (snd p)
                          | None => []
                          end)
                (positions board)).
Proof.
  intros Hg Hr Hc.
  destruct (grid3_form board Hg Hr Hc)
    as [c00 [c01 [c02 [c10 [c11 [c12 [c20 [c21 [c22 ->]]]]]]]]].
  set (board := [[c00; c01; c02]; [c10; c11; c12]; [c20; c21; c22]]).
  unfold locate_pawns, table3, enumerate.
  cbn [map enumerate_from for_each fst snd].
  change (0 + 1) with 1. change (1 + 1) with 2.
  do 9 (erewrite locate_tile_entry by (reflexivity || (unfold ROWS; lia));
        cbn [bind ret]).
  assert (Hrhs :
    flat_map (fun p : pos => match cell board p with
                             | Some c => pawn_entry c (fst p) (snd p)
                             | None => []
                             end)
             (positions board) =
    pawn_entry c00 0 0 ++ pawn_entry c01 0 1 ++ pawn_entry c02 0 2 ++
    pawn_entry c10 1 0 ++ pawn_entry c11 1 1 ++ pawn_entry c12 1 2 ++
    pawn_entry c20 2 0 ++ pawn_entry c21 2 1 ++ pawn_entry c22 2 2 ++ [])
    by reflexivity.
  rewrite Hrhs. unfold ret. f_equal.
  rewrite <- !app_assoc. rewrite app_nil_r. reflexivity.
Qed.

Lemma in_pawn_entry (c : piece) (a b : Z) (img : Surface) (r : Rect) :
  In (img, r) (pawn_entry c a b) <->
  r = pawn_rect_at a b /\
  (img = white_img /\ c = WHITE \/ img = black_img /\ c = BLACK).
Proof.
  destruct c; simpl; split.
  - intros [[= <- <-]|[]]. auto.
  - intros [-> [[-> _]|[_ H]]]; [now left|discriminate].
  - intros [[= <- <-]|[]]. auto.
  - intros [-> [[_ H]|[-> _]]]; [discriminate|now left].
  - intros [].
  - intros [_ [[_ H]|[_ H]]]; discriminate.
Qed.

Lemma length_pawn_entry (c : piece) (a b : Z) : len (pawn_entry c a b) = occ c.
Proof. now destruct c. Qed.

(** X23.  On a 3 x 3 board [locate_pawns] never raises and returns as
    many pawns as the board has pieces: for each occupied cell (a, b),
    and for no other, one pawn with the image of the cell's colour and the
    100 x 100 rectangle that sits 9 pixels inside the tile (a, b). *)
Theorem X23_locate_pawns (board : Board) :
  is_grid board = true -> rows board = ROWS -> cols board = ROWS ->
  exists pawns,
    locate_pawns board table3 = inr pawns /\
    len pawns = piece_count board /\
    forall img r,
      In (img, r) pawns <->
      exists a b, r = pawn_rect_at a b /\
                  (img = white_img /\ cell board (a, b) = Some WHITE \/
                   img = black_img /\ cell board (a, b) = Some BLACK).
Proof.
  intros Hg Hr Hc. eexists. split; [now apply locate_pawns_grid3|]. split.
  - destruct (grid3_form board Hg Hr Hc)
      as [c00 [c01 [c02 [c10 [c11 [c12 [c20 [c21 [c22 ->]]]]]]]]].
    set (board := [[c00; c01; c02]; [c10; c11; c12]; [c20; c21; c22]]).
    assert (Hrhs :
      flat_map (fun p : pos => match cell board p with
                               | Some c => pawn_entry c (fst p) (snd p)
                               | None => []
                               end)
               (positions board) =
      pawn_entry c00 0 0 ++ pawn_entry c01 0 1 ++ pawn_entry c02 0 2 ++
      pawn_entry c10 1 0 ++ pawn_entry c11 1 1 ++ pawn_entry c12 1 2 ++
      pawn_entry c20 2 0 ++ pawn_entry c21 2 1 ++ pawn_entry c22 2 2 ++ [])
      by reflexivity.
    rewrite Hrhs. unfold len. rewrite !length_app.
    rewrite !Nat2Z.inj_add.
    repeat match goal with
           | |- context [Z.of_nat (length (pawn_entry ?c ?a ?b))] =>
               change (Z.of_nat (length (pawn_entry c a b))) with (len (pawn_entry c a b));
               rewrite (length_pawn_entry c a b)
           end.
    unfold board. rewrite !piece_count_cons, !row_count_cons.
    change (piece_count []) with 0. change (row_count []) with 0.
    simpl length. rewrite ?(length_pawn_entry c00 0 0). lia.
  - intros img r. rewrite in_flat_map. split.
    + intros [p [_ Hin]].
      destruct (cell board p) as [c|] eqn:Hcell; [|destruct Hin].
      apply in_pawn_entry in Hin. destruct Hin as [-> Hcol].
      exists (fst p), (snd p).
      replace (fst p, snd p) with p by (now destruct p).
      split; [reflexivity|]. rewrite Hcell.
      destruct Hcol as [[-> ->]|[-> ->]]; auto.
    + intros [a [b [-> Hcol]]]. exists (a, b).
      assert (Hcell : exists c, cell board (a, b) = Some c)
        by (destruct Hcol as [[_ H]|[_ H]]; eauto).
      destruct Hcell as [c Hcell]. split.
      * apply in_positions. eapply cell_Some_bounds; eassumption.
      * rewrite Hcell. simpl fst; simpl snd. apply in_pawn_entry.
        split; [reflexivity|]. rewrite Hcell in Hcol.
        destruct Hcol as [[-> [= ->]]|[-> [= ->]]]; auto.
Qed.

Lemma X23_locate_pawns_witness :
  exists pawns,
    locate_pawns board_start table3 = inr pawns /\
    len pawns = piece_count board_start /\
    forall img r,
      In (img, r) pawns <->
      exists a b, r = pawn_rect_at a b /\
                  (img = white_img /\ cell board_start (a, b) = Some WHITE \/
                   img = black_img /\ cell board_start (a, b) = Some BLACK).
Proof.
  apply (@X23_locate_pawns board_start); reflexivity.
Defined.

Lemma clicked_pawn_hit (pawns : list (Surface * Rect)) (x y : Z) (r : Rect) :
  (exists img, In (img, r) pawns) ->
  collidepoint r x y = true ->
  (forall img r', In (img, r') pawns -> collidepoint r' x y = true -> r' = r) ->
  clicked_pawn pawns (x, y) = inr r.
Proof.
  induction pawns as [|[img0 r0] pawns IH]; intros [img Hin] Hr Huniq.
  - destruct Hin.
  - simpl. destruct (collidepoint r0 x y) eqn:E.
    + unfold ret. f_equal. apply (Huniq img0); [now left|assumption].
    + apply IH.
      * destruct Hin as [[= _ <-]|Hin]; [congruence|eauto].
      * assumption.
      * intros img' r' H. apply (Huniq img'). now right.
Qed.

Lemma clicked_pawn_miss (pawns : list (Surface * Rect)) (x y : Z) :
  (forall img r, In (img, r) pawns -> collidepoint r x y = false) ->
  clicked_pawn pawns (x, y) = inl (AssertionError (Some "No pawn was clicked."%string)).
Proof.
  induction pawns as [|[img0 r0] pawns IH]; intro Hmiss; [reflexivity|].
  simpl. rewrite (Hmiss img0 r0) by now left.
  apply IH. intros img r H. apply (Hmiss img). now right.
Qed.

Lemma collide_pawn_index (a b x y : Z) :
  collidepoint (pawn_rect_at a b) x y = true -> clicked_index (x, y) = (a, b).
Proof.
  intro H. apply collide_pawn in H. apply clicked_index_iff.
  unfold BORDER_GAP, TILE_SIZE, GAP in *. lia.
Qed.

(** X24.  gui.py's press handler on a 3 x 3 board, with the pawns
    [locate_pawns] found for it.  A press on a square that holds no white
    pawn (or outside the board) does nothing.  A press on the square
    (a, b) of a white pawn selects (a, b) and that pawn when the pixel
    lies on the 100 x 100 image; when it lies on the rim of the square
    around the image - the 9 pixels to the left of and above it, the 11
    to the right of and below it - [clicked_pawn] finds no pawn and the
    handler raises the assertion error "No pawn was clicked.". *)
Theorem X24_press_on_the_rim (board : Board) (pawns : list (Surface * Rect))
    (x y : Z) :
  is_grid board = true -> rows board = ROWS -> cols board = ROWS ->
  locate_pawns board table3 = inr pawns ->
  (cell board (clicked_index (x, y)) <> Some WHITE ->
   gui_mouse_down board pawns (x, y) = inr None) /\
  (forall a b,
     clicked_index (x, y) = (a, b) -> cell board (a, b) = Some WHITE ->
     gui_mouse_down board pawns (x, y) =
     if collidepoint (pawn_rect_at a b) x y
     then inr (Some ((a, b), pawn_rect_at a b))
     else inl (AssertionError (Some "No pawn was clicked."%string))).
Proof.
  intros Hg Hr Hc Hloc.
  rewrite locate_pawns_grid3 in Hloc by assumption.
  assert (Hin : forall img r, In (img, r) pawns ->
                              exists a b, r = pawn_rect_at a b).
  { inversion Hloc as [Hp]. intros img r H. apply in_flat_map in H.
    destruct H as [p [_ H]]. destruct (cell board p) as [c|]; [|destruct H].
    apply in_pawn_entry in H. destruct H as [-> _]. eauto. }
  assert (Hhas : forall a b, cell board (a, b) = Some WHITE ->
                             In (white_img, pawn_rect_at a b) pawns).
  { inversion Hloc as [Hp]. intros a b Hcell. apply in_flat_map. exists (a, b). split.
    - apply in_positions. eapply cell_Some_bounds; eassumption.
    - rewrite Hcell. simpl. now left. }
  destruct (@is_white_pawn_grid3 board (clicked_index (x, y)) Hg Hr Hc)
    as [w [Hw Hiff]].
  unfold gui_mouse_down. rewrite Hw. simpl bind. split.
  - intro Hne. destruct w; [elim Hne; now apply Hiff|reflexivity].
  - intros a b Hidx Hcell. rewrite Hidx in *.
    assert (w = true) by (now apply Hiff). subst w.
    destruct (collidepoint (pawn_rect_at a b) x y) eqn:E.
    + rewrite (@clicked_pawn_hit pawns x y (pawn_rect_at a b)); [reflexivity| |assumption|].
      * exists white_img. now apply Hhas.
      * intros img r' Hr' Hcol. destruct (Hin img r' Hr') as [a' [b' ->]].
        apply collide_pawn_index in Hcol. rewrite Hidx in Hcol.
        now inversion Hcol.
    + rewrite clicked_pawn_miss; [reflexivity|].
      intros img r' Hr'. destruct (Hin img r' Hr') as [a' [b' ->]].
      destruct (collidepoint (pawn_rect_at a' b') x y) eqn:E'; [|reflexivity].
      pose proof (collide_pawn_index _ _ _ _ E') as Hi. rewrite Hidx in Hi.
      inversion Hi; subst. congruence.
Qed.

Lemma X24_press_on_the_rim_witness :
  (cell board_start (clicked_index (52, 295)) <> Some WHITE ->
   gui_mouse_down board_start
     [(black_img, pawn_rect_at 0 0); (black_img, pawn_rect_at 0 1);
      (black_img, pawn_rect_at 0 2); (white_img, pawn_rect_at 2 0);
      (white_img, pawn_rect_at 2 1); (white_img, pawn_rect_at 2 2)] (52, 295) =
   inr None) /\
  (forall a b,
     clicked_index (52, 295) = (a, b) -> cell board_start (a, b) = Some WHITE ->
     gui_mouse_down board_start
       [(black_img, pawn_rect_at 0 0); (black_img, pawn_rect_at 0 1);
        (black_img, pawn_rect_at 0 2); (white_img, pawn_rect_at 2 0);
        (white_img, pawn_rect_at 2 1); (white_img, pawn_rect_at 2 2)] (52, 295) =
     if collidepoint (pawn_rect_at a b) 52 295
     then inr (Some ((a, b), pawn_rect_at a b))
     else inl (AssertionError (Some "No pawn was clicked."%string))).
Proof.
  apply (@X24_press_on_the_rim board_start
           [(black_img, pawn_rect_at 0 0); (black_img, pawn_rect_at 0 1);
            (black_img, pawn_rect_at 0 2); (white_img, pawn_rect_at 2 0);
            (white_img, pawn_rect_at 2 1); (white_img, pawn_rect_at 2 2)] 52 295);
    reflexivity.
Defined.

(* ------------------------------------------------------------------ *)
(** *** gui.py: a turn ends with the pawns of the new board *)

(** After a move on a 3 x 3 grid [locate_pawns] finds the pawns of the
    new board. *)
Lemma locate_pawns_after_move (board new_board : Board) (depart dest : pos) :
  is_grid board = true -> rows board = ROWS -> cols board = ROWS ->
  result board depart dest = inr new_board ->
  exists pawns, locate_pawns new_board table3 = inr pawns.
Proof.
  intros Hg Hr Hc Hres.
  destruct (@result_shape board new_board depart dest Hg Hres) as [Hg' [Hr' Hc']].
  eexists. apply locate_pawns_grid3; congruence.
Qed.

(** The automated turn of gui.py on a 3 x 3 grid, when the loops choose
    a move that [result] accepts. *)
Lemma gui_black_turn_move (k : Knowledge) (board new_board : Board)
    (history : option Node) (a : Action) :
  is_grid board = true -> rows board = ROWS -> cols board = ROWS ->
  scan_moves k board (spec_legal_moves board BLACK) = Some a ->
  result board (fst a) (snd a) = inr new_board ->
  gui_black_turn k board history = inr (new_board, Some (mkNode board history a)).
Proof.
  intros Hg Hr Hc Hs Hres. rewrite gui_black_turn_eq.
  rewrite actions_grid by (assumption || discriminate).
  unfold ret; cbv beta iota. rewrite Hs, Hres.
  destruct (@locate_pawns_after_move board new_board (fst a) (snd a) Hg Hr Hc Hres)
    as [pawns Hp].
  now rewrite Hp.
Qed.


(** On a board smaller than the table of tiles both turns of gui.py end
    in the IndexError of [locate_pawns], where cli.py's turn of the
    automated side returns. *)
Lemma gui_turns_on_a_small_board :
  cli_black_turn Knowledge_init board_2x2 None =
    inr ([[EMPTY; BLACK]; [WHITE; BLACK]], Some (mkNode board_2x2 None ((0, 0), (1, 1)))) /\
  gui_black_turn Knowledge_init board_2x2 None = inl IndexError /\
  gui_white_drop board_2x2 (1, 0) (0, 1) = inl IndexError /\
  gui_white_drop board_2x2 (1, 0) (0, 0) = inl IndexError.
Proof. repeat split. Qed.

(** C3.  For every grid and memory in which some legal move of black is
    not a known mistake, the move selection of the automated side (the
    same nested loops in cli.py and gui.py) returns the first (source,
    destination) pair that is not a known mistake, in the enumeration of
    the legal moves with sources in row-major order and the destinations
    of a source in the order straight, diagonal-left, diagonal-right.
    cli.py pushes that pair on the history and applies it to the board;
    so does gui.py on the 3 x 3 board it plays on, where the pawns it then
    locates exist. *)
Theorem C3_first_untried_move (knowledge : Knowledge) (board : Board) :
  is_grid board = true ->
  (exists a, cell board (fst a) = Some BLACK /\
             legal_dest board BLACK (fst a) (snd a) /\
             is_mistake knowledge board a = false) ->
  exists tried a rest,
    flatten_moves (spec_legal_moves board BLACK) = tried ++ a :: rest /\
    (forall x, In x tried -> is_mistake knowledge board x = true) /\
    is_mistake knowledge board a = false /\
    actions board BLACK = inr (spec_legal_moves board BLACK) /\
    scan_moves knowledge board (spec_legal_moves board BLACK) = Some a /\
    cli_choose knowledge board = inr a /\
    forall history, exists new_board,
      result board (fst a) (snd a) = inr new_board /\
      cli_black_turn knowledge board history =
        inr (new_board, Some (mkNode board history a)) /\
      (rows board = ROWS -> cols board = ROWS ->
       gui_black_turn knowledge board history =
         inr (new_board, Some (mkNode board history a))).
Proof.
  intros Hg [a0 [Hc0 [Hl0 Hm0]]].
  set (moves := flatten_moves (spec_legal_moves board BLACK)).
  assert (Hin0 : In a0 moves) by (apply in_flatten_spec_legal_moves; auto).
  destruct (@find_exists _ (fun a => negb (is_mistake knowledge board a)) moves a0 Hin0)
    as [a Hfind]; [now rewrite Hm0|].
  destruct (find_first _ _ Hfind) as [tried [rest [Hsplit [Htried Ha]]]].
  apply negb_true_iff in Ha.
  assert (Hact : actions board BLACK = inr (spec_legal_moves board BLACK))
    by (apply actions_grid; [assumption|discriminate]).
  assert (Hscan : scan_moves knowledge board (spec_legal_moves board BLACK) = Some a)
    by (now rewrite scan_moves_find).
  assert (Hchoose : cli_choose knowledge board = inr a).
  { unfold cli_choose. rewrite Hact. simpl. now rewrite Hscan. }
  exists tried, a, rest. repeat split; try assumption.
  - intros x Hx. apply Htried in Hx. now apply negb_false_iff in Hx.
  - intro history.
    assert (Hin : In a moves) by (rewrite Hsplit; apply in_elt).
    apply in_flatten_spec_legal_moves in Hin; [|assumption].
    destruct Hin as [Hc Hl].
    destruct (@result_legal board BLACK (fst a) (snd a) Hg) as [cap [_ [_ [_ [_ Hres]]]]];
      [discriminate|assumption|assumption|].
    eexists. split; [exact Hres|]. split.
    + unfold cli_black_turn. rewrite Hchoose. simpl. now rewrite Hres.
    + intros Hr Hcols. now apply gui_black_turn_move.
Qed.

Lemma C3_first_untried_move_witness :
  exists tried a rest,
    flatten_moves (spec_legal_moves board_capture BLACK) = tried ++ a :: rest /\
    (forall x, In x tried ->
               is_mistake [mkMistake board_capture ((0, 1), (1, 1))] board_capture x = true) /\
    is_mistake [mkMistake board_capture ((0, 1), (1, 1))] board_capture a = false /\
    actions board_capture BLACK = inr (spec_legal_moves board_capture BLACK) /\
    scan_moves [mkMistake board_capture ((0, 1), (1, 1))] board_capture
               (spec_legal_moves board_capture BLACK) = Some a /\
    cli_choose [mkMistake board_capture ((0, 1), (1, 1))] board_capture = inr a /\
    forall history, exists new_board,
      result board_capture (fst a) (snd a) = inr new_board /\
      cli_black_turn [mkMistake board_capture ((0, 1), (1, 1))] board_capture history =
        inr (new_board, Some (mkNode board_capture history a)) /\
      (rows board_capture = ROWS -> cols board_capture = ROWS ->
       gui_black_turn [mkMistake board_capture ((0, 1), (1, 1))] board_capture history =
         inr (new_board, Some (mkNode board_capture history a))).
Proof.
  apply (@C3_first_untried_move [mkMistake board_capture ((0, 1), (1, 1))] board_capture).
  - reflexivity.
  - exists ((0, 1), (1, 0)). split; [reflexivity|]. split; [|reflexivity].
    right; left. split; reflexivity.
Defined.



(* ------------------------------------------------------------------ *)
(** *** The automated turn in the two shells *)

Lemma cli_choose_grid (k : Knowledge) (board : Board) :
  is_grid board = true ->
  cli_choose k board =
  match scan_moves k board (spec_legal_moves board BLACK) with
  | Some a => inr a
  | None => match spec_legal_moves board BLACK with
            | [] => inl IndexError
            | _ :: _ => inl (AssertionError None)
            end
  end.
Proof.
  intro Hg. unfold cli_choose. rewrite actions_grid by (assumption || discriminate).
  simpl bind. destruct (scan_moves k board (spec_legal_moves board BLACK)); [reflexivity|].
  destruct (spec_legal_moves board BLACK) as [|e d] eqn:E; [reflexivity|].
  assert (He : In e (spec_legal_moves board BLACK)) by (rewrite E; now left).
  unfold spec_legal_moves in He. apply in_flat_map in He. destruct He as [p [_ He]].
  apply spec_entry_key in He. destruct He as [_ [_ [Hne _]]].
  simpl. destruct (snd e); [congruence|reflexivity].
Qed.

(** The three ways the turn of the automated side can go on a grid. *)
Lemma automated_turn_cases (k : Knowledge) (board : Board) (history : option Node) :
  is_grid board = true ->
  (exists a new_board,
     is_mistake k board a = false /\
     legal_step board BLACK a new_board /\
     cli_black_turn k board history = inr (new_board, Some (mkNode board history a)) /\
     (rows board = ROWS -> cols board = ROWS ->
      gui_black_turn k board history = inr (new_board, Some (mkNode board history a))))
  \/
  (no_legal_move board BLACK /\
   cli_black_turn k board history = inl IndexError /\
   gui_black_turn k board history = inr (board, history))
  \/
  (~ no_legal_move board BLACK /\
   (forall a, cell board (fst a) = Some BLACK ->
              legal_dest board BLACK (fst a) (snd a) ->
              is_mistake k board a = true) /\
   cli_black_turn k board history = inl (AssertionError None) /\
   gui_black_turn k board history = inr (board, history)).
Proof.
  intro Hg.
  destruct (scan_moves k board (spec_legal_moves board BLACK)) as [a|] eqn:Hs.
  - left. pose proof Hs as Hsound. apply scan_moves_sound in Hsound.
    destruct Hsound as [Hm Hin].
    apply in_flatten_spec_legal_moves in Hin; [|assumption]. destruct Hin as [Hc Hl].
    destruct (@legal_step_intro board BLACK a Hg) as [nb [Hres Hstep]];
      [discriminate|assumption|assumption|].
    exists a, nb. split; [assumption|]. split; [assumption|]. split.
    + unfold cli_black_turn. rewrite cli_choose_grid by assumption.
      rewrite Hs. simpl bind. now rewrite Hres.
    + intros Hr Hcols. now apply gui_black_turn_move.
  - right. unfold cli_black_turn. rewrite gui_black_turn_eq.
    rewrite cli_choose_grid by assumption.
    rewrite actions_grid by (assumption || discriminate). unfold ret; cbv beta iota. rewrite Hs.
    pose proof (scan_moves_none _ _ _ Hs) as Hall.
    pose proof (no_moves_iff board BLACK Hg) as Hno.
    destruct (spec_legal_moves board BLACK) as [|e d] eqn:E.
    + left. split; [now apply Hno|]. auto.
    + right. split; [|split; [|auto]].
      * intro H. apply Hno in H. discriminate.
      * intros a Hc Hl. apply Hall. rewrite <- E.
        apply in_flatten_spec_legal_moves; auto.
Qed.

(** X15.  The turn of the automated side on a grid, in the two shells.
    Either some legal move of black is not a known mistake: then cli.py
    pushes a node and applies a legal, untried move, and on the 3 x 3
    board it plays on gui.py pushes the same node and applies the same
    move.  Or black has no legal move: cli.py raises IndexError, gui.py
    changes nothing.  Or black has legal moves and all are known
    mistakes: cli.py raises a bare AssertionError, gui.py changes
    nothing. *)
Theorem X15_automated_turn_cases (k : Knowledge) (board : Board) (history : option Node) :
  is_grid board = true ->
  (exists a new_board,
     is_mistake k board a = false /\
     legal_step board BLACK a new_board /\
     cli_black_turn k board history = inr (new_board, Some (mkNode board history a)) /\
     (rows board = ROWS -> cols board = ROWS ->
      gui_black_turn k board history = inr (new_board, Some (mkNode board history a))))
  \/
  (no_legal_move board BLACK /\
   cli_black_turn k board history = inl IndexError /\
   gui_black_turn k board history = inr (board, history))
  \/
  (~ no_legal_move board BLACK /\
   (forall a, cell board (fst a) = Some BLACK ->
              legal_dest board BLACK (fst a) (snd a) ->
              is_mistake k board a = true) /\
   cli_black_turn k board history = inl (AssertionError None) /\
   gui_black_turn k board history = inr (board, history)).
Proof. exact (@automated_turn_cases k board history). Qed.

Lemma X15_automated_turn_cases_witness :
  (exists a new_board,
     is_mistake [mkMistake board_one_move ((0, 2), (1, 2))] board_one_move a = false /\
     legal_step board_one_move BLACK a new_board /\
     cli_black_turn [mkMistake board_one_move ((0, 2), (1, 2))] board_one_move None =
       inr (new_board, Some (mkNode board_one_move None a)) /\
     (rows board_one_move = ROWS -> cols board_one_move = ROWS ->
      gui_black_turn [mkMistake board_one_move ((0, 2), (1, 2))] board_one_move None =
        inr (new_board, Some (mkNode board_one_move None a))))
  \/
  (no_legal_move board_one_move BLACK /\
   cli_black_turn [mkMistake board_one_move ((0, 2), (1, 2))] board_one_move None =
     inl IndexError /\
   gui_black_turn [mkMistake board_one_move ((0, 2), (1, 2))] board_one_move None =
     inr (board_one_move, None))
  \/
  (~ no_legal_move board_one_move BLACK /\
   (forall a, cell board_one_move (fst a) = Some BLACK ->
              legal_dest board_one_move BLACK (fst a) (snd a) ->
              is_mistake [mkMistake board_one_move ((0, 2), (1, 2))] board_one_move a = true) /\
   cli_black_turn [mkMistake board_one_move ((0, 2), (1, 2))] board_one_move None =
     inl (AssertionError None) /\
   gui_black_turn [mkMistake board_one_move ((0, 2), (1, 2))] board_one_move None =
     inr (board_one_move, None)).
Proof.
  apply (@X15_automated_turn_cases [mkMistake board_one_move ((0, 2), (1, 2))]
           board_one_move None).
  reflexivity.
Defined.

(* ------------------------------------------------------------------ *)
(** *** cli.py: the loop of play *)

Lemma review_reflect_returns (k : Knowledge) (history : option Node) :
  grid_history history ->
  exists added, review_reflect k history = (inr tt, k ++ added).
Proof.
  intro Hgrid.
  destruct (review_reflect_spec k history) as [blamed [rest [Hw [_ Ho]]]].
  destruct rest as [|nd rest'].
  - exists (map mistake_of blamed). exact Ho.
  - assert (Hg : is_grid (state nd) = true).
    { unfold grid_history in Hgrid. rewrite Hw in Hgrid.
      apply Forall_app in Hgrid. destruct Hgrid as [_ H]. now inversion H. }
    destruct (catch22_total (recorded k blamed) (state nd) Hg) as [b Hb].
    rewrite Hb in Ho. destruct b; [destruct Ho|].
    exists (map mistake_of blamed ++ [mistake_of nd]).
    rewrite Ho. unfold recorded. now rewrite app_assoc.
Qed.

Lemma cli_choose_turn_black (k : Knowledge) (board : Board) :
  cli_choose_turn k board BLACK = cli_choose k board.
Proof. reflexivity. Qed.

(** The terminal branch of an iteration. *)
Lemma cli_iteration_terminal (st : cli_state) (human : exc Action) (again : bool)
    (turn : piece) :
  is_grid (cli_board st) = true -> grid_history (cli_history st) ->
  getitem (cli_chance st) 0 = inr turn ->
  terminal (cli_board st) turn = inr true ->
  exists added,
    cli_iteration st human again =
    inr (if again
         then Continue (mkCli board_start [WHITE; BLACK] None (cli_knowledge st ++ added))
         else Break (mkCli (cli_board st) (cli_chance st) (cli_history st)
                           (cli_knowledge st ++ added))).
Proof.
  intros Hg Hh Hturn Hterm. unfold cli_iteration. rewrite Hturn. simpl bind.
  rewrite Hterm. simpl bind.
  destruct (terminal_grid (cli_board st) turn Hg) as [wt [bb [_ [_ [Ht Hu]]]]].
  rewrite Ht in Hterm.
  assert (Hw : exists w, utility (cli_board st) turn = inr w).
  { rewrite Hu. inversion Hterm as [Hb].
    destruct wt; [eauto|]. destruct bb; [eauto|]. simpl in Hb.
    destruct (piece_eqb turn BLACK && is_empty_dict (spec_legal_moves (cli_board st) BLACK));
      [eauto|].
    rewrite orb_false_r in Hb. rewrite Hb. eauto. }
  destruct Hw as [w Hw]. rewrite Hw. simpl bind.
  destruct (piece_eqb w WHITE).
  - destruct (review_reflect_returns (cli_knowledge st) Hh) as [added Hrr].
    rewrite Hrr. simpl bind. exists added. destruct again; reflexivity.
  - simpl bind. exists []. rewrite app_nil_r. destruct again; reflexivity.
Qed.

(** The branch of the human: an exception of [white_chance] ends the
    iteration, and the pair it returns goes to [result] as it is. *)
Lemma cli_iteration_white (st : cli_state) (human : exc Action) (again : bool) :
  getitem (cli_chance st) 0 = inr WHITE ->
  terminal (cli_board st) WHITE = inr false ->
  cli_iteration st human again =
  match human with
  | inl e => inl e
  | inr typed =>
      match result (cli_board st) (fst typed) (snd typed) with
      | inl e => inl e
      | inr new_board =>
          inr (Continue (mkCli new_board (rev (cli_chance st)) (cli_history st)
                               (cli_knowledge st)))
      end
  end.
Proof.
  intros Hturn Hterm. unfold cli_iteration. rewrite Hturn. simpl bind.
  rewrite Hterm. simpl bind.
  destruct human as [e|typed]; [reflexivity|]. simpl bind.
  destruct (result (cli_board st) (fst typed) (snd typed)); reflexivity.
Qed.

(** The branch of the automated side. *)
Lemma cli_iteration_black (st : cli_state) (human : exc Action) (again : bool) :
  getitem (cli_chance st) 0 = inr BLACK ->
  terminal (cli_board st) BLACK = inr false ->
  cli_iteration st human again =
  match cli_black_turn (cli_knowledge st) (cli_board st) (cli_history st) with
  | inl e => inl e
  | inr (new_board, history) =>
      inr (Continue (mkCli new_board (rev (cli_chance st)) history (cli_knowledge st)))
  end.
Proof.
  intros Hturn Hterm. unfold cli_iteration, cli_black_turn. rewrite Hturn. simpl bind.
  rewrite Hterm. simpl bind. rewrite cli_choose_turn_black.
  destruct (cli_choose (cli_knowledge st) (cli_board st)) as [e|a]; [reflexivity|].
  simpl bind.
  destruct (result (cli_board st) (fst a) (snd a)); reflexivity.
Qed.

Lemma terminal_total (board : Board) (turn : piece) :
  is_grid board = true -> exists b, terminal board turn = inr b.
Proof.
  intro Hg. destruct (terminal_grid board turn Hg) as [wt [bb [_ [_ [Ht _]]]]].
  rewrite Ht. eauto.
Qed.


Lemma cli_wf_start : cli_wf cli_start.
Proof.
  unfold cli_wf, cli_start. simpl. repeat split; auto. constructor.
Qed.

(** X16.  cli.py's loop keeps its state well formed and its memory
    growing: from the state [play] starts in, and from every state an
    iteration can leave, an iteration that does not raise ends in a state
    with a 3 x 3 grid, [chance] in one of its two orders and a history
    whose boards are grids, and with the old memory as a prefix of the new
    one, also across "Try Again": a retry resets board, turn and history
    but never the memory. *)
Theorem X16_cli_loop_invariant (st : cli_state) (human : exc Action) (again : bool)
    (nxt : cli_next) :
  cli_wf st ->
  cli_iteration st human again = inr nxt ->
  cli_wf cli_start /\
  cli_wf (next_state nxt) /\
  exists added, cli_knowledge (next_state nxt) = cli_knowledge st ++ added.
Proof.
  intros [Hg [Hr [Hc [Hch Hh]]]] Hit. split; [apply cli_wf_start|].
  assert (Hturn : exists turn, getitem (cli_chance st) 0 = inr turn /\
                               (turn = WHITE \/ turn = BLACK) /\
                               (rev (cli_chance st) = [WHITE; BLACK] \/
                                rev (cli_chance st) = [BLACK; WHITE])).
  { destruct Hch as [-> | ->]; [exists WHITE|exists BLACK]; simpl; auto. }
  destruct Hturn as [turn [Hturn [Hside Hrev]]].
  destruct (terminal_total (cli_board st) turn Hg) as [[|] Hterm].
  - destruct (@cli_iteration_terminal st human again turn Hg Hh Hturn Hterm)
      as [added Heq].
    rewrite Heq in Hit. inversion Hit; subst nxt.
    destruct again; simpl.
    + split; [|eauto]. unfold cli_wf. simpl. repeat split; auto. constructor.
    + split; [|eauto]. unfold cli_wf. simpl. repeat split; auto.
  - destruct Hside as [-> | ->].
    + rewrite cli_iteration_white in Hit by assumption.
      destruct human as [e|typed]; [discriminate|].
      destruct (result (cli_board st) (fst typed) (snd typed)) as [e|nb] eqn:Hres;
        [discriminate|].
      inversion Hit; subst nxt. simpl.
      destruct (@result_shape (cli_board st) nb (fst typed) (snd typed) Hg Hres)
        as [Hg' [Hr' Hc']].
      split; [|exists []; now rewrite app_nil_r].
      unfold cli_wf. simpl. repeat split; try congruence; assumption.
    + rewrite cli_iteration_black in Hit by assumption.
      destruct (cli_black_turn (cli_knowledge st) (cli_board st) (cli_history st))
        as [e|[nb h']] eqn:Hbt; [discriminate|].
      inversion Hit; subst nxt. simpl.
      unfold cli_black_turn in Hbt.
      destruct (cli_choose (cli_knowledge st) (cli_board st)) as [e|a]; [discriminate|].
      simpl in Hbt.
      destruct (result (cli_board st) (fst a) (snd a)) as [e|nb'] eqn:Hres;
        [discriminate|].
      simpl in Hbt. inversion Hbt; subst nb' h'.
      destruct (@result_shape (cli_board st) nb (fst a) (snd a) Hg Hres)
        as [Hg' [Hr' Hc']].
      split; [|exists []; now rewrite app_nil_r].
      unfold cli_wf. simpl. repeat split; try congruence; try assumption.
      unfold grid_history. simpl.
      destruct (cli_history st) as [p|] eqn:Hp; simpl.
      * constructor; [exact Hg|exact Hh].
      * constructor; [exact Hg|constructor].
Qed.

Lemma X16_cli_loop_invariant_witness :
  cli_wf cli_start /\
  cli_wf (next_state (Continue (mkCli board_capture [BLACK; WHITE] None Knowledge_init))) /\
  exists added,
    cli_knowledge (next_state (Continue (mkCli board_capture [BLACK; WHITE] None
                                               Knowledge_init))) =
    cli_knowledge cli_start ++ added.
Proof.
  apply (@X16_cli_loop_invariant cli_start (inr ((2, 0), (1, 0))) false
           (Continue (mkCli board_capture [BLACK; WHITE] None Knowledge_init))).
  - apply cli_wf_start.
  - reflexivity.
Defined.



(** X18.  cli.py does not check the human's move: on the human's turn,
    when the game is not over, every pair [white_chance] returns whose
    destination is in bounds and whose departure a subscript reaches is
    applied by [result] as it is - a pawn of either colour or an empty
    cell, moved in any direction over any distance - and the turn passes
    to the automated side with history and memory untouched. *)
Theorem X18_cli_human_move_unchecked (st : cli_state) (human : Action) (again : bool) :
  is_grid (cli_board st) = true ->
  cli_chance st = [WHITE; BLACK] ->
  terminal (cli_board st) WHITE = inr false ->
  in_bounds (cli_board st) (snd human) ->
  subscriptable (cli_board st) (fst human) ->
  exists moved,
    cell (cli_board st) (wrap_pos (cli_board st) (fst human)) = Some moved /\
    cli_iteration st (inr human) again =
    inr (Continue
           (mkCli (put (put (cli_board st) (snd human) moved)
                       (wrap_pos (cli_board st) (fst human)) EMPTY)
                  [BLACK; WHITE] (cli_history st) (cli_knowledge st))).
Proof.
  intros Hg Hch Hterm Hb Hs.
  destruct (@result_ok (cli_board st) (fst human) (snd human) Hg Hb Hs) as [v [Hv Hres]].
  exists v. split; [exact Hv|].
  rewrite cli_iteration_white by (try assumption; now rewrite Hch).
  now rewrite Hres, Hch.
Qed.

Lemma X18_cli_human_move_unchecked_witness :
  exists moved,
    cell board_start (wrap_pos board_start (0, 0)) = Some moved /\
    cli_iteration cli_start (inr ((0, 0), (2, 2))) false =
    inr (Continue
           (mkCli (put (put board_start (2, 2) moved) (wrap_pos board_start (0, 0)) EMPTY)
                  [BLACK; WHITE] None Knowledge_init)).
Proof.
  apply (@X18_cli_human_move_unchecked cli_start ((0, 0), (2, 2)) false).
  - reflexivity.
  - reflexivity.
  - reflexivity.
  - unfold in_bounds, rows, cols, len; simpl; lia.
  - unfold subscriptable, rows, cols, len; simpl; lia.
Defined.

(* ------------------------------------------------------------------ *)
(** *** The initial position *)

Lemma initial_state_filled (m n : Z) :
  1 <= m -> 1 <= n ->
  exists board, initial_state m n = inr board /\ filled_upto m n n board.
Proof.
  intros Hm Hn. unfold initial_state. rewrite range_zseq.
  destruct (@fill_columns m n (Z.to_nat n) Hm 0
              (repeat (repeat EMPTY (Z.to_nat n)) (Z.to_nat m)))
    as [board [Hrun Hinv]]; [lia|lia|apply empty_board_filled; lia|].
  exists board. split; [exact Hrun|].
  replace (0 + Z.of_nat (Z.to_nat n)) with n in Hinv by lia. exact Hinv.
Qed.

Lemma filled_cell (m n : Z) (board : Board) (r c : Z) :
  filled_upto m n n board -> 0 <= r < m -> 0 <= c < n ->
  cell board (r, c) = Some (initial_cell m r).
Proof.
  intros [_ [_ [_ Hcells]]] Hr Hc. rewrite (Hcells r c Hr Hc).
  destruct (Z.ltb_spec c n); [reflexivity|lia].
Qed.

(** X19.  With at least three rows the initial position is not terminal,
    whoever is to move: no piece stands on the far row and both sides can
    advance; [utility] must not be asked, it raises the assertion error
    "Utility calculation failed.". *)
Theorem X19_initial_not_terminal (m n : Z) (turn : piece) :
  3 <= m -> 1 <= n ->
  exists board,
    initial_state m n = inr board /\
    terminal board turn = inr false /\
    utility board turn =
      inl (AssertionError (Some "Utility calculation failed."%string)) /\
    ~ no_legal_move board WHITE /\ ~ no_legal_move board BLACK.
Proof.
  intros Hm Hn.
  destruct (@initial_state_filled m n) as [board [Hinit Hfill]]; [lia|lia|].
  pose proof Hfill as [Hg [Hrows [Hcols _]]].
  exists board. split; [exact Hinit|].
  assert (Hcell : forall r c, 0 <= r < m -> 0 <= c < n ->
                              cell board (r, c) = Some (initial_cell m r))
    by (intros; eapply filled_cell; eassumption).
  assert (HnW : ~ no_legal_move board WHITE).
  { intro Hno. apply (Hno (m - 1, 0) (m - 2, 0)).
    - rewrite Hcell by lia. unfold initial_cell. now rewrite Z.eqb_refl.
    - left. simpl. split; [f_equal; lia|].
      rewrite Hcell by lia. unfold initial_cell.
      destruct (Z.eqb_spec (m - 2) (m - 1)); [lia|].
      destruct (Z.eqb_spec (m - 2) 0); [lia|reflexivity]. }
  assert (HnB : ~ no_legal_move board BLACK).
  { intro Hno. apply (Hno (0, 0) (1, 0)).
    - rewrite Hcell by lia. unfold initial_cell.
      destruct (Z.eqb_spec 0 (m - 1)); [lia|reflexivity].
    - left. simpl. split; [reflexivity|].
      rewrite Hcell by lia. unfold initial_cell.
      destruct (Z.eqb_spec 1 (m - 1)); [lia|reflexivity]. }
  assert (Htop : ~ white_reached_top board).
  { intros [j Hj]. pose proof (cell_Some_bounds _ _ Hg Hj) as [_ Hb]. simpl in Hb.
    rewrite Hcell in Hj by lia. unfold initial_cell in Hj.
    destruct (Z.eqb_spec 0 (m - 1)); [lia|discriminate]. }
  assert (Hbot : ~ black_reached_bottom board).
  { intros [j Hj]. pose proof (cell_Some_bounds _ _ Hg Hj) as [_ Hb]. simpl in Hb.
    rewrite Hrows in Hj. rewrite Hcell in Hj by lia. unfold initial_cell in Hj.
    rewrite Z.eqb_refl in Hj. discriminate. }
  destruct (terminal_grid board turn Hg) as [wt [bb [Hwt [Hbb [Hterm Hutil]]]]].
  rewrite Hterm, Hutil.
  destruct wt; [elim Htop; now apply Hwt|].
  destruct bb; [elim Hbot; now apply Hbb|].
  destruct (is_empty_dict (spec_legal_moves board WHITE)) eqn:EW;
    [elim HnW; now apply no_moves_iff|].
  destruct (is_empty_dict (spec_legal_moves board BLACK)) eqn:EB;
    [elim HnB; now apply no_moves_iff|].
  rewrite !andb_false_r. simpl. auto.
Qed.

Lemma X19_initial_not_terminal_witness :
  exists board,
    initial_state 3 3 = inr board /\
    terminal board WHITE = inr false /\
    utility board WHITE =
      inl (AssertionError (Some "Utility calculation failed."%string)) /\
    ~ no_legal_move board WHITE /\ ~ no_legal_move board BLACK.
Proof.
  apply (@X19_initial_not_terminal 3 3 WHITE); lia.
Defined.

Lemma piece_count_empty_rows (n m : nat) :
  piece_count (repeat (repeat EMPTY n) m) = 0.
Proof.
  assert (Hrow : row_count (repeat EMPTY n) = 0).
  { induction n as [|n IH]; [reflexivity|]. simpl repeat. rewrite row_count_cons, IH.
    reflexivity. }
  induction m as [|m IH]; [reflexivity|]. simpl repeat.
  rewrite piece_count_cons, IH. fold (row_count (repeat EMPTY n)). lia.
Qed.

Lemma fill_column_count (m n t : Z) (board board' : Board) :
  2 <= m -> 0 <= t < n -> filled_upto m n t board ->
  fill_column m t board = inr board' ->
  piece_count board' = piece_count board + 2.
Proof.
  intros Hm Ht [Hg [Hrows [Hcols Hcells]]]. unfold fill_column.
  rewrite setitem2_ok by (rewrite ?Hrows, ?Hcols; (assumption || lia)).
  simpl bind. rewrite !wrap_nonneg by lia.
  destruct (put_shape board (0, t) BLACK Hg) as [Hg1 [Hrows1 Hcols1]].
  rewrite setitem2_ok by (rewrite ?Hrows1, ?Hcols1, ?Hrows, ?Hcols; (assumption || lia)).
  rewrite !wrap_nonneg by lia. intros [= <-].
  assert (H0 : cell board (0, t) = Some EMPTY).
  { rewrite Hcells by lia. destruct (Z.ltb_spec t t); [lia|reflexivity]. }
  assert (H1 : cell (put board (0, t) BLACK) (m - 1, t) = Some EMPTY).
  { rewrite cell_put by (simpl; rewrite ?Hrows, ?Hcols; (assumption || lia)).
    rewrite pos_eqb_neq by (intros [= H]; lia).
    rewrite Hcells by lia. destruct (Z.ltb_spec t t); [lia|reflexivity]. }
  rewrite piece_count_put with (old := EMPTY) by exact H1.
  rewrite piece_count_put with (old := EMPTY) by exact H0.
  change (occ EMPTY) with 0. change (occ BLACK) with 1. change (occ WHITE) with 1. lia.
Qed.

Lemma fill_columns_count (m n : Z) (k : nat) :
  2 <= m ->
  forall t board board', 0 <= t -> t + Z.of_nat k <= n -> filled_upto m n t board ->
    for_each (fill_column m) (zseq t k) board = inr board' ->
    piece_count board' = piece_count board + 2 * Z.of_nat k.
Proof.
  intro Hm. induction k as [|k IH]; intros t board board' Ht Hk Hinv Hrun.
  - simpl in Hrun. inversion Hrun. lia.
  - simpl zseq in Hrun. simpl for_each in Hrun.
    destruct (@fill_column_step m n t board) as [b1 [Hb1 Hinv1]]; [lia|lia|assumption|].
    rewrite Hb1 in Hrun. simpl bind in Hrun.
    rewrite (IH (t + 1) b1 board') by (assumption || lia).
    rewrite (@fill_column_count m n t board b1) by (assumption || lia). lia.
Qed.

(** X20.  For every m >= 2 and n >= 1 the board [initial_state m n]
    returns carries exactly 2 n pieces: the n black pawns of row 0 and
    the n white pawns of row m-1. *)
Theorem X20_initial_piece_count (m n : Z) :
  2 <= m -> 1 <= n ->
  exists board, initial_state m n = inr board /\ piece_count board = 2 * n.
Proof.
  intros Hm Hn.
  destruct (@initial_state_filled m n) as [board [Hinit _]]; [lia|lia|].
  exists board. split; [exact Hinit|].
  unfold initial_state in Hinit. rewrite range_zseq in Hinit.
  rewrite (@fill_columns_count m n (Z.to_nat n) Hm 0
             (repeat (repeat EMPTY (Z.to_nat n)) (Z.to_nat m)) board);
    try (assumption || lia).
  - rewrite piece_count_empty_rows. lia.
  - apply empty_board_filled; lia.
Qed.

Lemma X20_initial_piece_count_witness :
  exists board, initial_state 3 3 = inr board /\ piece_count board = 2 * 3.
Proof.
  apply (@X20_initial_piece_count 3 3); lia.
Defined.

(* ------------------------------------------------------------------ *)
(** *** When the memory changes *)

Lemma records_at_app (k1 k2 : Knowledge) (b : Board) :
  records_at (k1 ++ k2) b = records_at k1 b ++ records_at k2 b.
Proof. unfold records_at. apply filter_app. Qed.

(** X25.  A board is judged a forced loss at most once.  On a grid, when
    [catch22] answers true for a board and a mistake at that board is then
    notified - as [review_reflect] does - [catch22] answers false for that
    board from then on, whatever else is notified later.  And a board on
    which black has no legal move is never a forced loss. *)
Theorem X25_forced_loss_only_once (k later : Knowledge) (board : Board) (a : Action) :
  is_grid board = true ->
  (catch22 k board = inr true ->
   catch22 (notify k (mkMistake board a) ++ later) board = inr false) /\
  (no_legal_move board BLACK -> catch22 k board = inr false).
Proof.
  intro Hg. rewrite !catch22_grid by assumption. split.
  - intro H. inversion H as [Heq]. apply Z.eqb_eq in Heq. f_equal.
    apply Z.eqb_neq. unfold notify. rewrite !records_at_app.
    unfold len in *. rewrite !length_app.
    assert (Hone : length (records_at [mkMistake board a] board) = 1%nat).
    { unfold records_at. simpl. now rewrite board_eqb_refl. }
    rewrite Hone. lia.
  - intro Hno. apply no_moves_iff in Hno; [|assumption].
    destruct (spec_legal_moves board BLACK); [|discriminate].
    f_equal. apply Z.eqb_neq. unfold flatten_moves, len. simpl. lia.
Qed.

Lemma X25_forced_loss_only_once_witness :
  (catch22 Knowledge_init board_one_move = inr true ->
   catch22 (notify Knowledge_init (mkMistake board_one_move ((0, 2), (1, 2))) ++ [])
           board_one_move = inr false) /\
  (no_legal_move board_one_move BLACK ->
   catch22 Knowledge_init board_one_move = inr false).
Proof.
  apply (@X25_forced_loss_only_once Knowledge_init [] board_one_move ((0, 2), (1, 2))).
  reflexivity.
Defined.

(** X26.  cli.py learns only from games white has won.  At the end of a
    game, on a well-formed state: when the winner is black the memory
    stays as it is; when the winner is white the memory becomes the one
    [review_reflect] leaves, run once on the history of that game.  Either
    way "Try Again" starts from the initial board with white to move and
    an empty history, and keeps that memory. *)
Theorem X26_cli_end_of_game (st : cli_state) (human : exc Action) (again : bool)
    (turn winner : piece) :
  cli_wf st ->
  getitem (cli_chance st) 0 = inr turn ->
  terminal (cli_board st) turn = inr true ->
  utility (cli_board st) turn = inr winner ->
  exists learnt,
    (winner <> WHITE -> learnt = cli_knowledge st) /\
    (winner = WHITE ->
     review_reflect (cli_knowledge st) (cli_history st) = (inr tt, learnt)) /\
    cli_iteration st human again =
    inr (if again
         then Continue (mkCli board_start [WHITE; BLACK] None learnt)
         else Break (mkCli (cli_board st) (cli_chance st) (cli_history st) learnt)).
Proof.
  intros [Hg [_ [_ [_ Hh]]]] Hturn Hterm Hutil.
  unfold cli_iteration. rewrite Hturn. simpl bind. rewrite Hterm. simpl bind.
  rewrite Hutil. simpl bind.
  destruct (piece_eqb winner WHITE) eqn:E.
  - apply piece_eqb_eq in E. subst winner.
    destruct (review_reflect_returns (cli_knowledge st) Hh) as [added Hrr].
    rewrite Hrr. simpl bind. exists (cli_knowledge st ++ added).
    split; [congruence|]. split; [reflexivity|]. destruct again; reflexivity.
  - simpl bind. exists (cli_knowledge st). split; [reflexivity|]. split.
    + intros ->. discriminate.
    + destruct again; reflexivity.
Qed.

Lemma X26_cli_end_of_game_witness :
  exists learnt,
    (WHITE <> WHITE ->
     learnt = cli_knowledge
                (mkCli board_black_trapped [BLACK; WHITE]
                       (Some (mkNode board_capture None ((0, 1), (1, 1)))) Knowledge_init)) /\
    (WHITE = WHITE ->
     review_reflect
       (cli_knowledge
          (mkCli board_black_trapped [BLACK; WHITE]
                 (Some (mkNode board_capture None ((0, 1), (1, 1)))) Knowledge_init))
       (cli_history
          (mkCli board_black_trapped [BLACK; WHITE]
                 (Some (mkNode board_capture None ((0, 1), (1, 1)))) Knowledge_init)) =
     (inr tt, learnt)) /\
    cli_iteration
      (mkCli board_black_trapped [BLACK; WHITE]
             (Some (mkNode board_capture None ((0, 1), (1, 1)))) Knowledge_init)
      (inr ((0, 0), (0, 0))) true =
    inr (if true
         then Continue (mkCli board_start [WHITE; BLACK] None learnt)
         else Break (mkCli
                       (cli_board
                          (mkCli board_black_trapped [BLACK; WHITE]
                                 (Some (mkNode board_capture None ((0, 1), (1, 1))))
                                 Knowledge_init))
                       (cli_chance
                          (mkCli board_black_trapped [BLACK; WHITE]
                                 (Some (mkNode board_capture None ((0, 1), (1, 1))))
                                 Knowledge_init))
                       (cli_history
                          (mkCli board_black_trapped [BLACK; WHITE]
                                 (Some (mkNode board_capture None ((0, 1), (1, 1))))
                                 Knowledge_init))
                       learnt)).
Proof.
  apply (@X26_cli_end_of_game
           (mkCli board_black_trapped [BLACK; WHITE]
                  (Some (mkNode board_capture None ((0, 1), (1, 1)))) Knowledge_init)
           (inr ((0, 0), (0, 0))) true BLACK WHITE).
  - unfold cli_wf. simpl. repeat split; auto.
    unfold grid_history. simpl. constructor; [reflexivity|constructor].
  - reflexivity.
  - reflexivity.
  - reflexivity.
Defined.
